(** * zerv-security: policy definition and resolution engine

    A shallow embedding of

    - [lib/security-definition.service.js]  (module [SecurityDefinition]),
    - [lib/user-policy.model.js]            (module [UserPolicy]),
    - [lib/security.service.js]             (module [SecurityService]),

    followed by the properties of the loader, the compiler, the resolver and
    the environment filter.

    JavaScript objects with optional properties are records of [option]
    fields ([None] is [undefined]); free-form objects (setting definitions,
    params) are finite maps from property names to values; module-level
    variables are fields of the [World]; exceptions and the logger are
    threaded through a state-and-exception monad [M]. *)

From Stdlib Require Import ZArith Lia.
From stdpp Require Import base option list strings gmap pretty.

Open Scope string_scope.
Open Scope list_scope.

(** ** JavaScript values *)

(** The primitive values the engine inspects.  [JRef] stands for any object
    the engine only passes around (a promise, an array, a nested object). *)
Inductive jsval :=
| JUndefined
| JNull
| JBool (b : bool)
| JNum (n : Z)
| JStr (s : string)
| JRef (r : nat).

#[global] Instance jsval_eq_dec : EqDecision jsval.
Proof. solve_decision. Defined.

(** [ToBoolean]. *)
Definition truthy (v : jsval) : bool :=
  match v with
  | JUndefined | JNull => false
  | JBool b => b
  | JNum n => negb (n =? 0)%Z
  | JStr s => negb (String.eqb s "")
  | JRef _ => true
  end.

(** Truthiness of an optional string property: [undefined] and [''] are
    falsy. *)
Definition truthy_str (s : option string) : bool :=
  match s with
  | Some s => negb (String.eqb s "")
  | None => false
  end.

(** ['...' + x] for a string-or-undefined [x]. *)
Definition show_str (s : option string) : string := default "undefined" s.

(** A plain object: own properties only. *)
Abbreviation obj := (gmap string jsval).

(** Property read [o.k]: a missing property reads as [undefined]. *)
Definition prop (o : obj) (k : string) : jsval := default JUndefined (o !! k).

(** [_.assign({}, a, b)]: sources are applied left to right, so the
    properties of [b] win; an [undefined] source is skipped. *)
Definition assign (a b : option obj) : obj := default ∅ b ∪ default ∅ a.

(** [hay.indexOf(needle) !== -1] on strings. *)
Fixpoint includes (needle hay : string) : bool :=
  String.prefix needle hay ||
  match hay with
  | EmptyString => false
  | String _ hay' => includes needle hay'
  end.

(** ** Exceptions, completions, promises *)

(** A thrown [Error] (or [AssertionError], [TypeError]) carries a mutable
    [message]; a promise may also be rejected with a bare string. *)
Inductive Exn :=
| Error (message : string)
| Reason (r : string).

(** [e.message += s] *)
Definition append_message (e : Exn) (s : string) : Exn :=
  match e with
  | Error m => Error (m +:+ s)
  | Reason r => Reason r
  end.

Definition message (e : Exn) : option string :=
  match e with
  | Error m => Some m
  | Reason _ => None
  end.

Inductive Completion (A : Type) :=
| Ok (a : A)
| Throw (e : Exn).
Arguments Ok {A} a.
Arguments Throw {A} e.

(** A settled promise. *)
Inductive Promise (A : Type) :=
| Resolved (a : A)
| Rejected (e : Exn).
Arguments Resolved {A} a.
Arguments Rejected {A} e.

(** ** Configuration data (section 3 of the specification) *)

Definition ContextParams := option obj.

(** A condition predicate of a condition factory:
    [(policyParams, contextParams) -> boolean-ish]. *)
Definition ConditionFn := option obj → ContextParams → Completion jsval.

(** The apply implementation of a resource type, seen through
    [Promise.resolve(apply(setting, contextParams))]. *)
Definition ApplyFn := obj → ContextParams → Promise jsval.

(** [env] is written either as a string (['client']) or as an array
    ([['client', 'server']]); both have an [indexOf]. *)
Inductive Env :=
| EnvString (s : string)
| EnvArray (l : list string).

Definition env_truthy (e : Env) : bool :=
  match e with
  | EnvString s => negb (String.eqb s "")
  | EnvArray _ => true
  end.

(** [env.indexOf(tag) !== -1] *)
Definition env_has (e : Env) (tag : string) : bool :=
  match e with
  | EnvString s => includes tag s
  | EnvArray l => bool_decide (tag ∈ l)
  end.

Record ResourceType := {
  rt_name : option string;
  rt_env : option Env;
  rt_settings : option (list obj);
  rt_apply : option ApplyFn
}.

Record ProtectedResource := {
  res_name : option string;
  res_type : option string;
  res_locator : option string;
  res_defaultSetting : option string;
  res_params : option obj;
  res_id : option string
}.

Record PolicyResourceConfig := {
  prc_resource : option string;
  prc_setting : option string;
  prc_params : option obj
}.

Record PolicySettingConfig := {
  ps_setting : option string;
  ps_notes : option string;
  ps_condition : option string;
  ps_params : option obj;
  ps_protectedResources : option (list PolicyResourceConfig)
}.

Record Policy := {
  pol_name : option string;
  pol_description : option string;
  pol_defaultSetting : option string;
  pol_settings : option (list PolicySettingConfig)
}.

(** A member of a condition factory object: a predicate, or some other
    value (the [factory] name itself is such a property). *)
Inductive Member :=
| MFn (f : ConditionFn)
| MVal (v : jsval).

Record ConditionFactory := {
  cf_factory : option string;
  cf_members : list (string * Member)
}.

(** ** Users and roles (external collaborators, section 6) *)

Record User := {
  user_id : option string;
  user_tenantId : option string;
  user_display : option string;
  user_permissionRoleCode : option string;
  (** the value returned by [user.isTenantAdmin()], [None] when the user
      object has no such method *)
  user_isTenantAdmin : option jsval
}.

(** A role setting is a bare label or an object [{value, params}]. *)
Inductive RoleSetting :=
| RoleLabel (s : string)
| RoleObject (value : option string) (params : option obj).

Record RolePolicy := {
  rp_name : option string;
  rp_settings : list RoleSetting
}.

Record Role := {
  role_description : option string;
  role_policies : list RolePolicy
}.

(** The object handed to [load]. *)
Record SecurityConfiguration := {
  cfg_resourceTypes : option (list ResourceType);
  cfg_dictionary : option (list ProtectedResource);
  cfg_policies : option (list Policy);
  cfg_conditionFactories : option (list ConditionFactory);
  cfg_defaultRole : option string;
  cfg_findRoleByUser : User → Promise (option Role);
  cfg_findRole : string → Promise (option Role)
}.

(** What [load] of the definition service returns: the values of its four
    module-level variables. *)
Record Snapshot := {
  snap_conditionFactories : option (list ConditionFactory);
  snap_dictionary : list ProtectedResource;
  snap_resourceTypes : list ResourceType;
  snap_policies : list Policy
}.

(** ** The runtime the engine runs on *)

(** Library functions whose result depends on what the typed records do not
    carry (property order, extra properties, the engine's wording of a
    [TypeError], random identifiers), and the relational operator [>], which
    the engine applies to priorities: on two numbers it is the numeric
    order. *)
Class JsRuntime := {
  js_gt : jsval → jsval → bool;
  js_gt_num : ∀ a b : Z, js_gt (JNum a) (JNum b) = bool_decide (b < a)%Z;
  stringify_resourceType : ResourceType → string;
  stringify_protectedResource : ProtectedResource → string;
  stringify_policySetting : PolicySettingConfig → string;
  stringify_roleSetting : RoleSetting → string;
  stringify_policies : option (list Policy) → option string;
  (** message of the [TypeError] raised by the named faulty access *)
  type_error : string → string;
  toUpperCase : string → string;
  UUID_generate : nat → string
}.

(** ** Events that leave the engine *)

Inductive LogLevel := Debug | Info | Warn | LogError | Fatal.

Inductive Event :=
| EvLog (level : LogLevel) (text : string) (args : list (option string))
| EvFindRoleByUser (u : User)
| EvFindRole (roleName : string)
| EvCondition (condition : option string) (params : option obj) (contextParams : ContextParams)
| EvApply (target : option string) (setting : obj) (contextParams : ContextParams).

(** ** Module-level state *)

Record World := {
  (** [let dictionary, resourceTypes, policies, conditionFactories]
      of security-definition.service.js.  The three arrays are assigned a
      fresh [[]] before anything reads them; the empty list stands for their
      initial [undefined]. *)
  dictionary : list ProtectedResource;
  resourceTypes : list ResourceType;
  policies : list Policy;
  conditionFactories : option (list ConditionFactory);
  (** [let findRole, systemSecurityData] of security.service.js; [findRole]
      is a closure over the configuration it was built from. *)
  findRole : option SecurityConfiguration;
  systemSecurityData : option Snapshot;
  (** number of identifiers drawn from [UUID.generate], and [Date.now()] *)
  uuids : nat;
  clock : Z;
  (** log lines and host calls, oldest first *)
  trace : list Event
}.

Definition set_dictionary (d : list ProtectedResource) (w : World) : World :=
  {| dictionary := d; resourceTypes := resourceTypes w; policies := policies w;
     conditionFactories := conditionFactories w; findRole := findRole w;
     systemSecurityData := systemSecurityData w; uuids := uuids w;
     clock := clock w; trace := trace w |}.

Definition set_resourceTypes (r : list ResourceType) (w : World) : World :=
  {| dictionary := dictionary w; resourceTypes := r; policies := policies w;
     conditionFactories := conditionFactories w; findRole := findRole w;
     systemSecurityData := systemSecurityData w; uuids := uuids w;
     clock := clock w; trace := trace w |}.

Definition set_policies (p : list Policy) (w : World) : World :=
  {| dictionary := dictionary w; resourceTypes := resourceTypes w; policies := p;
     conditionFactories := conditionFactories w; findRole := findRole w;
     systemSecurityData := systemSecurityData w; uuids := uuids w;
     clock := clock w; trace := trace w |}.

Definition set_conditionFactories (c : option (list ConditionFactory)) (w : World) : World :=
  {| dictionary := dictionary w; resourceTypes := resourceTypes w; policies := policies w;
     conditionFactories := c; findRole := findRole w;
     systemSecurityData := systemSecurityData w; uuids := uuids w;
     clock := clock w; trace := trace w |}.

Definition set_findRole (f : option SecurityConfiguration) (w : World) : World :=
  {| dictionary := dictionary w; resourceTypes := resourceTypes w; policies := policies w;
     conditionFactories := conditionFactories w; findRole := f;
     systemSecurityData := systemSecurityData w; uuids := uuids w;
     clock := clock w; trace := trace w |}.

Definition set_systemSecurityData (s : option Snapshot) (w : World) : World :=
  {| dictionary := dictionary w; resourceTypes := resourceTypes w; policies := policies w;
     conditionFactories := conditionFactories w; findRole := findRole w;
     systemSecurityData := s; uuids := uuids w;
     clock := clock w; trace := trace w |}.

Definition set_uuids (n : nat) (w : World) : World :=
  {| dictionary := dictionary w; resourceTypes := resourceTypes w; policies := policies w;
     conditionFactories := conditionFactories w; findRole := findRole w;
     systemSecurityData := systemSecurityData w; uuids := n;
     clock := clock w; trace := trace w |}.

Definition set_trace (t : list Event) (w : World) : World :=
  {| dictionary := dictionary w; resourceTypes := resourceTypes w; policies := policies w;
     conditionFactories := conditionFactories w; findRole := findRole w;
     systemSecurityData := systemSecurityData w; uuids := uuids w;
     clock := clock w; trace := t |}.

(** ** The state-and-exception monad *)

Definition M (A : Type) : Type := World → World * Completion A.

Definition ret {A} (a : A) : M A := λ w, (w, Ok a).

Definition bind {A B} (m : M A) (k : A → M B) : M B :=
  λ w, match m w with
       | (w', Ok a) => k a w'
       | (w', Throw e) => (w', Throw e)
       end.

Definition throw {A} (e : Exn) : M A := λ w, (w, Throw e).

(** [try { m } catch (e) { h e }]: what [m] did to the state stays done. *)
Definition try_catch {A} (m : M A) (h : Exn → M A) : M A :=
  λ w, match m w with
       | (w', Ok a) => (w', Ok a)
       | (w', Throw e) => h e w'
       end.

Definition get : M World := λ w, (w, Ok w).
Definition modify (f : World → World) : M unit := λ w, (f w, Ok tt).

Declare Scope m_scope.
Delimit Scope m_scope with M.
Notation "x <- c1 ;; c2" := (bind c1 (λ x, c2))
  (at level 100, c1 at next level, right associativity) : m_scope.
Notation "c1 ;;; c2" := (bind c1 (λ _, c2))
  (at level 100, right associativity) : m_scope.
Open Scope m_scope.

(** [assert(value, message)] of Node's [assert] module. *)
Definition assert (value : bool) (msg : string) : M unit :=
  if value then ret tt else throw (Error msg).

Definition emit (e : Event) : M unit :=
  modify (λ w, set_trace (trace w ++ [e]) w).

Definition log (level : LogLevel) (text : string) (args : list (option string)) : M unit :=
  emit (EvLog level text args).

(** [list.forEach(f)], with the index as [_.forEach] passes it. *)
Fixpoint forEach_from {A} (i : nat) (l : list A) (f : A → nat → M unit) : M unit :=
  match l with
  | [] => ret tt
  | x :: l' => f x i ;;; forEach_from (S i) l' f
  end.

Definition forEach {A} (l : list A) (f : A → M unit) : M unit :=
  forEach_from 0 l (λ x _, f x).

(** A loop that carries a local variable. *)
Fixpoint foldM {A S} (f : S → A → M S) (s : S) (l : list A) : M S :=
  match l with
  | [] => ret s
  | x :: l' => s' <- f s x ;; foldM f s' l'
  end.

(** [_.find(list, {key: value})] on a string-valued property: the property
    must be present and strictly equal. *)
Definition matches (field key : option string) : bool :=
  match field, key with
  | Some a, Some b => String.eqb a b
  | _, _ => false
  end.

(** [list.map(f)] for an [f] that may throw. *)
Fixpoint mapM {A B} (f : A → M B) (l : list A) : M (list B) :=
  match l with
  | [] => ret []
  | x :: l' => y <- f x ;; ys <- mapM f l' ;; ret (y :: ys)
  end.

(** [_.find(settings, {value: setting})] on a list of setting definitions. *)
Definition find_by_value (settings : option (list obj)) (setting : option string) : option obj :=
  List.find
    (λ o, bool_decide (o !! "value" = Some (from_option JStr JUndefined setting)))
    (default [] settings).

(** ['' + v] for an element of an array that is joined into a message:
    [undefined] and [null] elements print as nothing. *)
Definition show_element (v : jsval) : string :=
  match v with
  | JUndefined | JNull => ""
  | JBool true => "true"
  | JBool false => "false"
  | JNum n => pretty n
  | JStr s => s
  | JRef _ => "[object Object]"
  end.

(** ['' + _.map(settings, 'value')] *)
Definition show_values (settings : option (list obj)) : string :=
  String.concat "," (List.map (λ o, show_element (prop o "value")) (default [] settings)).

(** * security-definition.service.js *)

Module SecurityDefinition.
Section Definition_.
Context `{JsRuntime}.

(** ** Lookups attached to the arrays

    [resourceTypes.find], [resourceTypes.findSetting],
    [conditionFactories.find] and [dictionary.findProtectedResourceByName] are
    closures over the module-level variables: whichever array they are called
    through, they search the array the variable holds when they run. *)

Definition findResourceType (type : option string) : M ResourceType :=
  w <- get ;;
  match List.find (λ d, matches (rt_name d) type) (resourceTypes w) with
  | Some definition => ret definition
  | None => throw (Error ("Undefined resource type [" +:+ show_str type +:+ "]."))
  end.

Definition findSetting (typeName setting : option string) : M (option obj) :=
  definition <- findResourceType typeName ;;
  ret (find_by_value (rt_settings definition) setting).

Definition findConditionFactory (factoryName : string) : M ConditionFactory :=
  w <- get ;;
  match List.find (λ f, matches (cf_factory f) (Some factoryName))
                  (default [] (conditionFactories w)) with
  | Some factory => ret factory
  | None => throw (Error ("Undefined condition factory [" +:+ factoryName +:+
                          "]. Check your security config."))
  end.

Definition findProtectedResourceByName (name : option string) : M (option ProtectedResource) :=
  w <- get ;;
  ret (List.find (λ r, matches (res_name r) name) (dictionary w)).

(** ** Resource types *)

Definition addResourceType (resourceType : ResourceType) : M unit :=
  assert (truthy_str (rt_name resourceType)) "name property is required" ;;;
  log Debug "Add resource type %b" [rt_name resourceType] ;;;
  w <- get ;;
  assert (negb (bool_decide (is_Some
            (List.find (λ d, matches (rt_name d) (rt_name resourceType)) (resourceTypes w)))))
         "Duplicated resource type" ;;;
  match rt_env resourceType with
  | Some env =>
      assert (env_truthy env) "env property is required" ;;;
      (if env_has env "server"
       then assert (bool_decide (is_Some (rt_apply resourceType)))
                   "Apply function is required in server protected resource type"
       else ret tt) ;;;
      modify (λ w, set_resourceTypes (resourceTypes w ++ [resourceType]) w)
  | None => throw (Error "env property is required")
  end.

Definition initializeResourceTypes (resourceTypeList : option (list ResourceType))
    (conditionFactoryList : option (list ConditionFactory)) : M unit :=
  modify (set_conditionFactories conditionFactoryList) ;;;
  match conditionFactoryList with
  | Some _ => ret tt
  | None => throw (Error (type_error "conditionFactories.find"))
  end ;;;
  modify (set_resourceTypes []) ;;;
  forEach_from 0 (default [] resourceTypeList) (λ resourceType typeName,
    try_catch (addResourceType resourceType)
      (λ e, throw (append_message e
         (" - invalid resource type [" +:+ pretty typeName +:+ "]: " +:+
          stringify_resourceType resourceType)))).

(** ** Dictionary *)

Definition addResourceToDictionary (protectedResource : ProtectedResource) : M unit :=
  assert (truthy_str (res_name protectedResource)) "Name is required" ;;;
  log Debug "Add resource %b to dictionary" [res_name protectedResource] ;;;
  assert (truthy_str (res_type protectedResource)) "type is required" ;;;
  assert (truthy_str (res_locator protectedResource)) "locator is required" ;;;
  assert (truthy_str (res_defaultSetting protectedResource)) "defaultSetting is required" ;;;
  resourceType <- findResourceType (res_type protectedResource) ;;
  (* [assert(resourceType, 'Provided type is unknown')]: a found definition
     is an object, the assertion cannot fail *)
  settingObj <- findSetting (rt_name resourceType) (res_defaultSetting protectedResource) ;;
  assert (bool_decide (is_Some settingObj))
         ("defaultSetting [" +:+ show_str (res_defaultSetting protectedResource) +:+
          "] is unknown to type [" +:+ show_str (res_type protectedResource) +:+ "]") ;;;
  w <- get ;;
  assert (negb (bool_decide (is_Some
            (List.find (λ r, matches (res_name r) (res_name protectedResource)) (dictionary w)))))
         ("Duplicated protected resource [" +:+ show_str (res_name protectedResource) +:+ "]") ;;;
  modify (λ w,
    set_uuids (S (uuids w))
      (set_dictionary
         (dictionary w ++
          [ {| res_name := res_name protectedResource;
               res_type := res_type protectedResource;
               res_locator := res_locator protectedResource;
               res_defaultSetting := res_defaultSetting protectedResource;
               res_params := res_params protectedResource;
               res_id := Some (UUID_generate (uuids w)) |} ]) w)).

Definition initializeDictionary (protectedResources : option (list ProtectedResource)) : M unit :=
  modify (set_dictionary []) ;;;
  match protectedResources with
  | None => throw (Error (type_error "protectedResources.forEach"))
  | Some protectedResources =>
      forEach protectedResources (λ protectedResource,
        try_catch (addResourceToDictionary protectedResource)
          (λ e, throw (append_message e
             (" - invalid protected resource in dictionary: " +:+
              stringify_protectedResource protectedResource))))
  end.

(** ** Policies *)

Definition checkPolicyProtectedResource (config : PolicyResourceConfig) : M unit :=
  protectedResource <- findProtectedResourceByName (prc_resource config) ;;
  match protectedResource with
  | None =>
      throw (Error ("Resource [" +:+ show_str (prc_resource config) +:+
                    "] is not defined in the dictionary"))
  | Some protectedResource =>
      assert (truthy_str (prc_setting config)) "Setting is required" ;;;
      resourceType <- findResourceType (res_type protectedResource) ;;
      settingObj <- findSetting (res_type protectedResource) (prc_setting config) ;;
      assert (bool_decide (is_Some settingObj))
             ("Resource [" +:+ show_str (prc_resource config) +:+
              "] uses an undefined setting [" +:+ show_str (prc_setting config) +:+
              "]. Allowed values by its type [" +:+ show_str (rt_name resourceType) +:+
              "] are [" +:+ show_values (rt_settings resourceType) +:+ "]")
  end.

(** [checkPolicySetting] writes [config.protectedResources = []] into the
    setting it checks when the property is missing; the checked setting is
    returned here so that the stored policy carries the change. *)
Definition checkPolicySetting (config : PolicySettingConfig) : M PolicySettingConfig :=
  assert (truthy_str (ps_setting config)) "setting is required in policy settings" ;;;
  match ps_protectedResources config with
  | None =>
      ret {| ps_setting := ps_setting config; ps_notes := ps_notes config;
             ps_condition := ps_condition config; ps_params := ps_params config;
             ps_protectedResources := Some [] |}
  | Some protectedResources =>
      forEach protectedResources (λ config,
        try_catch (checkPolicyProtectedResource config)
          (λ e, throw (append_message e
             (" - invalid protected resource [" +:+ show_str (prc_resource config) +:+ "]")))) ;;;
      ret config
  end.

Definition addPolicy (policy : Policy) : M unit :=
  assert (truthy_str (pol_name policy)) "Name is required" ;;;
  log Debug "Add policy %b" [pol_name policy] ;;;
  match pol_settings policy with
  | None => throw (Error "Settings is required")
  | Some settings =>
      w <- get ;;
      assert (negb (bool_decide (is_Some
                (List.find (λ p, matches (pol_name p) (pol_name policy)) (policies w)))))
             ("Duplicated policy [" +:+ show_str (pol_name policy) +:+ "]") ;;;
      settings' <- mapM (λ config,
        try_catch (checkPolicySetting config)
          (λ e, throw (append_message e
             (" - invalid policy setting: " +:+ stringify_policySetting config))))
        settings ;;
      (if truthy_str (pol_defaultSetting policy)
       then assert (bool_decide (is_Some
                      (List.find (λ s, matches (ps_setting s) (pol_defaultSetting policy))
                                 settings')))
                   ("defaultSetting [" +:+ show_str (pol_defaultSetting policy) +:+
                    "] is incorrect")
       else ret tt) ;;;
      modify (λ w,
        set_policies
          (policies w ++
           [ {| pol_name := pol_name policy; pol_description := pol_description policy;
                pol_defaultSetting := pol_defaultSetting policy;
                pol_settings := Some settings' |} ]) w)
  end.

Definition initializePolicies (policyList : option (list Policy)) : M unit :=
  modify (set_policies []) ;;;
  match policyList with
  | None => throw (Error (type_error "policyList.forEach"))
  | Some policyList =>
      forEach policyList (λ policy,
        try_catch (addPolicy policy)
          (λ e, throw (append_message e
             (" - invalid policy [" +:+ show_str (pol_name policy) +:+ "]"))))
  end.

(** ** load *)

Definition generic_error : string := "Invalid Application Security Configuration".

(** The body of the [try] block. *)
Definition integrity_check (security : SecurityConfiguration) : M Snapshot :=
  log Info "Checking security policy data integrity..." [] ;;;
  initializeResourceTypes (cfg_resourceTypes security) (cfg_conditionFactories security) ;;;
  initializeDictionary (cfg_dictionary security) ;;;
  initializePolicies (cfg_policies security) ;;;
  log Info "Security policy data integrity PASSED." [] ;;;
  w <- get ;;
  ret {| snap_conditionFactories := conditionFactories w;
         snap_dictionary := dictionary w;
         snap_resourceTypes := resourceTypes w;
         snap_policies := policies w |}.

Definition load (security : SecurityConfiguration) : M Snapshot :=
  try_catch (integrity_check security)
    (λ e,
       log Fatal "Security policy data integrity FAILED." [] ;;;
       log LogError (show_str (message e)) [] ;;;
       throw (Error generic_error)).

End Definition_.
End SecurityDefinition.

(** * user-policy.model.js *)

(** The security data a [UserPolicy] is compiled from. *)
Record SecurityData := {
  sd_id : Z;
  sd_revision : Z;
  sd_userId : option string;
  sd_display : option string;
  sd_policies : option (list Policy);
  sd_dictionary : option (list ProtectedResource);
  sd_resourceTypes : option (list ResourceType)
}.

Module UserPolicy.

(** What a resource type factory returns. *)
Record Implementation := {
  impl_target : option string;
  impl_apply : option ApplyFn
}.

(** The two closures [getPolicyConditionImplementation] can return, with what
    they capture. *)
Inductive CheckIfEnabled :=
| AlwaysEnabled
| ConditionCall (conditionFn : Member) (policySetting : PolicySettingConfig).

(** A policy setting after [addProtectedResourcePreferences] copied it and
    added [checkIfEnabled] and [policy]. *)
Record PolicySetting := {
  cps_config : PolicySettingConfig;
  cps_checkIfEnabled : CheckIfEnabled;
  cps_policy : Policy
}.

(** A dictionary entry after [buildProtectedResources] replaced its type name
    by the type and its default setting name by the setting object. *)
Record Resource := {
  r_name : option string;
  r_locator : option string;
  r_params : option obj;
  r_id : option string;
  r_type : ResourceType;
  r_defaultSetting : obj
}.

(** An element of [protectedResource.settings]. *)
Record ResourceConfig := {
  rc_policySetting : PolicySetting;
  rc_resource : Resource;
  rc_setting : obj;
  rc_params : option obj
}.

(** The object built by [buildProtectedResourceObject]; its method
    [calculateSetting] is [computeResourceSetting] applied to the object. *)
Record ProtectedResourceObject := {
  pro_resource : Resource;
  pro_settings : list ResourceConfig;
  pro_apply : option ApplyFn;
  pro_target : option string
}.

(** [resourceMap]: an object used as a map from resource names to protected
    resources, listed in insertion order (names are not array indices). *)
Definition ResourceMap := list (string * ProtectedResourceObject).

Fixpoint map_set (k : string) (v : ProtectedResourceObject) (m : ResourceMap) : ResourceMap :=
  match m with
  | [] => [(k, v)]
  | (k', v') :: m' => if String.eqb k' k then (k, v) :: m' else (k', v') :: map_set k v m'
  end.

Fixpoint map_get (k : string) (m : ResourceMap) : option ProtectedResourceObject :=
  match m with
  | [] => None
  | (k', v') :: m' => if String.eqb k' k then Some v' else map_get k m'
  end.

Definition push_setting (resourceConfig : ResourceConfig) (p : ProtectedResourceObject)
  : ProtectedResourceObject :=
  {| pro_resource := pro_resource p;
     pro_settings := pro_settings p ++ [resourceConfig];
     pro_apply := pro_apply p;
     pro_target := pro_target p |}.

Section UserPolicy_.
Context `{JsRuntime}.
Variable getPolicyConditionFactory : string → M ConditionFactory.
Variable getResourceTypeFactory : ResourceType → M Implementation.

(** [conditionGroup[conditionName]] on the own properties of a factory. *)
Definition member (conditionGroup : ConditionFactory) (conditionName : string) : option Member :=
  if String.eqb conditionName "factory"
  then (λ n, MVal (JStr n)) <$> cf_factory conditionGroup
  else snd <$> List.find (λ kv, String.eqb (fst kv) conditionName) (cf_members conditionGroup).

Definition member_truthy (m : option Member) : bool :=
  match m with
  | Some (MFn _) => true
  | Some (MVal v) => truthy v
  | None => false
  end.

(** Running the closure stored in [policySetting.checkIfEnabled]. *)
Definition checkIfEnabled (c : CheckIfEnabled) (contextParams : ContextParams) : M jsval :=
  match c with
  | AlwaysEnabled => ret (JBool true)
  | ConditionCall conditionFn policySetting =>
      try_catch
        match conditionFn with
        | MFn f =>
            emit (EvCondition (ps_condition policySetting) (ps_params policySetting) contextParams) ;;;
            match f (ps_params policySetting) contextParams with
            | Ok v => ret v
            | Throw e => throw e
            end
        | MVal _ => throw (Error (type_error "conditionFn"))
        end
        (λ e, throw (append_message e
           " - make sure the context param object is passed when calling the protected resource apply method"))
  end.

Definition getPolicyConditionImplementation (policySetting : PolicySettingConfig) : M CheckIfEnabled :=
  (* if there is a policy with no condition, so it is enabled. *)
  if negb (truthy_str (ps_condition policySetting)) then ret AlwaysEnabled
  else
    let condition := default "" (ps_condition policySetting) in
    try_catch
      match String.index 0 "." condition with
      | None => throw (Error "No security name defined")
      | Some period =>
          let factoryName := String.substring 0 period condition in
          conditionGroup <- getPolicyConditionFactory factoryName ;;
          let conditionName :=
            String.substring (period + 1) (String.length condition - (period + 1)) condition in
          let conditionFn := member conditionGroup conditionName in
          match conditionFn with
          | Some fn =>
              if member_truthy conditionFn then ret (ConditionCall fn policySetting)
              else throw (Error ("No condition implementation [" +:+ conditionName +:+
                                 "] in [" +:+ factoryName +:+ "]"))
          | None => throw (Error ("No condition implementation [" +:+ conditionName +:+
                                  "] in [" +:+ factoryName +:+ "]"))
          end
      end
      (λ e, throw (append_message e
         ("- Unknown security condition [" +:+ condition +:+ "] for policy setting [" +:+
          show_str (ps_setting policySetting) +:+ "]"))).

Definition getResourceImplementation (resourceType : ResourceType) : M Implementation :=
  try_catch (getResourceTypeFactory resourceType)
    (λ e, throw (append_message e
       " - Unknown policy implementation for resource type [[object Object]]")).

(** [buildResourceSettingObject(resource, setting, params)], given
    [resource.type]. *)
Definition buildResourceSettingObject (type : ResourceType) (setting : option string)
    (params : option obj) : obj :=
  let settingObject := find_by_value (rt_settings type) setting in
  assign params settingObject.

Definition buildProtectedResourceObject (resource : Resource) : M ProtectedResourceObject :=
  implementation <- getResourceImplementation (r_type resource) ;;
  ret {| pro_resource := resource;
         pro_settings := [];
         pro_apply := impl_apply implementation;
         pro_target := impl_target implementation |}.

Definition buildProtectedResources (dictionary : list ProtectedResource)
    (resourceTypes : list ResourceType) : M ResourceMap :=
  foldM (λ resourceMap resourceData,
    match List.find (λ t, matches (rt_name t) (res_type resourceData)) resourceTypes with
    | None => throw (Error (type_error "resource.type.settings"))
    | Some type =>
        let resource :=
          {| r_name := res_name resourceData;
             r_locator := res_locator resourceData;
             r_params := res_params resourceData;
             r_id := res_id resourceData;
             r_type := type;
             r_defaultSetting :=
               buildResourceSettingObject type (res_defaultSetting resourceData)
                                          (res_params resourceData) |} in
        protectedResource <- buildProtectedResourceObject resource ;;
        ret (map_set (show_str (r_name resource)) protectedResource resourceMap)
    end) [] dictionary.

Definition addPolicyResourceSettingToProtectedResource
    (policyResourceConfig : PolicyResourceConfig)
    (protectedResource : option ProtectedResourceObject)
    (policySetting : PolicySetting) (protectedResources : ResourceMap) : M ResourceMap :=
  match protectedResource with
  | None => throw (Error ("Resource [" +:+ show_str (prc_resource policyResourceConfig) +:+
                          "] does not exist in dictionary"))
  | Some protectedResource =>
      let resourceConfig :=
        {| rc_policySetting := policySetting;
           rc_resource := pro_resource protectedResource;
           rc_setting :=
             buildResourceSettingObject (r_type (pro_resource protectedResource))
               (prc_setting policyResourceConfig) (prc_params policyResourceConfig);
           rc_params := prc_params policyResourceConfig |} in
      ret (map_set (show_str (prc_resource policyResourceConfig))
                   (push_setting resourceConfig protectedResource) protectedResources)
  end.

Definition addProtectedResourcePreferences (policies : list Policy)
    (protectedResources : ResourceMap) : M ResourceMap :=
  foldM (λ protectedResources policy,
    match pol_settings policy with
    | None => throw (Error (type_error "policy.settings.forEach"))
    | Some settings =>
        foldM (λ protectedResources policySettingConfig,
          checkIfEnabled <- getPolicyConditionImplementation policySettingConfig ;;
          let policySetting :=
            {| cps_config := policySettingConfig;
               cps_checkIfEnabled := checkIfEnabled;
               cps_policy := policy |} in
          match ps_protectedResources policySettingConfig with
          | None => throw (Error (type_error "policySetting.protectedResources.forEach"))
          | Some grants =>
              foldM (λ protectedResources policyResourceConfig,
                try_catch
                  (addPolicyResourceSettingToProtectedResource policyResourceConfig
                     (map_get (show_str (prc_resource policyResourceConfig)) protectedResources)
                     policySetting protectedResources)
                  (λ e, throw (append_message e
                     (" - Issue in with policy setting [" +:+
                      show_str (ps_setting policySettingConfig) +:+ "]"))))
                protectedResources grants
          end) protectedResources settings
    end) protectedResources policies.

Definition compileSecurityData (securityData : SecurityData) : M (list ProtectedResourceObject) :=
  protectedResourceMap <- buildProtectedResources
                            (default [] (sd_dictionary securityData))
                            (default [] (sd_resourceTypes securityData)) ;;
  protectedResourceMap <- addProtectedResourcePreferences
                            (default [] (sd_policies securityData))
                            protectedResourceMap ;;
  ret (List.map snd protectedResourceMap).

(** The local [logs] array of the source is filled and dropped; only
    [finalSetting] is carried through the loop.  [protectedResource.settings]
    is always an array, so the loop always runs. *)
Definition computeResourceSetting (protectedResource : ProtectedResourceObject)
    (contextParams : ContextParams) : M obj :=
  finalSetting <- foldM (λ (finalSetting : option obj) resourceConfig,
      enabled <- checkIfEnabled (cps_checkIfEnabled (rc_policySetting resourceConfig))
                                contextParams ;;
      let setting := if truthy enabled then Some (rc_setting resourceConfig) else None in
      (* if the policy condition is valid, we get setting for this protected element *)
      match setting, finalSetting with
      | Some setting, None => ret (Some setting)
      | Some setting, Some final =>
          if js_gt (prop final "priority") (prop setting "priority")
          then ret (Some setting) else ret (Some final)
      | None, _ => ret finalSetting
      end) None (pro_settings protectedResource) ;;
  (* if there is no setting set by any policy, the default setting is the one
     in the dictionary. *)
  match finalSetting with
  | None => ret (r_defaultSetting (pro_resource protectedResource))
  | Some finalSetting => ret finalSetting
  end.

Definition calculateSetting := computeResourceSetting.

(** The object [new UserPolicy(...)] is its compiled list. *)
Definition UserPolicy (securityData : SecurityData) : M (list ProtectedResourceObject) :=
  compileSecurityData securityData.

Definition getProtectedResourcesByTarget (protectedResourceList : list ProtectedResourceObject)
    (groupName : option string) : list ProtectedResourceObject :=
  List.filter (λ r, matches (pro_target r) groupName) protectedResourceList.

Definition getProtectedResourceByLocator (protectedResourceList : list ProtectedResourceObject)
    (locator : option string) : M ProtectedResourceObject :=
  match List.find (λ r, bool_decide (r_locator (pro_resource r) = locator))
                  protectedResourceList with
  | Some protectedResource => ret protectedResource
  | None => throw (Error ("Protected resource [" +:+ show_str locator +:+ "] undefined"))
  end.

End UserPolicy_.
End UserPolicy.

(** * security.service.js *)

(** [p.then(f)]: a callback that throws rejects the resulting promise. *)
Definition then_ {A B} (p : M (Promise A)) (f : A → M (Promise B)) : M (Promise B) :=
  r <- p ;;
  match r with
  | Resolved a => try_catch (f a) (λ e, ret (Rejected e))
  | Rejected e => ret (Rejected e)
  end.

(** [p.catch(h)] *)
Definition catch_ {A} (p : M (Promise A)) (h : Exn → M (Promise A)) : M (Promise A) :=
  r <- p ;;
  match r with
  | Resolved a => ret (Resolved a)
  | Rejected e => try_catch (h e) (λ e, ret (Rejected e))
  end.

(** [_.filter(list, predicate)] for a predicate that may throw. *)
Fixpoint filterM {A} (f : A → M bool) (l : list A) : M (list A) :=
  match l with
  | [] => ret []
  | x :: l' =>
      keep <- f x ;;
      rest <- filterM f l' ;;
      ret (if keep then x :: rest else rest)
  end.

Module SecurityService.

(** The [user] argument of [applyResourcePolicy]: a user object, or any other
    value ([undefined], [null], ...). *)
Inductive UserArg :=
| UserValue (v : jsval)
| UserObject (u : User).

Definition user_truthy (user : UserArg) : bool :=
  match user with
  | UserValue v => truthy v
  | UserObject _ => true
  end.

(** The array built by [generateRolePolicies]; [Promise.resolve([])] of
    [findUserPolicyData] is the empty array, without description. *)
Record UserPolicies := {
  ups_description : option string;
  ups_list : list Policy
}.

(** The object built by [generateUserSecurityDataByEnvironment]. *)
Record UserSecurityData := {
  usd_policies : option (list Policy);
  usd_dictionary : option (list ProtectedResource);
  usd_resourceTypes : option (list ResourceType);
  usd_env : string;
  usd_user : User;
  usd_description : option string
}.

(** What the promise of [applyResourcePolicy] resolves with. *)
Record PolicyResult := {
  result : jsval;
  isSetting : option string → M bool
}.

Section Service.
Context `{JsRuntime}.

Definition load (securityConfiguration : SecurityConfiguration) : M unit :=
  if negb (truthy_str (cfg_defaultRole securityConfiguration))
  then throw (Error "No default role provided to initialize system security")
  else
    (* [findRole] and the exported [findUserByTenantIdAndId] are both taken
       from the configuration stored here *)
    modify (set_findRole (Some securityConfiguration)) ;;;
    snapshot <- SecurityDefinition.load securityConfiguration ;;
    modify (set_systemSecurityData (Some snapshot)).

(** Calling the closure held by the module-level [findRole]. *)
Definition call_findRole (user : User) : M (Promise (option Role)) :=
  w <- get ;;
  match findRole w with
  | None => throw (Error (type_error "findRole"))
  | Some securityConfiguration =>
      then_ (emit (EvFindRoleByUser user) ;;;
             ret (cfg_findRoleByUser securityConfiguration user))
        (λ policyRole,
           match policyRole with
           | None =>
               log Info (show_str (user_display user) +:+
                         ": No defined role. Using configured default role:" +:+
                         show_str (cfg_defaultRole securityConfiguration)) [] ;;;
               emit (EvFindRole (default "" (cfg_defaultRole securityConfiguration))) ;;;
               ret (cfg_findRole securityConfiguration
                      (default "" (cfg_defaultRole securityConfiguration)))
           | Some policyRole => ret (Resolved (Some policyRole))
           end)
  end.

Definition getSystemSecurityConfiguration : M Snapshot :=
  w <- get ;;
  match systemSecurityData w with
  | None => throw (Error "System security not initialized")
  | Some systemSecurityData => ret systemSecurityData
  end.

(** Reading a property of [systemSecurityData]. *)
Definition systemSecurityData_ (property : string) : M Snapshot :=
  w <- get ;;
  match systemSecurityData w with
  | None => throw (Error (type_error ("systemSecurityData." +:+ property)))
  | Some systemSecurityData => ret systemSecurityData
  end.

Definition getPolicyConditionFactory (factoryName : string) : M ConditionFactory :=
  systemSecurityData <- systemSecurityData_ "conditionFactories" ;;
  match snap_conditionFactories systemSecurityData with
  | None => throw (Error (type_error "systemSecurityData.conditionFactories.find"))
  | Some _ => SecurityDefinition.findConditionFactory factoryName
  end.

Definition getResourceTypeFactory (resourceType : ResourceType) : M UserPolicy.Implementation :=
  ret {| UserPolicy.impl_target := rt_name resourceType;
         UserPolicy.impl_apply := rt_apply resourceType |}.

(** [systemSecurityData.resourceTypes.find(type).env.indexOf(env) !== -1] *)
Definition type_in_environment (type : option string) (env : string) : M bool :=
  systemSecurityData_ "resourceTypes" ;;;
  definition <- SecurityDefinition.findResourceType type ;;
  match rt_env definition with
  | None => throw (Error (type_error "env.indexOf"))
  | Some e => ret (env_has e env)
  end.

Definition filterPolicyContentByEnvironment (userPolicies : list Policy) (environment : string)
  : M (list Policy) :=
  foldM (λ filteredPolicies policy,
    match pol_settings policy with
    | None => throw (Error (type_error "policy.settings.forEach"))
    | Some settings =>
        (* keep in the policy what belongs to the environment *)
        filteredPolicySettings <- foldM (λ filteredPolicySettings policySetting,
            filteredProtectedResources <- filterM (λ protectedResource,
                systemSecurityData_ "dictionary" ;;;
                resource <- SecurityDefinition.findProtectedResourceByName
                              (prc_resource protectedResource) ;;
                match resource with
                | None => throw (Error (type_error "resource.type"))
                | Some resource => type_in_environment (res_type resource) environment
                end)
              (default [] (ps_protectedResources policySetting)) ;;
            if (0 <? length filteredProtectedResources)%nat
            then ret (filteredPolicySettings ++
                      [ {| ps_setting := ps_setting policySetting;
                           ps_notes := ps_notes policySetting;
                           ps_condition := ps_condition policySetting;
                           ps_params := ps_params policySetting;
                           ps_protectedResources := Some filteredProtectedResources |} ])
            else ret filteredPolicySettings)
          [] settings ;;
        if (0 <? length filteredPolicySettings)%nat
        then ret (filteredPolicies ++
                  [ {| pol_name := pol_name policy;
                       pol_description := pol_description policy;
                       pol_defaultSetting := pol_defaultSetting policy;
                       pol_settings := Some filteredPolicySettings |} ])
        else ret filteredPolicies
    end) [] userPolicies.

(** [!user.permissionRoleCode || user.isTenantAdmin()] *)
Definition security_deactivated (user : User) : M bool :=
  if negb (truthy_str (user_permissionRoleCode user)) then ret true
  else match user_isTenantAdmin user with
       | None => throw (Error (type_error "user.isTenantAdmin"))
       | Some v => ret (truthy v)
       end.

Definition generateUserSecurityDataByEnvironment (user : User) (userPolicies : UserPolicies)
    (env : string) : M UserSecurityData :=
  deactivated <- security_deactivated user ;;
  if deactivated then
    ret {| usd_policies := None; usd_dictionary := None; usd_resourceTypes := None;
           usd_env := env; usd_user := user;
           usd_description := Some "Admin - Full access" |}
  else
    filteredPolicies <- filterPolicyContentByEnvironment (ups_list userPolicies) env ;;
    systemSecurityData <- systemSecurityData_ "dictionary" ;;
    filteredDictionary <- filterM (λ resource, type_in_environment (res_type resource) env)
                            (snap_dictionary systemSecurityData) ;;
    systemSecurityData <- systemSecurityData_ "resourceTypes" ;;
    filteredResourceTypes <- filterM (λ type,
        match rt_env type with
        | None => throw (Error (type_error "type.env.indexOf"))
        | Some e => ret (env_has e env)
        end) (snap_resourceTypes systemSecurityData) ;;
    ret {| usd_policies := Some filteredPolicies;
           usd_dictionary := Some filteredDictionary;
           usd_resourceTypes := Some filteredResourceTypes;
           usd_env := env; usd_user := user;
           usd_description := ups_description userPolicies |}.

Definition formatUserSecurityData (securityData : UserSecurityData) : M SecurityData :=
  w <- get ;;
  let formated :=
    {| sd_id := 1; sd_revision := clock w;
       sd_userId := user_id (usd_user securityData);
       sd_display := user_display (usd_user securityData);
       sd_policies := usd_policies securityData;
       sd_dictionary := usd_dictionary securityData;
       sd_resourceTypes := usd_resourceTypes securityData |} in
  log Debug "--------------------------------------------------" [] ;;;
  log Info (show_str (user_display (usd_user securityData)) +:+
            ": Server Security on %b: %b - id: %b")
      [ Some (toUpperCase (usd_env securityData));
        usd_description securityData;
        Some (if truthy_str (user_permissionRoleCode (usd_user securityData))
              then show_str (user_permissionRoleCode (usd_user securityData))
              else "Role has not been defined") ] ;;;
  log Debug (default "No security enforced."
               (match stringify_policies (sd_policies formated) with
                | Some s => if String.eqb s "" then None else Some s
                | None => None
                end)) [] ;;;
  log Debug "--------------------------------------------------" [] ;;;
  ret formated.

Definition collectRolePolicySettingDefinitions (rolePolicySettings : list RoleSetting)
    (policyDefinition : Policy) : M (list PolicySettingConfig) :=
  mapM (λ setting,
    let policySettingConfiguration :=
      match setting with
      | RoleObject value _ =>
          List.find (λ s, matches (ps_setting s) value) (default [] (pol_settings policyDefinition))
      | RoleLabel label =>
          List.find (λ s, matches (ps_setting s) (Some label))
                    (default [] (pol_settings policyDefinition))
      end in
    match policySettingConfiguration with
    | None => throw (Error ("Setting [" +:+ stringify_roleSetting setting +:+
                            "] does NOT exist for policy [" +:+
                            show_str (pol_name policyDefinition) +:+ "]"))
    | Some policySettingConfiguration =>
        (* use the params provided in the policy setting if any *)
        match setting with
        | RoleObject _ (Some params) =>
            ret {| ps_setting := ps_setting policySettingConfiguration;
                   ps_notes := ps_notes policySettingConfiguration;
                   ps_condition := ps_condition policySettingConfiguration;
                   ps_params := Some params;
                   ps_protectedResources := ps_protectedResources policySettingConfiguration |}
        | _ => ret policySettingConfiguration
        end
    end) rolePolicySettings.

Definition generateRolePolicies (userRole : option Role) : M UserPolicies :=
  match userRole with
  | None => throw (Error (type_error "userRole.description"))
  | Some userRole =>
      systemSecurityData <- systemSecurityData_ "policies" ;;
      userPolicies <- foldM (λ userPolicies policyDefinition,
          let rolePolicy :=
            List.find (λ rp, matches (rp_name rp) (pol_name policyDefinition))
                      (role_policies userRole) in
          settings <-
            match rolePolicy with
            | Some (Build_RolePolicy _ ((_ :: _) as rolePolicySettings)) =>
                settings <- collectRolePolicySettingDefinitions rolePolicySettings
                              policyDefinition ;;
                ret (Some settings)
            | _ =>
                (* otherwise the default settings of that policy if any *)
                match pol_defaultSetting policyDefinition with
                | Some defaultSetting =>
                    if truthy_str (Some defaultSetting) then
                      settings <- collectRolePolicySettingDefinitions
                                    [RoleLabel defaultSetting] policyDefinition ;;
                      ret (Some settings)
                    else ret None
                | None => ret None
                end
            end ;;
          (* add all policies selected for the role *)
          match settings with
          | Some ((_ :: _) as settings) =>
              ret (userPolicies ++
                   [ {| pol_name := pol_name policyDefinition;
                        pol_description := None;
                        pol_defaultSetting := None;
                        pol_settings := Some settings |} ])
          | _ => ret userPolicies
          end) [] (snap_policies systemSecurityData) ;;
      ret {| ups_description := role_description userRole; ups_list := userPolicies |}
  end.

(** [findUserPolicyData]: the synchronous [try]/[catch] and the promise's
    [catch] decorate the error alike. *)
Definition findUserPolicyData (user : User) : M (Promise UserPolicies) :=
  deactivated <- security_deactivated user ;;
  if deactivated then
    log Warn "Security deactivated for %b" [user_display user] ;;;
    ret (Resolved {| ups_description := None; ups_list := [] |})
  else
    let invalid (e : Exn) : M (Promise UserPolicies) :=
      log LogError (show_str (user_display user) +:+ ": **** INVALID SECURITY POLICY ****") [] ;;;
      throw (append_message e
               ("- Invalid security policy for user " +:+ show_str (user_display user))) in
    try_catch
      (catch_
         (then_ (call_findRole user)
                (λ userRole, userPolicies <- generateRolePolicies userRole ;;
                             ret (Resolved userPolicies)))
         invalid)
      invalid.

Definition collectServerUserPolicy (user : User)
  : M (Promise (list UserPolicy.ProtectedResourceObject)) :=
  then_ (findUserPolicyData user)
    (λ userPolicies,
       securityData <- generateUserSecurityDataByEnvironment user userPolicies "server" ;;
       securityData <- formatUserSecurityData securityData ;;
       userPolicy <- UserPolicy.UserPolicy getPolicyConditionFactory getResourceTypeFactory
                       securityData ;;
       ret (Resolved userPolicy)).

Definition collectClientUserPolicy (user : User) : M (Promise SecurityData) :=
  then_ (findUserPolicyData user)
    (λ userPolicies,
       securityData <- generateUserSecurityDataByEnvironment user userPolicies "client" ;;
       securityData <- formatUserSecurityData securityData ;;
       ret (Resolved securityData)).

(** [user.display] *)
Definition display_of (user : UserArg) : M (option string) :=
  match user with
  | UserValue JUndefined | UserValue JNull => throw (Error (type_error "user.display"))
  | UserValue _ => ret None
  | UserObject u => ret (user_display u)
  end.

(** Reading the properties of a truthy [user]: a value that is not a user
    object has none of them. *)
Definition user_object (user : UserArg) : User :=
  match user with
  | UserObject u => u
  | UserValue _ =>
      {| user_id := None; user_tenantId := None; user_display := None;
         user_permissionRoleCode := None; user_isTenantAdmin := None |}
  end.

Definition applyResourcePolicy (user : UserArg) (protectedResourceLocator : option string)
    (contextParams : ContextParams) : M (Promise PolicyResult) :=
  (* Result will alway be true when there is no user role *)
  if negb (user_truthy user) ||
     negb (truthy_str (user_permissionRoleCode (user_object user))) then
    ret (Resolved
      {| result := JBool true;
         isSetting := λ _,
           display <- display_of user ;;
           log LogError (show_str display +:+
                         ": isSetting() for resource %b is not supported when user is no under a policy")
               [protectedResourceLocator] ;;;
           ret false |})
  else
        then_ (collectServerUserPolicy (user_object user))
          (λ userPolicy,
             protectedResource <- UserPolicy.getProtectedResourceByLocator userPolicy
                                    protectedResourceLocator ;;
             (* let's calculate the setting to know how this resource should behave *)
             setting <- UserPolicy.calculateSetting protectedResource contextParams ;;
             let isSetting (settingName : option string) : M bool :=
               (* [protectedResource.setting] and [protectedResource.type] are
                  not properties of the compiled object *)
               if bool_decide (settingName = None) then ret true
               else
                 systemSecurityData_ "resourceTypes" ;;;
                 found <- SecurityDefinition.findSetting None settingName ;;
                 assert (bool_decide (is_Some found))
                        ("Inexisting setting [" +:+ show_str settingName +:+
                         "] was passed to isSetting function  to check protected resource [undefined]") ;;;
                 ret false in
             then_
               (match UserPolicy.pro_apply protectedResource with
                | None => throw (Error (type_error "protectedResource.apply"))
                | Some apply =>
                    emit (EvApply (UserPolicy.pro_target protectedResource) setting contextParams) ;;;
                    ret (apply setting contextParams)
                end)
               (λ valid,
                  if negb (truthy valid) then
                    display <- display_of user ;;
                    log Warn (show_str display +:+ ": Server protected resource %b is denied")
                        [None] ;;;
                    ret (Rejected (Reason "RESOURCE_DENIED"))
                  else ret (Resolved {| result := valid; isSetting := isSetting |}))).

End Service.
End SecurityService.

(** * Vocabulary of the properties *)

(** The trace only grows, by the events [evs]. *)
Definition extends (w : World) (evs : list Event) : World := set_trace (trace w ++ evs) w.


(** ** A runtime to evaluate examples on *)

Definition example_gt (a b : jsval) : bool :=
  match a, b with
  | JNum x, JNum y => bool_decide (y < x)%Z
  | _, _ => false
  end.

Definition example_runtime : JsRuntime :=
  {| js_gt := example_gt;
     js_gt_num := λ a b, eq_refl;
     stringify_resourceType := λ _, "{}";
     stringify_protectedResource := λ _, "{}";
     stringify_policySetting := λ _, "{}";
     stringify_roleSetting := λ _, "{}";
     stringify_policies := λ _, Some "[]";
     type_error := λ what, "TypeError: " +:+ what;
     toUpperCase := λ s, s;
     UUID_generate := λ n, "uuid-" +:+ pretty n |}.

(** The state of a process that has not loaded anything. *)
Definition initial_world : World :=
  {| dictionary := []; resourceTypes := []; policies := []; conditionFactories := None;
     findRole := None; systemSecurityData := None; uuids := 0; clock := 0; trace := [] |}.


(** ** Resolution *)

Section ResolutionVocabulary.
Context `{JsRuntime}.
Import UserPolicy.

(** What the closure of an entry answers for [contextParams]; it does not
    depend on the state it runs in ([checkIfEnabled_run]). *)
Definition answer (c : CheckIfEnabled) (contextParams : ContextParams) : Completion jsval :=
  snd (checkIfEnabled c contextParams initial_world).

(** An entry is enabled when its closure returns a truthy value, disabled
    when it returns a falsy one. *)
Definition enabled (contextParams : ContextParams) (resourceConfig : ResourceConfig) : Prop :=
  ∃ v, answer (cps_checkIfEnabled (rc_policySetting resourceConfig)) contextParams = Ok v
       ∧ truthy v = true.

Definition disabled (contextParams : ContextParams) (resourceConfig : ResourceConfig) : Prop :=
  ∃ v, answer (cps_checkIfEnabled (rc_policySetting resourceConfig)) contextParams = Ok v
       ∧ truthy v = false.

Definition priority_is (resourceConfig : ResourceConfig) (n : Z) : Prop :=
  prop (rc_setting resourceConfig) "priority" = JNum n.

(** [!finalSetting || finalSetting.priority > setting.priority] *)
Definition choose (finalSetting : option obj) (setting : obj) : option obj :=
  match finalSetting with
  | None => Some setting
  | Some final => if js_gt (prop final "priority") (prop setting "priority")
                  then Some setting else Some final
  end.

(** The loop of [computeResourceSetting] on answers. *)
Fixpoint pick (contextParams : ContextParams) (finalSetting : option obj)
    (l : list ResourceConfig) : Completion (option obj) :=
  match l with
  | [] => Ok finalSetting
  | resourceConfig :: l' =>
      match answer (cps_checkIfEnabled (rc_policySetting resourceConfig)) contextParams with
      | Ok v => pick contextParams
                  (if truthy v then choose finalSetting (rc_setting resourceConfig)
                   else finalSetting) l'
      | Throw e => Throw e
      end
  end.

Definition resolve (protectedResource : ProtectedResourceObject)
    (contextParams : ContextParams) : Completion obj :=
  match pick contextParams None (pro_settings protectedResource) with
  | Ok None => Ok (r_defaultSetting (pro_resource protectedResource))
  | Ok (Some finalSetting) => Ok finalSetting
  | Throw e => Throw e
  end.

End ResolutionVocabulary.

(** ** Compilation *)

(** Every grant of a list of policies, in enumeration order. *)
Definition grants_of (policies : list Policy) : list PolicyResourceConfig :=
  concat (List.map (λ policy,
    concat (List.map (λ policySetting, default [] (ps_protectedResources policySetting))
                     (default [] (pol_settings policy)))) policies).

(** The same protected resource with another list of contributed entries. *)
Definition with_settings (protectedResource : UserPolicy.ProtectedResourceObject)
    (settings : list UserPolicy.ResourceConfig) : UserPolicy.ProtectedResourceObject :=
  {| UserPolicy.pro_resource := UserPolicy.pro_resource protectedResource;
     UserPolicy.pro_settings := settings;
     UserPolicy.pro_apply := UserPolicy.pro_apply protectedResource;
     UserPolicy.pro_target := UserPolicy.pro_target protectedResource |}.

Section CompilationVocabulary.
Import UserPolicy.

(** [resource] is the compiled form of the dictionary entry [resourceData]. *)
Definition compiled_resource (resourceTypes : list ResourceType)
    (resourceData : ProtectedResource) (resource : Resource) : Prop :=
  List.find (λ t, matches (rt_name t) (res_type resourceData)) resourceTypes
    = Some (r_type resource) ∧
  r_name resource = res_name resourceData ∧
  r_locator resource = res_locator resourceData ∧
  r_params resource = res_params resourceData ∧
  r_defaultSetting resource =
    buildResourceSettingObject (r_type resource) (res_defaultSetting resourceData)
                               (res_params resourceData).

(** [resourceConfig] is the entry contributed to [resource] by [grant]. *)
Definition compiled_entry (resource : Resource) (grant : PolicyResourceConfig)
    (resourceConfig : ResourceConfig) : Prop :=
  show_str (prc_resource grant) = show_str (r_name resource) ∧
  rc_resource resourceConfig = resource ∧
  rc_params resourceConfig = prc_params grant ∧
  rc_setting resourceConfig =
    buildResourceSettingObject (r_type resource) (prc_setting grant) (prc_params grant).

(** What holds of every protected resource compiled from [securityData]. *)
Definition compiled_from (securityData : SecurityData)
    (protectedResource : ProtectedResourceObject) : Prop :=
  (∃ resourceData, resourceData ∈ default [] (sd_dictionary securityData) ∧
     compiled_resource (default [] (sd_resourceTypes securityData)) resourceData
                       (pro_resource protectedResource)) ∧
  Forall (λ resourceConfig,
      ∃ grant, grant ∈ grants_of (default [] (sd_policies securityData)) ∧
               compiled_entry (pro_resource protectedResource) grant resourceConfig)
    (pro_settings protectedResource).

End CompilationVocabulary.

(** ** Example data

    The resource types, dictionary and policy of the repository's tests
    (spec/security.service.spec.js), a server-side resource type, and a
    condition factory. *)

Definition setting_definition (value : string) (priority : Z) : obj :=
  {[ "value" := JStr value; "priority" := JNum priority ]}.

Definition AppMenuItem : ResourceType :=
  {| rt_name := Some "AppMenuItem"; rt_env := Some (EnvString "client");
     rt_settings := Some [setting_definition "show" 1; setting_definition "hide" 0];
     rt_apply := None |}.

Definition screenForm : ResourceType :=
  {| rt_name := Some "screenForm"; rt_env := Some (EnvString "client");
     rt_settings := Some [setting_definition "readOnly" 1; setting_definition "edit" 0;
                          setting_definition "create" 0];
     rt_apply := None |}.

(** A type enforced on the server: access is allowed unless the resolved
    setting is [deny]. *)
Definition apiOperation : ResourceType :=
  {| rt_name := Some "apiOperation"; rt_env := Some (EnvArray ["server"]);
     rt_settings := Some [setting_definition "allow" 1; setting_definition "deny" 0];
     rt_apply := Some (λ setting _,
                   Resolved (JBool (negb (bool_decide (prop setting "value" = JStr "deny"))))) |}.

(** A type declared for both environments. *)
Definition auditTrail : ResourceType :=
  {| rt_name := Some "auditTrail"; rt_env := Some (EnvArray ["client"; "server"]);
     rt_settings := Some [setting_definition "on" 1; setting_definition "off" 0];
     rt_apply := Some (λ _ _, Resolved (JBool true)) |}.

Definition dictionary_entry (name type locator defaultSetting : string) : ProtectedResource :=
  {| res_name := Some name; res_type := Some type; res_locator := Some locator;
     res_defaultSetting := Some defaultSetting; res_params := None; res_id := None |}.

Definition example_dictionary : list ProtectedResource :=
  [ dictionary_entry "Account menu" "AppMenuItem" "accountOption" "show";
    dictionary_entry "Account Screen Form" "screenForm" "account" "readOnly";
    dictionary_entry "Account update" "apiOperation" "api.account.updateOne" "deny";
    dictionary_entry "Account audit" "auditTrail" "account.audit" "on" ].

Definition grant (resource setting : string) : PolicyResourceConfig :=
  {| prc_resource := Some resource; prc_setting := Some setting; prc_params := None |}.

(** A grant whose params try to set [priority] and add a [reason]. *)
Definition audit_off : PolicyResourceConfig :=
  {| prc_resource := Some "Account audit"; prc_setting := Some "off";
     prc_params := Some {[ "priority" := JNum 99; "reason" := JStr "gdpr" ]} |}.

Definition policy_setting (setting : string) (condition : option string)
    (protectedResources : list PolicyResourceConfig) : PolicySettingConfig :=
  {| ps_setting := Some setting; ps_notes := None; ps_condition := condition;
     ps_params := None; ps_protectedResources := Some protectedResources |}.

Definition account_policy : Policy :=
  {| pol_name := Some "Account Policy"; pol_description := Some "Account Security Policy";
     pol_defaultSetting := None;
     pol_settings := Some
       [ policy_setting "read" None
           [grant "Account menu" "show"; grant "Account Screen Form" "readOnly"];
         policy_setting "Update" (Some "acl.isOwner")
           [grant "Account menu" "show"; grant "Account Screen Form" "edit";
            grant "Account update" "allow"; audit_off] ] |}.

(** A policy whose only grant names a resource that is not in the
    dictionary. *)
Definition ghost_policy : Policy :=
  {| pol_name := Some "Ghost Policy"; pol_description := None; pol_defaultSetting := None;
     pol_settings := Some [policy_setting "read" None [grant "Ghost" "show"]] |}.

(** The same, without a name. *)
Definition nameless_ghost_policy : Policy :=
  {| pol_name := None; pol_description := None; pol_defaultSetting := None;
     pol_settings := Some [policy_setting "read" None [grant "Ghost" "show"]] |}.

Definition isOwner : ConditionFn :=
  λ _ contextParams,
    match contextParams with
    | Some o => Ok (JBool (bool_decide (prop o "owner" = JBool true)))
    | None => Throw (Error "contextParams is undefined")
    end.

Definition acl : ConditionFactory :=
  {| cf_factory := Some "acl";
     cf_members := [("isOwner", MFn isOwner); ("never", MFn (λ _ _, Ok (JBool false)))] |}.

Definition example_role : Role :=
  {| role_description := Some "Account manager";
     role_policies := [ {| rp_name := Some "Account Policy";
                           rp_settings := [RoleLabel "read"; RoleLabel "Update"] |} ] |}.

Definition configuration (resourceTypes : list ResourceType)
    (dictionary : list ProtectedResource) (policies : list Policy) : SecurityConfiguration :=
  {| cfg_resourceTypes := Some resourceTypes; cfg_dictionary := Some dictionary;
     cfg_policies := Some policies; cfg_conditionFactories := Some [acl];
     cfg_defaultRole := Some "admin";
     cfg_findRoleByUser := λ _, Resolved (Some example_role);
     cfg_findRole := λ _, Resolved (Some example_role) |}.

Definition example_configuration : SecurityConfiguration :=
  configuration [AppMenuItem; screenForm; apiOperation; auditTrail]
                example_dictionary [account_policy].

(** The configuration of the test "should not validate policy": policies
    over an empty dictionary. *)
Definition invalid_configuration : SecurityConfiguration :=
  configuration [] [] [account_policy].

Definition example_user : User :=
  {| user_id := Some "u1"; user_tenantId := Some "t1"; user_display := Some "Ann";
     user_permissionRoleCode := Some "manager"; user_isTenantAdmin := Some (JBool false) |}.

Definition admin_user : User :=
  {| user_id := Some "u0"; user_tenantId := Some "t1"; user_display := Some "Root";
     user_permissionRoleCode := Some "admin"; user_isTenantAdmin := Some (JBool true) |}.

(** The menu item of scenarios A to C, compiled by hand, with three
    contributed entries: a gated [hide], then [show] twice. *)
Definition account_menu : UserPolicy.Resource :=
  {| UserPolicy.r_name := Some "Account menu"; UserPolicy.r_locator := Some "accountOption";
     UserPolicy.r_params := None; UserPolicy.r_id := None;
     UserPolicy.r_type := AppMenuItem;
     UserPolicy.r_defaultSetting := setting_definition "show" 1 |}.

Definition contributed (label : string) (checkIfEnabled : UserPolicy.CheckIfEnabled)
    (setting : obj) : UserPolicy.ResourceConfig :=
  {| UserPolicy.rc_policySetting :=
       {| UserPolicy.cps_config := policy_setting label None [];
          UserPolicy.cps_checkIfEnabled := checkIfEnabled;
          UserPolicy.cps_policy := account_policy |};
     UserPolicy.rc_resource := account_menu;
     UserPolicy.rc_setting := setting;
     UserPolicy.rc_params := None |}.

Definition gated_hide : UserPolicy.ResourceConfig :=
  contributed "owner"
    (UserPolicy.ConditionCall (MFn isOwner) (policy_setting "owner" (Some "acl.isOwner") []))
    (setting_definition "hide" 0).

Definition first_show : UserPolicy.ResourceConfig :=
  contributed "read" UserPolicy.AlwaysEnabled
    (<["note" := JStr "first"]> (setting_definition "show" 1)).

Definition second_show : UserPolicy.ResourceConfig :=
  contributed "Update" UserPolicy.AlwaysEnabled
    (<["note" := JStr "second"]> (setting_definition "show" 1)).

Definition account_menu_object : UserPolicy.ProtectedResourceObject :=
  {| UserPolicy.pro_resource := account_menu;
     UserPolicy.pro_settings := [gated_hide; first_show; second_show];
     UserPolicy.pro_apply := None;
     UserPolicy.pro_target := Some "AppMenuItem" |}.

Definition not_owner : ContextParams := Some {[ "owner" := JBool false ]}.
Definition owner : ContextParams := Some {[ "owner" := JBool true ]}.

(** The security data compiled in the examples: the whole example
    configuration, with the factory [acl]. *)
Definition example_security_data : SecurityData :=
  {| sd_id := 1; sd_revision := 0; sd_userId := Some "u1"; sd_display := Some "Ann";
     sd_policies := Some [account_policy];
     sd_dictionary := Some example_dictionary;
     sd_resourceTypes := Some [AppMenuItem; screenForm; apiOperation; auditTrail] |}.

Definition compiled_example : World * Completion (list UserPolicy.ProtectedResourceObject) :=
  UserPolicy.compileSecurityData (H := example_runtime) (λ _, ret acl)
    SecurityService.getResourceTypeFactory
    example_security_data initial_world.

Definition compiled_example_list : list UserPolicy.ProtectedResourceObject :=
  match snd compiled_example with
  | Ok protectedResourceList => protectedResourceList
  | Throw _ => []
  end.

(** The compiled server operation and audit trail of the example. *)
Definition account_update_object : UserPolicy.ProtectedResourceObject :=
  default account_menu_object (compiled_example_list !! 2%nat).

Definition account_audit_object : UserPolicy.ProtectedResourceObject :=
  default account_menu_object (compiled_example_list !! 3%nat).

Definition account_audit_entry : UserPolicy.ResourceConfig :=
  default gated_hide (UserPolicy.pro_settings account_audit_object !! 0%nat).

(** ** Loaded definitions *)

(** [_.find(resourceTypes, {name: type})] and [_.find(dictionary, {name})]. *)
Definition type_named (resourceTypes : list ResourceType) (type : option string)
  : option ResourceType :=
  List.find (λ d, matches (rt_name d) type) resourceTypes.

Definition resource_named (dictionary : list ProtectedResource) (name : option string)
  : option ProtectedResource :=
  List.find (λ r, matches (res_name r) name) dictionary.



(** Referential closure of the module-level registries (section 8): every
    resource type has an [env], every dictionary entry a declared type, every
    stored policy a list of settings whose grants name dictionary entries. *)
Definition grant_resolves (dictionary : list ProtectedResource)
    (grant : PolicyResourceConfig) : Prop :=
  is_Some (resource_named dictionary (prc_resource grant)).

Definition setting_resolves (dictionary : list ProtectedResource)
    (policySetting : PolicySettingConfig) : Prop :=
  ∃ grants, ps_protectedResources policySetting = Some grants ∧
            Forall (grant_resolves dictionary) grants.

Definition policy_resolves (dictionary : list ProtectedResource) (policy : Policy) : Prop :=
  ∃ settings, pol_settings policy = Some settings ∧
              Forall (setting_resolves dictionary) settings.

Definition consistent (w : World) : Prop :=
  Forall (λ type, is_Some (rt_env type)) (resourceTypes w) ∧
  Forall (λ resource, is_Some (type_named (resourceTypes w) (res_type resource)))
         (dictionary w) ∧
  Forall (policy_resolves (dictionary w)) (policies w).

(** The module-level registries are those of the snapshot. *)
Definition registries_of (snapshot : Snapshot) (w : World) : Prop :=
  conditionFactories w = snap_conditionFactories snapshot ∧
  dictionary w = snap_dictionary snapshot ∧
  resourceTypes w = snap_resourceTypes snapshot ∧
  policies w = snap_policies snapshot.

(** The part of the state a validation step must leave alone. *)
Definition same_service (w w' : World) : Prop :=
  conditionFactories w' = conditionFactories w ∧
  findRole w' = findRole w ∧ systemSecurityData w' = systemSecurityData w.


(** ** A configuration cut just before a grant

    The policies before [policy], and of [policy] the settings before
    [policySetting] and, of [policySetting], the grants before the grant:
    what validation has gone through when it reaches the grant. *)
Definition cut_setting (policySetting : PolicySettingConfig)
    (grants_before : list PolicyResourceConfig) : PolicySettingConfig :=
  {| ps_setting := ps_setting policySetting; ps_notes := ps_notes policySetting;
     ps_condition := ps_condition policySetting; ps_params := ps_params policySetting;
     ps_protectedResources := Some grants_before |}.

Definition cut_policy (policy : Policy) (settings_before : list PolicySettingConfig)
    (policySetting : PolicySettingConfig) (grants_before : list PolicyResourceConfig) : Policy :=
  {| pol_name := pol_name policy; pol_description := pol_description policy;
     pol_defaultSetting := None;
     pol_settings := Some (settings_before ++ [cut_setting policySetting grants_before]) |}.

Definition cut_configuration (security : SecurityConfiguration)
    (policies_before : list Policy) (policy : Policy)
    (settings_before : list PolicySettingConfig) (policySetting : PolicySettingConfig)
    (grants_before : list PolicyResourceConfig) : SecurityConfiguration :=
  {| cfg_resourceTypes := cfg_resourceTypes security;
     cfg_dictionary := cfg_dictionary security;
     cfg_policies :=
       Some (policies_before ++
             [cut_policy policy settings_before policySetting grants_before]);
     cfg_conditionFactories := cfg_conditionFactories security;
     cfg_defaultRole := cfg_defaultRole security;
     cfg_findRoleByUser := cfg_findRoleByUser security;
     cfg_findRole := cfg_findRole security |}.

(** What the log says of a grant on a resource [r] the dictionary does not
    have, in [policySetting] of [policy]. *)
Definition missing_resource_message `{JsRuntime} (r : string)
    (policySetting : PolicySettingConfig) (policy : Policy) : string :=
  "Resource [" +:+ r +:+ "] is not defined in the dictionary" +:+
  " - invalid protected resource [" +:+ r +:+ "]" +:+
  " - invalid policy setting: " +:+ stringify_policySetting policySetting +:+
  " - invalid policy [" +:+ show_str (pol_name policy) +:+ "]".

(** The example configuration with one more policy, whose grant names
    ["Ghost"] (scenario D), and that configuration cut before the grant. *)
Definition ghost_configuration : SecurityConfiguration :=
  configuration [AppMenuItem; screenForm; apiOperation; auditTrail]
                example_dictionary [account_policy; ghost_policy].

Definition ghost_cut : SecurityConfiguration :=
  cut_configuration ghost_configuration [account_policy] ghost_policy []
    (policy_setting "read" None [grant "Ghost" "show"]) [].

Definition ghost_cut_run : World * Completion Snapshot :=
  SecurityDefinition.integrity_check (H := example_runtime) ghost_cut initial_world.

Definition ghost_cut_snapshot : Snapshot :=
  match snd ghost_cut_run with
  | Ok snapshot => snapshot
  | Throw _ =>
      {| snap_conditionFactories := None; snap_dictionary := [];
         snap_resourceTypes := []; snap_policies := [] |}
  end.

(** A configuration with two defects: its only policy has no name, and the
    grant of that policy names ["Ghost"]. *)
Definition two_defects : SecurityConfiguration :=
  configuration [AppMenuItem; screenForm; apiOperation; auditTrail]
                example_dictionary [nameless_ghost_policy].

(** ** Frames *)

(** A computation that leaves the variables of security.service.js alone,
    whether it returns or throws. *)
Definition keeps_service {A} (m : M A) : Prop :=
  ∀ w, systemSecurityData (fst (m w)) = systemSecurityData w ∧
       findRole (fst (m w)) = findRole w.

(** The state of the engine once [snapshot] has been loaded: the service
    holds it, the registries of the definition service are its lists, and
    they are consistent. *)
Definition loaded (snapshot : Snapshot) (w : World) : Prop :=
  systemSecurityData w = Some snapshot ∧ registries_of snapshot w ∧ consistent w.

(** The engine after the example configuration was loaded, and after a
    reload with the invalid configuration was attempted. *)
Definition world_after_load : World :=
  fst (SecurityService.load (H := example_runtime) example_configuration initial_world).

Definition world_after_failed_reload : World :=
  fst (SecurityService.load (H := example_runtime) invalid_configuration world_after_load).

(** ** Environment views *)

(** The resource type declares the environment: [type.env.indexOf(env) !== -1]. *)
Definition declares (env : string) (type : ResourceType) : bool :=
  match rt_env type with
  | Some e => env_has e env
  | None => false
  end.

(** The type of that name in the snapshot declares the environment. *)
Definition in_environment (snapshot : Snapshot) (env : string) (type : option string) : bool :=
  match type_named (snap_resourceTypes snapshot) type with
  | Some definition => declares env definition
  | None => false
  end.

(** The resource a grant names is of a type that declares the environment. *)
Definition grant_in_environment (snapshot : Snapshot) (env : string)
    (grant : PolicyResourceConfig) : bool :=
  match resource_named (snap_dictionary snapshot) (prc_resource grant) with
  | Some resource => in_environment snapshot env (res_type resource)
  | None => false
  end.

(** The loops of [filterPolicyContentByEnvironment] on these answers. *)
Definition keep_setting (snapshot : Snapshot) (env : string)
    (filteredPolicySettings : list PolicySettingConfig) (policySetting : PolicySettingConfig)
  : list PolicySettingConfig :=
  let filteredProtectedResources :=
    List.filter (grant_in_environment snapshot env)
                (default [] (ps_protectedResources policySetting)) in
  if (0 <? length filteredProtectedResources)%nat
  then filteredPolicySettings ++
       [ {| ps_setting := ps_setting policySetting; ps_notes := ps_notes policySetting;
            ps_condition := ps_condition policySetting; ps_params := ps_params policySetting;
            ps_protectedResources := Some filteredProtectedResources |} ]
  else filteredPolicySettings.

Definition keep_policy (snapshot : Snapshot) (env : string)
    (filteredPolicies : list Policy) (policy : Policy) : list Policy :=
  let filteredPolicySettings :=
    fold_left (keep_setting snapshot env) (default [] (pol_settings policy)) [] in
  if (0 <? length filteredPolicySettings)%nat
  then filteredPolicies ++
       [ {| pol_name := pol_name policy; pol_description := pol_description policy;
            pol_defaultSetting := pol_defaultSetting policy;
            pol_settings := Some filteredPolicySettings |} ]
  else filteredPolicies.

Definition environment_policies (snapshot : Snapshot) (env : string)
    (userPolicies : list Policy) : list Policy :=
  fold_left (keep_policy snapshot env) userPolicies [].

(** The user policies and the two views of the example user. *)
Definition example_user_policies : SecurityService.UserPolicies :=
  match snd (SecurityService.generateRolePolicies (H := example_runtime)
               (Some example_role) world_after_load) with
  | Ok userPolicies => userPolicies
  | Throw _ => {| SecurityService.ups_description := None; SecurityService.ups_list := [] |}
  end.

Definition example_snapshot : Snapshot :=
  default {| snap_conditionFactories := None; snap_dictionary := [];
             snap_resourceTypes := []; snap_policies := [] |}
          (systemSecurityData world_after_load).

(** * Vocabulary of the further properties *)

(** ** What the loader has checked *)

(** A resource type that [addResourceType] accepts. *)
Definition valid_type (type : ResourceType) : Prop :=
  truthy_str (rt_name type) = true ∧
  ∃ e, rt_env type = Some e ∧ env_truthy e = true ∧
       (env_has e "server" = true → is_Some (rt_apply type)).

(** [setting] is one of the settings of the resource type named [type]. *)
Definition legal_setting (resourceTypes : list ResourceType)
    (type setting : option string) : Prop :=
  ∃ definition, type_named resourceTypes type = Some definition ∧
                is_Some (find_by_value (rt_settings definition) setting).

(** A dictionary entry that [addResourceToDictionary] accepts. *)
Definition valid_resource (resourceTypes : list ResourceType)
    (resource : ProtectedResource) : Prop :=
  truthy_str (res_name resource) = true ∧
  truthy_str (res_type resource) = true ∧
  truthy_str (res_locator resource) = true ∧
  truthy_str (res_defaultSetting resource) = true ∧
  legal_setting resourceTypes (res_type resource) (res_defaultSetting resource).

(** A grant that [checkPolicyProtectedResource] accepts. *)
Definition valid_grant (resourceTypes : list ResourceType)
    (dictionary : list ProtectedResource) (grant : PolicyResourceConfig) : Prop :=
  ∃ resource, resource_named dictionary (prc_resource grant) = Some resource ∧
              truthy_str (prc_setting grant) = true ∧
              legal_setting resourceTypes (res_type resource) (prc_setting grant).

Definition valid_setting (resourceTypes : list ResourceType)
    (dictionary : list ProtectedResource) (policySetting : PolicySettingConfig) : Prop :=
  truthy_str (ps_setting policySetting) = true ∧
  Forall (valid_grant resourceTypes dictionary)
         (default [] (ps_protectedResources policySetting)).

(** A policy that [addPolicy] accepts. *)
Definition valid_policy (resourceTypes : list ResourceType)
    (dictionary : list ProtectedResource) (policy : Policy) : Prop :=
  truthy_str (pol_name policy) = true ∧
  ∃ settings, pol_settings policy = Some settings ∧
    Forall (valid_setting resourceTypes dictionary) settings ∧
    (truthy_str (pol_defaultSetting policy) = true →
     is_Some (List.find (λ s, matches (ps_setting s) (pol_defaultSetting policy)) settings)).

(** ** What the loader stores *)

(** The copy of a dictionary entry, with the identifier drawn for it. *)
Definition with_id `{JsRuntime} (n : nat) (resource : ProtectedResource) : ProtectedResource :=
  {| res_name := res_name resource; res_type := res_type resource;
     res_locator := res_locator resource;
     res_defaultSetting := res_defaultSetting resource;
     res_params := res_params resource;
     res_id := Some (UUID_generate n) |}.

Fixpoint stored_dictionary `{JsRuntime} (n : nat) (l : list ProtectedResource)
  : list ProtectedResource :=
  match l with
  | [] => []
  | resource :: l' => with_id n resource :: stored_dictionary (S n) l'
  end.

(** A policy setting once [checkPolicySetting] has given it a list of
    grants, and a policy with its settings so completed. *)
Definition stored_setting (policySetting : PolicySettingConfig) : PolicySettingConfig :=
  {| ps_setting := ps_setting policySetting; ps_notes := ps_notes policySetting;
     ps_condition := ps_condition policySetting; ps_params := ps_params policySetting;
     ps_protectedResources := Some (default [] (ps_protectedResources policySetting)) |}.

Definition stored_policy (policy : Policy) : Policy :=
  {| pol_name := pol_name policy; pol_description := pol_description policy;
     pol_defaultSetting := pol_defaultSetting policy;
     pol_settings := Some (List.map stored_setting (default [] (pol_settings policy))) |}.

(** A configuration the definition loader accepts: condition factories are
    given, every resource type, dictionary entry and policy passes the checks
    of its [add] function, and names are not repeated. *)
Definition valid_configuration (security : SecurityConfiguration) : Prop :=
  is_Some (cfg_conditionFactories security) ∧
  Forall valid_type (default [] (cfg_resourceTypes security)) ∧
  NoDup (List.map rt_name (default [] (cfg_resourceTypes security))) ∧
  ∃ dictionary policies,
    cfg_dictionary security = Some dictionary ∧ cfg_policies security = Some policies ∧
    Forall (valid_resource (default [] (cfg_resourceTypes security))) dictionary ∧
    NoDup (List.map res_name dictionary) ∧
    Forall (valid_policy (default [] (cfg_resourceTypes security)) dictionary) policies ∧
    NoDup (List.map pol_name policies).

(** What [load] returns for a configuration: the resource types as given,
    the dictionary entries with identifiers drawn from [n] on, the policies
    with their lists of grants, and the condition factories. *)
Definition stored_configuration `{JsRuntime} (n : nat) (security : SecurityConfiguration)
  : Snapshot :=
  {| snap_conditionFactories := cfg_conditionFactories security;
     snap_dictionary := stored_dictionary n (default [] (cfg_dictionary security));
     snap_resourceTypes := default [] (cfg_resourceTypes security);
     snap_policies := List.map stored_policy (default [] (cfg_policies security)) |}.

(** The definition loader run on the example configuration, in a process
    that has loaded nothing. *)
Definition example_load : World * Completion Snapshot :=
  SecurityDefinition.load (H := example_runtime) example_configuration initial_world.

(** ** Conditions *)

(** What a condition closure reports when its predicate throws. *)
Definition condition_hint : string :=
  " - make sure the context param object is passed when calling the protected resource apply method".

(** What compilation appends to the error of a condition it cannot resolve. *)
Definition unknown_condition (policySetting : PolicySettingConfig) : string :=
  "- Unknown security condition [" +:+ default "" (ps_condition policySetting) +:+
  "] for policy setting [" +:+ show_str (ps_setting policySetting) +:+ "]".

(** A setting whose condition has no period, and one whose condition names
    the [factory] property of the factory [acl], which is a string. *)
Definition unqualified_condition : PolicySettingConfig :=
  policy_setting "owner" (Some "isOwner") [].

Definition factory_name_condition : PolicySettingConfig :=
  policy_setting "owner" (Some "acl.factory") [].

(** ** Applying a policy *)

(** The example user updating an account they own, once the example
    configuration is loaded. *)
Definition example_apply : World * Completion (Promise SecurityService.PolicyResult) :=
  SecurityService.applyResourcePolicy (H := example_runtime) (SecurityService.UserObject example_user)
    (Some "api.account.updateOne") owner world_after_load.

Definition example_policy_result : SecurityService.PolicyResult :=
  match snd example_apply with
  | Ok (Resolved r) => r
  | _ => {| SecurityService.result := JUndefined;
            SecurityService.isSetting := λ _, ret false |}
  end.

(** The server view compiled for the example user, in the state it leaves. *)
Definition example_server_policy
  : World * Completion (Promise (list UserPolicy.ProtectedResourceObject)) :=
  SecurityService.collectServerUserPolicy (H := example_runtime) example_user world_after_load.

Definition example_server_list : list UserPolicy.ProtectedResourceObject :=
  match snd example_server_policy with
  | Ok (Resolved userPolicy) => userPolicy
  | _ => []
  end.

Definition example_server_update : UserPolicy.ProtectedResourceObject :=
  default account_menu_object (example_server_list !! 0%nat).

(** ** Roles *)

(** The label a role setting selects, and the params it gives. *)
Definition selected_label (setting : RoleSetting) : option string :=
  match setting with
  | RoleLabel label => Some label
  | RoleObject value _ => value
  end.

Definition selected_params (setting : RoleSetting) : option obj :=
  match setting with
  | RoleLabel _ => None
  | RoleObject _ params => params
  end.

(** [_.find(policyDefinition.settings, {setting: label})] *)
Definition setting_labelled (policyDefinition : Policy) (label : option string)
  : option PolicySettingConfig :=
  List.find (λ s, matches (ps_setting s) label) (default [] (pol_settings policyDefinition)).

(** A policy setting with the params a role gives in their place, if any. *)
Definition with_role_params (params : option obj) (policySetting : PolicySettingConfig)
  : PolicySettingConfig :=
  match params with
  | Some params =>
      {| ps_setting := ps_setting policySetting; ps_notes := ps_notes policySetting;
         ps_condition := ps_condition policySetting; ps_params := Some params;
         ps_protectedResources := ps_protectedResources policySetting |}
  | None => policySetting
  end.

(** What a role policy says of a policy definition: the settings it selects,
    none when the role does not name the policy. *)
Definition selections_of (userRole : Role) (policyDefinition : Policy) : list RoleSetting :=
  match List.find (λ rp, matches (rp_name rp) (pol_name policyDefinition))
                  (role_policies userRole) with
  | Some rolePolicy => rp_settings rolePolicy
  | None => []
  end.

(** A user policy is made of settings of the policy definition it is named
    after, with the description and default setting left out. *)
Definition user_policy_of (policyDefinition userPolicy : Policy) : Prop :=
  pol_name userPolicy = pol_name policyDefinition ∧
  pol_description userPolicy = None ∧ pol_defaultSetting userPolicy = None ∧
  ∃ policySetting settings,
    pol_settings userPolicy = Some (policySetting :: settings) ∧
    Forall (λ s, ∃ defined params,
              defined ∈ default [] (pol_settings policyDefinition) ∧
              s = with_role_params params defined)
           (policySetting :: settings).

(** Selections of the example: the [Update] setting with params of the
    role's own, and a label the account policy does not have. *)
Definition example_selections : list RoleSetting :=
  [RoleLabel "read"; RoleObject (Some "Update") (Some {[ "level" := JNum 2 ]})].

Definition example_selected : list PolicySettingConfig :=
  match snd (SecurityService.collectRolePolicySettingDefinitions (H := example_runtime)
               example_selections account_policy initial_world) with
  | Ok settings => settings
  | Throw _ => []
  end.

(** The account policy with a default setting, a role that selects
    nothing, and the engine once such a configuration is loaded. *)
Definition default_policy : Policy :=
  {| pol_name := pol_name account_policy; pol_description := pol_description account_policy;
     pol_defaultSetting := Some "read"; pol_settings := pol_settings account_policy |}.

Definition bare_role : Role :=
  {| role_description := Some "Visitor"; role_policies := [] |}.

Definition default_configuration : SecurityConfiguration :=
  configuration [AppMenuItem; screenForm; apiOperation; auditTrail]
                example_dictionary [default_policy].

Definition default_load : World * Completion Snapshot :=
  SecurityDefinition.load (H := example_runtime) default_configuration initial_world.

Definition default_snapshot : Snapshot :=
  match snd default_load with
  | Ok snapshot => snapshot
  | Throw _ => {| snap_conditionFactories := None; snap_dictionary := [];
                  snap_resourceTypes := []; snap_policies := [] |}
  end.

Definition world_with_defaults : World :=
  fst (SecurityService.load (H := example_runtime) default_configuration initial_world).

(** A role that selects a setting the account policy does not have, and the
    engine loaded with a role store that answers with it. *)
Definition stray_role : Role :=
  {| role_description := Some "Stray";
     role_policies := [ {| rp_name := Some "Account Policy";
                           rp_settings := [RoleLabel "read"; RoleLabel "write"] |} ] |}.

Definition stray_configuration : SecurityConfiguration :=
  {| cfg_resourceTypes := cfg_resourceTypes example_configuration;
     cfg_dictionary := cfg_dictionary example_configuration;
     cfg_policies := cfg_policies example_configuration;
     cfg_conditionFactories := cfg_conditionFactories example_configuration;
     cfg_defaultRole := cfg_defaultRole example_configuration;
     cfg_findRoleByUser := λ _, Resolved (Some stray_role);
     cfg_findRole := λ _, Resolved (Some stray_role) |}.

Definition world_with_stray_role : World :=
  fst (SecurityService.load (H := example_runtime) stray_configuration initial_world).

(** What [findUserPolicyData] appends to the error of a role whose policies
    cannot be generated. *)
Definition invalid_policy_of (user : User) : string :=
  "- Invalid security policy for user " +:+ show_str (user_display user).

(** What [collectRolePolicySettingDefinitions] reports of a selection the
    policy does not define. *)
Definition unknown_selection `{JsRuntime} (setting : RoleSetting) (policyDefinition : Policy)
  : string :=
  "Setting [" +:+ stringify_roleSetting setting +:+ "] does NOT exist for policy [" +:+
  show_str (pol_name policyDefinition) +:+ "]".

(** ** Environment views *)

(** A setting kept by the environment filter: the setting it was made from,
    with a non-empty list of grants in place of its own. *)
Definition kept_setting (policySetting filtered : PolicySettingConfig) : Prop :=
  ps_setting filtered = ps_setting policySetting ∧
  ps_condition filtered = ps_condition policySetting ∧
  ps_params filtered = ps_params policySetting ∧
  ∃ grant grants, ps_protectedResources filtered = Some (grant :: grants).

(** A policy kept by the environment filter: the policy it was made from,
    with a non-empty list of kept settings in place of its own. *)
Definition kept_policy (policy filtered : Policy) : Prop :=
  pol_name filtered = pol_name policy ∧
  pol_description filtered = pol_description policy ∧
  pol_defaultSetting filtered = pol_defaultSetting policy ∧
  ∃ policySetting settings kept,
    pol_settings filtered = Some (policySetting :: settings) ∧
    sublist kept (default [] (pol_settings policy)) ∧
    Forall2 kept_setting kept (policySetting :: settings).

(** The server view of the example user's policies. *)
Definition example_server_policies : list Policy :=
  match snd (SecurityService.filterPolicyContentByEnvironment (H := example_runtime)
               (SecurityService.ups_list example_user_policies) "server" world_after_load) with
  | Ok filtered => filtered
  | Throw _ => []
  end.
(** * Properties *)

(** ** Running the monad *)

Ltac mrun :=
  unfold assert, log in *; unfold emit in *;
  unfold bind, ret, throw, try_catch, get, modify in *; simpl in *.

Lemma bind_ok {A B} (m : M A) (k : A → M B) w w1 a :
  m w = (w1, Ok a) → bind m k w = k a w1.
Proof. intros E. unfold bind. by rewrite E. Qed.

Lemma bind_throw {A B} (m : M A) (k : A → M B) w w1 e :
  m w = (w1, Throw e) → bind m k w = (w1, Throw e).
Proof. intros E. unfold bind. by rewrite E. Qed.

Lemma bind_inv_ok {A B} (m : M A) (k : A → M B) w w' b :
  bind m k w = (w', Ok b) → ∃ w1 a, m w = (w1, Ok a) ∧ k a w1 = (w', Ok b).
Proof.
  unfold bind. destruct (m w) as [w1 [a|e]]; [eauto | discriminate].
Qed.

Lemma try_catch_inv_ok {A} (m : M A) (e' : Exn → Exn) w w' a :
  try_catch m (λ e, throw (e' e)) w = (w', Ok a) → m w = (w', Ok a).
Proof.
  unfold try_catch, throw. destruct (m w) as [w1 [x|e]]; [done | discriminate].
Qed.

Lemma assert_inv_ok c msg w w' u :
  assert c msg w = (w', Ok u) → c = true ∧ w' = w.
Proof. destruct c; mrun; [by inversion 1 | discriminate]. Qed.

Lemma extends_nil w : extends w [] = w.
Proof. unfold extends, set_trace. rewrite app_nil_r. by destruct w. Qed.

Lemma extends_app w evs evs' : extends (extends w evs) evs' = extends w (evs ++ evs').
Proof. unfold extends, set_trace. simpl. by rewrite app_assoc. Qed.

(** ** Strings *)

Lemma prefix_append (s t : string) : String.prefix s (s +:+ t) = true.
Proof.
  induction s as [|c s IH]; simpl; [by destruct t |].
  destruct (Ascii.ascii_dec c c); [done | congruence].
Qed.

Lemma includes_here (s t : string) : includes s (s +:+ t) = true.
Proof.
  destruct s as [|c s]; [by destruct t |].
  change (String.prefix (String c s) (String c s +:+ t) || includes (String c s) (s +:+ t) = true).
  by rewrite prefix_append.
Qed.

Lemma includes_later (s a t : string) : includes s t = true → includes s (a +:+ t) = true.
Proof.
  intros Hs. induction a as [|c a IH]; simpl; [done |].
  rewrite IH. apply orb_true_r.
Qed.

Lemma append_assoc_s (a b c : string) : (a +:+ b) +:+ c = a +:+ (b +:+ c).
Proof.
  induction a as [|x a IH]; [done |].
  change (String x ((a +:+ b) +:+ c) = String x (a +:+ (b +:+ c))). by rewrite IH.
Qed.

(** A message that contains [s] in brackets names [s]. *)
Lemma includes_middle (a s b : string) : includes s (a +:+ s +:+ b) = true.
Proof. apply includes_later, includes_here. Qed.


(** ** Resolution *)

Section Resolution.
Context `{JsRuntime}.
Import UserPolicy.

Lemma checkIfEnabled_run c contextParams w :
  ∃ evs, checkIfEnabled c contextParams w = (extends w evs, answer c contextParams).
Proof.
  unfold answer. destruct c as [|[f|v] ps]; simpl.
  - exists []. by rewrite extends_nil.
  - mrun. destruct (f (ps_params ps) contextParams); eexists; reflexivity.
  - mrun. exists []. by rewrite extends_nil.
Qed.

Lemma computeResourceSetting_run protectedResource contextParams w :
  ∃ evs, computeResourceSetting protectedResource contextParams w
         = (extends w evs, resolve protectedResource contextParams).
Proof.
  unfold computeResourceSetting, resolve.
  match goal with |- context [foldM ?f] => set (step := f) end.
  assert (Hloop : ∀ l acc w, ∃ evs,
            foldM step acc l w = (extends w evs, pick contextParams acc l)).
  { induction l as [|rc l IH]; intros acc w'; simpl.
    - exists []. by rewrite extends_nil.
    - destruct (checkIfEnabled_run (cps_checkIfEnabled (rc_policySetting rc)) contextParams w')
        as [evs Hrun].
      destruct (answer (cps_checkIfEnabled (rc_policySetting rc)) contextParams) as [v|e] eqn:Ha.
      + destruct (IH (if truthy v then choose acc (rc_setting rc) else acc) (extends w' evs))
          as [evs' IH'].
        exists (evs ++ evs'). rewrite <- extends_app, <- IH'.
        unfold step at 1. unfold bind. rewrite Hrun.
        unfold choose, ret. destruct (truthy v); [destruct acc as [final|] |]; try reflexivity.
        destruct (js_gt _ _); reflexivity.
      + exists evs. unfold step at 1. unfold bind. by rewrite Hrun. }
  destruct (Hloop (pro_settings protectedResource) None w) as [evs Hrun].
  exists evs. unfold bind. rewrite Hrun.
  destruct (pick contextParams None (pro_settings protectedResource)) as [[s|]|e]; reflexivity.
Qed.

(** Resolution answers the same in every state. *)
Lemma computeResourceSetting_result protectedResource contextParams w :
  snd (computeResourceSetting protectedResource contextParams w)
  = resolve protectedResource contextParams.
Proof.
  destruct (computeResourceSetting_run protectedResource contextParams w) as [evs ->]. done.
Qed.

Lemma pick_disabled contextParams acc l :
  Forall (disabled contextParams) l → pick contextParams acc l = Ok acc.
Proof.
  induction 1 as [|rc l (v & Hv & Hf) _ IH]; simpl; [done |].
  by rewrite Hv, Hf.
Qed.

(** Starting from a chosen setting of priority [p]: either it stays, and no
    enabled entry is below [p]; or the first entry of least priority wins. *)
Lemma pick_from_some contextParams l :
  Forall (λ rc, enabled contextParams rc ∨ disabled contextParams rc) l →
  Forall (λ rc, enabled contextParams rc → ∃ n, priority_is rc n) l →
  ∀ s p, prop s "priority" = JNum p →
  (pick contextParams (Some s) l = Ok (Some s) ∧
   Forall (λ rc, enabled contextParams rc → ∀ m, priority_is rc m → (p ≤ m)%Z) l)
  ∨ (∃ l1 rc l2 n,
       l = l1 ++ rc :: l2 ∧ enabled contextParams rc ∧ priority_is rc n ∧ (n < p)%Z ∧
       Forall (λ rc', enabled contextParams rc' → ∀ m, priority_is rc' m → (n < m)%Z) l1 ∧
       Forall (λ rc', enabled contextParams rc' → ∀ m, priority_is rc' m → (n ≤ m)%Z) l2 ∧
       pick contextParams (Some s) l = Ok (Some (rc_setting rc))).
Proof.
  induction l as [|rc l IH]; intros Hev Hnum s p Hp.
  { left. split; [done | constructor]. }
  apply Forall_cons in Hev as [Hrc Hev]. apply Forall_cons in Hnum as [Hn Hnum].
  simpl. destruct Hrc as [Hen | Hdis].
  - destruct (Hn Hen) as [q Hq]. pose proof Hen as (v & Hv & Ht).
    rewrite Hv, Ht. simpl. rewrite Hp. unfold priority_is in Hq. rewrite Hq, js_gt_num.
    case_bool_decide as Hlt.
    + destruct (IH Hev Hnum (rc_setting rc) q Hq)
        as [[Hpick Hall] | (l1 & rc' & l2 & n & -> & Hen' & Hn' & Hlt' & H1 & H2 & Hpick)].
      * right. exists [], rc, l, q. repeat split; done.
      * right. exists (rc :: l1), rc', l2, n. repeat split; try done; [lia |].
        constructor; [| done]. intros _ m Hm. unfold priority_is in Hm.
        rewrite Hq in Hm. inversion Hm. lia.
    + destruct (IH Hev Hnum s p Hp)
        as [[Hpick Hall] | (l1 & rc' & l2 & n & -> & Hen' & Hn' & Hlt' & H1 & H2 & Hpick)].
      * left. split; [done |]. constructor; [| done].
        intros _ m Hm. unfold priority_is in Hm. rewrite Hq in Hm. inversion Hm. lia.
      * right. exists (rc :: l1), rc', l2, n. repeat split; try done.
        constructor; [| done]. intros _ m Hm. unfold priority_is in Hm.
        rewrite Hq in Hm. inversion Hm. lia.
  - destruct Hdis as (v & Hv & Hf). rewrite Hv, Hf.
    assert (Hnot : ¬ enabled contextParams rc).
    { intros (v' & Hv' & Ht). rewrite Hv in Hv'. inversion Hv'. congruence. }
    destruct (IH Hev Hnum s p Hp)
      as [[Hpick Hall] | (l1 & rc' & l2 & n & -> & Hen' & Hn' & Hlt' & H1 & H2 & Hpick)].
    + left. split; [done |]. constructor; [| done]. intros Hen. by destruct Hnot.
    + right. exists (rc :: l1), rc', l2, n. repeat split; try done.
      constructor; [| done]. intros Hen. by destruct Hnot.
Qed.

Lemma pick_from_none contextParams l :
  Forall (λ rc, enabled contextParams rc ∨ disabled contextParams rc) l →
  Forall (λ rc, enabled contextParams rc → ∃ n, priority_is rc n) l →
  Exists (enabled contextParams) l →
  ∃ l1 rc l2 n,
    l = l1 ++ rc :: l2 ∧ enabled contextParams rc ∧ priority_is rc n ∧
    Forall (λ rc', enabled contextParams rc' → ∀ m, priority_is rc' m → (n < m)%Z) l1 ∧
    Forall (λ rc', enabled contextParams rc' → ∀ m, priority_is rc' m → (n ≤ m)%Z) l2 ∧
    pick contextParams None l = Ok (Some (rc_setting rc)).
Proof.
  induction l as [|rc l IH]; intros Hev Hnum Hex; [by apply Exists_nil in Hex |].
  apply Forall_cons in Hev as [Hrc Hev]. apply Forall_cons in Hnum as [Hn Hnum].
  simpl. destruct Hrc as [Hen | Hdis].
  - destruct (Hn Hen) as [q Hq]. pose proof Hen as (v & Hv & Ht).
    rewrite Hv, Ht. simpl.
    destruct (pick_from_some contextParams l Hev Hnum (rc_setting rc) q Hq)
      as [[Hpick Hall] | (l1 & rc' & l2 & n & -> & Hen' & Hn' & Hlt' & H1 & H2 & Hpick)].
    + exists [], rc, l, q. repeat split; done.
    + exists (rc :: l1), rc', l2, n. repeat split; try done.
      constructor; [| done]. intros _ m Hm. unfold priority_is in Hm, Hq.
      rewrite Hq in Hm. inversion Hm. lia.
  - pose proof Hdis as (v & Hv & Hf). rewrite Hv, Hf.
    assert (Hnot : ¬ enabled contextParams rc).
    { intros (v' & Hv' & Ht). rewrite Hv in Hv'. inversion Hv'. congruence. }
    apply Exists_cons in Hex as [Hen | Hex]; [by destruct Hnot |].
    destruct (IH Hev Hnum Hex) as (l1 & rc' & l2 & n & -> & Hen' & Hn' & H1 & H2 & Hpick).
    exists (rc :: l1), rc', l2, n. repeat split; try done.
    constructor; [| done]. intros Hen. by destruct Hnot.
Qed.

(** An entry whose closure answers a falsy value leaves the loop as it is. *)
Lemma pick_skip contextParams rc l2 : disabled contextParams rc →
  ∀ l1 acc, pick contextParams acc (l1 ++ rc :: l2) = pick contextParams acc (l1 ++ l2).
Proof.
  intros (v & Hv & Hf). induction l1 as [|rc1 l1 IH]; intros acc; simpl.
  - by rewrite Hv, Hf.
  - destruct (answer (cps_checkIfEnabled (rc_policySetting rc1)) contextParams);
      [apply IH | done].
Qed.

End Resolution.

(** ** Loops *)

Lemma foldM_inv {A S} (f : S → A → M S) (I : S → Prop) (l : list A) :
  (∀ s x w w' s', x ∈ l → I s → f s x w = (w', Ok s') → I s') →
  ∀ s w w' s', I s → foldM f s l w = (w', Ok s') → I s'.
Proof.
  induction l as [|x l IH]; intros Hstep s w w' s' Hs Hrun; simpl in Hrun.
  - unfold ret in Hrun. by inversion Hrun; subst.
  - apply bind_inv_ok in Hrun as (w1 & s1 & Hx & Hrun).
    eapply IH; [| | exact Hrun].
    + intros ? ? ? ? ? Hin. apply Hstep. by right.
    + eapply Hstep; [by left | exact Hs | exact Hx].
Qed.

(** ** Compilation *)

Section Compilation.
Context `{JsRuntime}.
Variable getPolicyConditionFactory : string → M ConditionFactory.
Variable getResourceTypeFactory : ResourceType → M UserPolicy.Implementation.
Import UserPolicy.

(** The invariant of the resource map: keys are resource names, values are
    compiled from the security data. *)
Definition map_ok (securityData : SecurityData) (m : ResourceMap) : Prop :=
  Forall (λ kv, fst kv = show_str (r_name (pro_resource (snd kv))) ∧
                compiled_from securityData (snd kv)) m.

Lemma map_ok_set securityData k v m :
  map_ok securityData m →
  k = show_str (r_name (pro_resource v)) → compiled_from securityData v →
  map_ok securityData (map_set k v m).
Proof.
  intros Hm Hk Hv. induction Hm as [|[k' v'] m Hkv Hm IH]; simpl.
  - constructor; [by split | constructor].
  - destruct (String.eqb k' k); constructor; done.
Qed.

Lemma map_ok_get securityData k v m :
  map_ok securityData m → map_get k m = Some v →
  k = show_str (r_name (pro_resource v)) ∧ compiled_from securityData v.
Proof.
  induction 1 as [|[k' v'] m [Hk Hv] Hm IH]; simpl; [done |].
  destruct (String.eqb_spec k' k) as [-> | Hne]; [| done].
  inversion 1; subst. done.
Qed.

Lemma buildProtectedResources_ok securityData w w' m :
  buildProtectedResources getResourceTypeFactory
    (default [] (sd_dictionary securityData))
    (default [] (sd_resourceTypes securityData)) w = (w', Ok m) →
  map_ok securityData m.
Proof.
  unfold buildProtectedResources.
  apply (foldM_inv _ (map_ok securityData)); [| constructor].
  intros m0 d w0 w1 m1 Hd Hm0 Hstep.
  destruct (List.find _ _) as [type|] eqn:Hfind; [| discriminate].
  apply bind_inv_ok in Hstep as (w2 & pr & Hbuild & Hret).
  unfold ret in Hret. inversion Hret; subst. clear Hret.
  unfold buildProtectedResourceObject in Hbuild.
  apply bind_inv_ok in Hbuild as (w3 & impl & _ & Hret).
  unfold ret in Hret. inversion Hret; subst. clear Hret.
  apply map_ok_set; [done | done |].
  split; [| constructor]. exists d. split; [done |]. by repeat split.
Qed.

Lemma addPolicyResourceSettingToProtectedResource_ok securityData grant policySetting m w w' m' :
  grant ∈ grants_of (default [] (sd_policies securityData)) →
  map_ok securityData m →
  addPolicyResourceSettingToProtectedResource grant
    (map_get (show_str (prc_resource grant)) m) policySetting m w = (w', Ok m') →
  map_ok securityData m'.
Proof.
  intros Hg Hm Hrun. unfold addPolicyResourceSettingToProtectedResource in Hrun.
  destruct (map_get _ m) as [pr|] eqn:Hget; [| discriminate].
  unfold ret in Hrun. inversion Hrun; subst. clear Hrun.
  destruct (map_ok_get _ _ _ _ Hm Hget) as [Hk [Hres Hentries]].
  apply map_ok_set; [done | done |].
  split; [done |]. simpl. apply Forall_app. split; [done |].
  constructor; [| constructor]. exists grant. split; [done |]. by repeat split.
Qed.

Lemma grants_of_elem policies policy settings policySetting grants grant :
  policy ∈ policies → pol_settings policy = Some settings →
  policySetting ∈ settings → ps_protectedResources policySetting = Some grants →
  grant ∈ grants → grant ∈ grants_of policies.
Proof.
  intros Hp Hs Hps Hg Hin. unfold grants_of.
  apply list_elem_of_In, in_concat. eexists. split.
  - apply in_map_iff. exists policy. split; [reflexivity | by apply list_elem_of_In].
  - apply in_concat. eexists. split.
    + apply in_map_iff. exists policySetting. rewrite Hs. split; [reflexivity |].
      by apply list_elem_of_In.
    + rewrite Hg. by apply list_elem_of_In.
Qed.

Lemma addProtectedResourcePreferences_ok securityData m w w' m' :
  map_ok securityData m →
  addProtectedResourcePreferences getPolicyConditionFactory
    (default [] (sd_policies securityData)) m w = (w', Ok m') →
  map_ok securityData m'.
Proof.
  intros Hm. unfold addProtectedResourcePreferences.
  apply (foldM_inv _ (map_ok securityData)); [| done].
  intros m0 policy w0 w1 m1 Hp Hm0.
  destruct (pol_settings policy) as [settings|] eqn:Hs; [| discriminate].
  apply (foldM_inv _ (map_ok securityData)); [| done].
  intros m2 policySetting w2 w3 m3 Hps Hm2 Hstep.
  apply bind_inv_ok in Hstep as (w4 & c & _ & Hstep).
  destruct (ps_protectedResources policySetting) as [grants|] eqn:Hg; [| discriminate].
  revert Hstep. apply (foldM_inv _ (map_ok securityData)); [| done].
  intros m4 grant w5 w6 m5 Hin Hm4 Hstep.
  apply try_catch_inv_ok in Hstep.
  eapply addPolicyResourceSettingToProtectedResource_ok; [| exact Hm4 | exact Hstep].
  eapply grants_of_elem; eauto.
Qed.

Lemma compileSecurityData_ok securityData w w' protectedResourceList :
  compileSecurityData getPolicyConditionFactory getResourceTypeFactory securityData w
    = (w', Ok protectedResourceList) →
  Forall (compiled_from securityData) protectedResourceList.
Proof.
  unfold compileSecurityData. intros Hrun.
  apply bind_inv_ok in Hrun as (w1 & m1 & Hbuild & Hrun).
  apply bind_inv_ok in Hrun as (w2 & m2 & Hadd & Hret).
  unfold ret in Hret. inversion Hret; subst. clear Hret.
  apply buildProtectedResources_ok in Hbuild.
  eapply addProtectedResourcePreferences_ok in Hadd; [| exact Hbuild].
  apply Forall_fmap. eapply Forall_impl; [exact Hadd |]. by intros kv [_ ?].
Qed.

End Compilation.

(** ** Resolution: the claims *)

Section ResolutionClaims.
Context `{JsRuntime}.
Import UserPolicy.

(** C1. Priority resolution.  For a protected resource whose contributed
    entries all answer for [contextParams] (enabled or disabled), whose
    enabled entries carry a numeric priority, and with at least one enabled
    entry, [calculateSetting] returns the setting of the enabled entry of
    lowest priority; among entries of equal lowest priority it is the one
    contributed first (every enabled entry before it has a strictly higher
    priority).  The answer is the same in every state the call is made
    from. *)
Theorem resolution_returns_first_lowest_priority
    (protectedResource : ProtectedResourceObject) (contextParams : ContextParams) :
  Forall (λ rc, enabled contextParams rc ∨ disabled contextParams rc)
         (pro_settings protectedResource) →
  Forall (λ rc, enabled contextParams rc → ∃ n, priority_is rc n)
         (pro_settings protectedResource) →
  Exists (enabled contextParams) (pro_settings protectedResource) →
  ∃ before winner after n,
    pro_settings protectedResource = before ++ winner :: after ∧
    enabled contextParams winner ∧ priority_is winner n ∧
    Forall (λ rc, enabled contextParams rc → ∀ m, priority_is rc m → (n < m)%Z) before ∧
    Forall (λ rc, enabled contextParams rc → ∀ m, priority_is rc m → (n ≤ m)%Z) after ∧
    ∀ w, ∃ evs, calculateSetting protectedResource contextParams w
                = (extends w evs, Ok (rc_setting winner)).
Proof.
  intros Hev Hnum Hex.
  destruct (pick_from_none contextParams _ Hev Hnum Hex)
    as (l1 & rc & l2 & n & Hl & Hen & Hn & H1 & H2 & Hpick).
  exists l1, rc, l2, n. repeat split; try done.
  intros w. destruct (computeResourceSetting_run protectedResource contextParams w) as [evs Hrun].
  exists evs. unfold calculateSetting. rewrite Hrun. unfold resolve. by rewrite Hpick.
Qed.

(** C3. Condition gating.  A policy setting without a condition compiles to
    the closure that answers [true] for every [contextParams].  A policy
    setting whose condition names a predicate (factory name before the first
    period, function name after it) that answers a falsy value for
    [contextParams] compiles to a closure that answers that value, and an
    entry guarded by it is left out of the selection: resolution gives the
    same result as without the entry. *)
Theorem condition_gating (getPolicyConditionFactory : string → M ConditionFactory)
    (policySetting : PolicySettingConfig) (contextParams : ContextParams) :
  (truthy_str (ps_condition policySetting) = false →
   ∀ w, getPolicyConditionImplementation getPolicyConditionFactory policySetting w
        = (w, Ok AlwaysEnabled) ∧
        ∀ contextParams' w', checkIfEnabled AlwaysEnabled contextParams' w'
                             = (w', Ok (JBool true))) ∧
  (∀ condition period conditionGroup f v w w1,
     ps_condition policySetting = Some condition →
     truthy_str (Some condition) = true →
     String.index 0 "." condition = Some period →
     getPolicyConditionFactory (String.substring 0 period condition) w
       = (w1, Ok conditionGroup) →
     member conditionGroup
       (String.substring (period + 1) (String.length condition - (period + 1)) condition)
       = Some (MFn f) →
     f (ps_params policySetting) contextParams = Ok v →
     truthy v = false →
     ∃ closure,
       getPolicyConditionImplementation getPolicyConditionFactory policySetting w
         = (w1, Ok closure) ∧
       (∀ w', ∃ evs, checkIfEnabled closure contextParams w' = (extends w' evs, Ok v)) ∧
       ∀ resourceConfig protectedResource before after w',
         cps_checkIfEnabled (rc_policySetting resourceConfig) = closure →
         snd (calculateSetting
                (with_settings protectedResource (before ++ resourceConfig :: after))
                contextParams w')
         = snd (calculateSetting (with_settings protectedResource (before ++ after))
                                 contextParams w')).
Proof.
  split.
  - intros Hcond w. split.
    + unfold getPolicyConditionImplementation. by rewrite Hcond.
    + done.
  - intros condition period conditionGroup f v w w1 Hc Ht Hidx Hfac Hmem Hf Hv.
    exists (ConditionCall (MFn f) policySetting).
    assert (Hanswer : answer (ConditionCall (MFn f) policySetting) contextParams = Ok v).
    { unfold answer. simpl. mrun. by rewrite Hf. }
    split; [| split].
    + unfold getPolicyConditionImplementation. rewrite Hc. rewrite Ht. simpl.
      rewrite Hidx. unfold try_catch, bind. rewrite Hfac. by rewrite Hmem.
    + intros w'. destruct (checkIfEnabled_run (ConditionCall (MFn f) policySetting)
                             contextParams w') as [evs Hrun].
      exists evs. by rewrite Hrun, Hanswer.
    + intros rc pr l1 l2 w' Hrc. unfold calculateSetting.
      rewrite !computeResourceSetting_result. unfold resolve. simpl.
      rewrite pick_skip; [done |]. exists v. by rewrite Hrc.
Qed.

End ResolutionClaims.

(** C1 on the hand-compiled menu item: for a caller that is not the owner the
    gated [hide] is disabled, and of the two [show] entries of priority 1 the
    first one is returned. *)
Lemma resolution_returns_first_lowest_priority_witness :
  ∃ before winner after n,
    UserPolicy.pro_settings account_menu_object = before ++ winner :: after ∧
    enabled (H := example_runtime) not_owner winner ∧ priority_is winner n ∧
    Forall (λ rc, enabled (H := example_runtime) not_owner rc →
                  ∀ m, priority_is rc m → (n < m)%Z) before ∧
    Forall (λ rc, enabled (H := example_runtime) not_owner rc →
                  ∀ m, priority_is rc m → (n ≤ m)%Z) after ∧
    ∀ w, ∃ evs, UserPolicy.calculateSetting (H := example_runtime)
                  account_menu_object not_owner w
                = (extends w evs, Ok (UserPolicy.rc_setting winner)).
Proof.
  apply (resolution_returns_first_lowest_priority (H := example_runtime)
           account_menu_object not_owner).
  - repeat apply Forall_cons_2; [right | left | left | apply Forall_nil_2];
      eexists; split; vm_compute; reflexivity.
  - repeat apply Forall_cons_2; [| | | apply Forall_nil_2]; intros _.
    + exists 0%Z. reflexivity.
    + exists 1%Z. reflexivity.
    + exists 1%Z. reflexivity.
  - apply Exists_cons_tl, Exists_cons_hd. eexists; split; vm_compute; reflexivity.
Defined.

(** C3 on the example factory: a setting without condition, and the setting
    gated by [acl.isOwner] for a caller that is not the owner. *)
Lemma condition_gating_witness :
  (∀ w, UserPolicy.getPolicyConditionImplementation
          (λ _, ret acl) (policy_setting "read" None []) w
        = (w, Ok UserPolicy.AlwaysEnabled)) ∧
  ∃ closure,
    UserPolicy.getPolicyConditionImplementation
      (λ _, ret acl) (policy_setting "owner" (Some "acl.isOwner") []) initial_world
      = (initial_world, Ok closure) ∧
    snd (UserPolicy.checkIfEnabled (H := example_runtime) closure not_owner initial_world)
      = Ok (JBool false).
Proof.
  split.
  - intros w.
    apply (proj1 (condition_gating (H := example_runtime) (λ _, ret acl)
                    (policy_setting "read" None []) None) eq_refl w).
  - destruct (proj2 (condition_gating (H := example_runtime) (λ _, ret acl)
                       (policy_setting "owner" (Some "acl.isOwner") []) not_owner)
                "acl.isOwner" 3 acl isOwner (JBool false) initial_world initial_world
                eq_refl eq_refl eq_refl eq_refl eq_refl eq_refl eq_refl)
      as (closure & Hc & Hrun & _).
    exists closure. split; [exact Hc |].
    destruct (Hrun initial_world) as [evs ->]. reflexivity.
Defined.

(** ** Compiled data: the claims *)

Section CompilationClaims.
Context `{JsRuntime}.
Variable getPolicyConditionFactory : string → M ConditionFactory.
Variable getResourceTypeFactory : ResourceType → M UserPolicy.Implementation.
Import UserPolicy.

Lemma assign_lookup (params definition : option obj) (k : string) :
  assign params definition !! k =
  match definition ≫= (λ d, d !! k) with
  | Some v => Some v
  | None => params ≫= (λ p, p !! k)
  end.
Proof.
  unfold assign. rewrite lookup_union.
  destruct definition as [d|], params as [p|]; simpl;
    rewrite ?lookup_empty; try destruct (d !! k); try destruct (p !! k); done.
Qed.

(** C2. Default fallback.  For a protected resource compiled from the
    security data whose contributed entries are all disabled for
    [contextParams] (in particular when it has none), [calculateSetting]
    returns the resource's default setting, which is the setting object built
    from the [defaultSetting] and [params] its dictionary entry declares;
    when the resource type defines that setting, the returned [value] is the
    declared [defaultSetting]. *)
Theorem resolution_falls_back_to_default_setting
    (securityData : SecurityData) (w0 w1 : World)
    (protectedResourceList : list ProtectedResourceObject)
    (protectedResource : ProtectedResourceObject) (contextParams : ContextParams) :
  compileSecurityData getPolicyConditionFactory getResourceTypeFactory securityData w0
    = (w1, Ok protectedResourceList) →
  protectedResource ∈ protectedResourceList →
  Forall (disabled contextParams) (pro_settings protectedResource) →
  ∃ resourceData type,
    resourceData ∈ default [] (sd_dictionary securityData) ∧
    r_name (pro_resource protectedResource) = res_name resourceData ∧
    List.find (λ t, matches (rt_name t) (res_type resourceData))
              (default [] (sd_resourceTypes securityData)) = Some type ∧
    r_defaultSetting (pro_resource protectedResource)
      = buildResourceSettingObject type (res_defaultSetting resourceData)
                                   (res_params resourceData) ∧
    (is_Some (find_by_value (rt_settings type) (res_defaultSetting resourceData)) →
     r_defaultSetting (pro_resource protectedResource) !! "value"
       = Some (from_option JStr JUndefined (res_defaultSetting resourceData))) ∧
    ∀ w, ∃ evs, calculateSetting protectedResource contextParams w
                = (extends w evs, Ok (r_defaultSetting (pro_resource protectedResource))).
Proof.
  intros Hcompile Hin Hdis.
  apply compileSecurityData_ok in Hcompile.
  rewrite Forall_forall in Hcompile.
  destruct (Hcompile _ Hin) as [(d & Hd & Hfind & Hname & _ & _ & Hdef) _].
  exists d, (r_type (pro_resource protectedResource)).
  repeat split; try done.
  - intros [def Hdefn]. rewrite Hdef. unfold buildResourceSettingObject.
    rewrite assign_lookup, Hdefn. simpl.
    unfold find_by_value in Hdefn. apply find_some in Hdefn as [_ Hv].
    apply bool_decide_eq_true in Hv. by rewrite Hv.
  - intros w.
    destruct (computeResourceSetting_run protectedResource contextParams w) as [evs Hrun].
    exists evs. unfold calculateSetting. rewrite Hrun. unfold resolve.
    by rewrite (pick_disabled _ _ _ Hdis).
Qed.




End CompilationClaims.

(** C2 on the compiled example: the server operation is only granted under
    [acl.isOwner]; for a caller that is not the owner its dictionary default
    [deny] is returned. *)
Lemma resolution_falls_back_to_default_setting_witness :
  ∃ evs, UserPolicy.calculateSetting (H := example_runtime)
           account_update_object not_owner initial_world
         = (extends initial_world evs, Ok (setting_definition "deny" 0)).
Proof.
  destruct (resolution_falls_back_to_default_setting (H := example_runtime)
              (λ _, ret acl) SecurityService.getResourceTypeFactory
              example_security_data initial_world (fst compiled_example)
              compiled_example_list account_update_object not_owner)
    as (d & t & _ & _ & _ & _ & _ & Hrun).
  - vm_compute. reflexivity.
  - apply list_elem_of_lookup. exists 2%nat. reflexivity.
  - apply Forall_cons_2; [| apply Forall_nil_2].
    exists (JBool false). split; vm_compute; reflexivity.
  - destruct (Hrun initial_world) as [evs E]. exists evs. rewrite E. reflexivity.
Defined.


(** The static [priority] of [off] wins over the [priority] of the params;
    [reason], which the definition does not have, comes from the params. *)
Example audit_entry_setting :
  UserPolicy.rc_setting account_audit_entry
  = {[ "value" := JStr "off"; "priority" := JNum 0; "reason" := JStr "gdpr" ]}.
Proof. vm_compute. reflexivity. Qed.

(** ** The loader *)

Lemma forEach_from_inv {A} (f : A → nat → M unit) (I : World → Prop) (Q : A → Prop)
    (l : list A) :
  (∀ x i w w' u, x ∈ l → I w → f x i w = (w', Ok u) → I w' ∧ Q x) →
  ∀ i w w' u, I w → forEach_from i l f w = (w', Ok u) → I w' ∧ Forall Q l.
Proof.
  induction l as [|x l IH]; intros Hstep i w w' u Hw Hrun; simpl in Hrun.
  - unfold ret in Hrun. inversion Hrun; subst. by split.
  - apply bind_inv_ok in Hrun as (w1 & [] & Hx & Hrun).
    destruct (Hstep x i w w1 tt) as [Hw1 Hq]; [by left | done | done |].
    destruct (IH (λ y j a b c Hy, Hstep y j a b c (list_elem_of_further _ _ _ Hy))
                 (S i) w1 w' u Hw1 Hrun) as [Hw' Hl].
    split; [done | by constructor].
Qed.

Lemma mapM_inv {A B} (f : A → M B) (I : World → Prop) (R : A → B → Prop) (l : list A) :
  (∀ x w w' y, x ∈ l → I w → f x w = (w', Ok y) → I w' ∧ R x y) →
  ∀ w w' ys, I w → mapM f l w = (w', Ok ys) → I w' ∧ Forall2 R l ys.
Proof.
  induction l as [|x l IH]; intros Hstep w w' ys Hw Hrun; simpl in Hrun.
  - unfold ret in Hrun. inversion Hrun; subst. by split.
  - apply bind_inv_ok in Hrun as (w1 & y & Hx & Hrun).
    apply bind_inv_ok in Hrun as (w2 & ys' & Hl & Hret).
    unfold ret in Hret. inversion Hret; subst. clear Hret.
    destruct (Hstep x w w1 y) as [Hw1 Hr]; [by left | done | done |].
    destruct (IH (λ a b c d Ha, Hstep a b c d (list_elem_of_further _ _ _ Ha))
                 w1 w' ys' Hw1 Hl) as [Hw' Hl'].
    split; [done | by constructor].
Qed.

Section Loader.
Context `{JsRuntime}.
Import SecurityDefinition.

Lemma findResourceType_run type w :
  findResourceType type w
  = (w, match type_named (resourceTypes w) type with
        | Some definition => Ok definition
        | None => Throw (Error ("Undefined resource type [" +:+ show_str type +:+ "]."))
        end).
Proof. unfold findResourceType, type_named. mrun. by destruct (List.find _ _). Qed.

Lemma findSetting_run typeName setting w :
  findSetting typeName setting w
  = (w, match type_named (resourceTypes w) typeName with
        | Some definition => Ok (find_by_value (rt_settings definition) setting)
        | None => Throw (Error ("Undefined resource type [" +:+ show_str typeName +:+ "]."))
        end).
Proof.
  unfold findSetting, bind. rewrite findResourceType_run.
  by destruct (type_named _ _).
Qed.

Lemma findProtectedResourceByName_run name w :
  findProtectedResourceByName name w = (w, Ok (resource_named (dictionary w) name)).
Proof. reflexivity. Qed.

Lemma type_named_app_l types types' type definition :
  type_named types type = Some definition →
  type_named (types ++ types') type = Some definition.
Proof.
  unfold type_named. induction types as [|t types IH]; simpl; [done |].
  destruct (matches (rt_name t) type); [done | apply IH].
Qed.

Lemma resource_named_elem dictionary name resource :
  resource_named dictionary name = Some resource →
  resource ∈ dictionary ∧ matches (res_name resource) name = true.
Proof.
  intros Hf. apply find_some in Hf as [Hin Hm]. split; [by apply list_elem_of_In | done].
Qed.

Lemma resource_named_is_Some dictionary name resource :
  resource ∈ dictionary → matches (res_name resource) name = true →
  is_Some (resource_named dictionary name).
Proof.
  intros Hin Hm. unfold resource_named.
  destruct (List.find _ dictionary) as [r|] eqn:Hf; [eauto |].
  apply list_elem_of_In in Hin.
  pose proof (find_none _ _ Hf _ Hin) as Hn. simpl in Hn. congruence.
Qed.

(** What a successful [addResourceType] did. *)
Lemma addResourceType_inv resourceType w w' u :
  addResourceType resourceType w = (w', Ok u) →
  is_Some (rt_env resourceType) ∧
  resourceTypes w' = resourceTypes w ++ [resourceType] ∧
  dictionary w' = dictionary w ∧ policies w' = policies w ∧
  conditionFactories w' = conditionFactories w ∧
  findRole w' = findRole w ∧ systemSecurityData w' = systemSecurityData w.
Proof.
  unfold addResourceType. intros Hrun. mrun.
  repeat case_match; simplify_eq; simpl; eauto 10.
Qed.

Lemma initializeResourceTypes_inv resourceTypeList conditionFactoryList w w' u :
  initializeResourceTypes resourceTypeList conditionFactoryList w = (w', Ok u) →
  Forall (λ type, is_Some (rt_env type)) (resourceTypes w') ∧
  resourceTypes w' = default [] resourceTypeList ∧
  conditionFactories w' = conditionFactoryList ∧
  findRole w' = findRole w ∧ systemSecurityData w' = systemSecurityData w.
Proof.
  unfold initializeResourceTypes. intros Hrun.
  apply bind_inv_ok in Hrun as (w1 & [] & Hset & Hrun).
  apply bind_inv_ok in Hrun as (w2 & [] & Hcf & Hrun).
  apply bind_inv_ok in Hrun as (w3 & [] & Hrt & Hrun).
  mrun. simplify_eq. destruct conditionFactoryList as [cfl|]; simplify_eq.
  set (w0 := set_resourceTypes [] (set_conditionFactories (Some cfl) w)) in *.
  assert (Hgen : ∀ l i w1 w' u,
    forEach_from i l (λ resourceType typeName,
      (λ w, match addResourceType resourceType w with
            | (w', Ok a) => (w', Ok a)
            | (w', Throw e) =>
                (w', Throw (append_message e
                   (" - invalid resource type [" +:+ pretty typeName +:+ "]: " +:+
                    stringify_resourceType resourceType)))
            end)) w1 = (w', Ok u) →
    Forall (λ type, is_Some (rt_env type)) (resourceTypes w1) →
    Forall (λ type, is_Some (rt_env type)) (resourceTypes w') ∧
    resourceTypes w' = resourceTypes w1 ++ l ∧
    conditionFactories w' = conditionFactories w1 ∧
    findRole w' = findRole w1 ∧ systemSecurityData w' = systemSecurityData w1).
  { induction l as [|x l IH]; intros i wa wb ub Hl Hall; simpl in Hl.
    - inversion Hl; subst. rewrite app_nil_r. done.
    - apply bind_inv_ok in Hl as (wc & [] & Hx & Hl).
      destruct (addResourceType x wa) as [wd [a|e]] eqn:Hadd; simplify_eq.
      apply addResourceType_inv in Hadd as (Henv & Hts & _ & _ & Hcf' & Hfr & Hssd).
      destruct (IH _ _ _ _ Hl) as (Hall' & Hts' & Hcf'' & Hfr' & Hssd').
      { rewrite Hts. apply Forall_app. split; [done | by constructor]. }
      split; [done |]. rewrite Hts', Hts, <- app_assoc. simpl.
      repeat split; congruence. }
  destruct (Hgen _ _ _ _ _ Hrun) as (Hall & Hts & Hcf' & Hfr & Hssd); [constructor |].
  repeat split; try done.
Qed.

(** What a successful [addResourceToDictionary] did. *)
Lemma addResourceToDictionary_inv protectedResource w w' u :
  addResourceToDictionary protectedResource w = (w', Ok u) →
  (∃ stored,
     dictionary w' = dictionary w ++ [stored] ∧
     res_name stored = res_name protectedResource ∧
     res_type stored = res_type protectedResource ∧
     is_Some (type_named (resourceTypes w) (res_type stored))) ∧
  resourceTypes w' = resourceTypes w ∧
  conditionFactories w' = conditionFactories w ∧
  findRole w' = findRole w ∧ systemSecurityData w' = systemSecurityData w.
Proof.
  unfold addResourceToDictionary. intros Hrun.
  repeat (apply bind_inv_ok in Hrun as (? & ? & ?Hstep & Hrun)).
  rewrite findResourceType_run in *. rewrite findSetting_run in *.
  mrun. repeat case_match; simplify_eq; simpl.
  split; [| done]. eexists. split; [reflexivity |]. simpl. eauto.
Qed.

Lemma forEach_inv {A} (f : A → M unit) (I : World → Prop) (Q : A → Prop) (l : list A) :
  (∀ x w w' u, x ∈ l → I w → f x w = (w', Ok u) → I w' ∧ Q x) →
  ∀ w w' u, I w → forEach l f w = (w', Ok u) → I w' ∧ Forall Q l.
Proof.
  intros Hstep w w' u. unfold forEach.
  apply (forEach_from_inv (λ x _, f x) I Q l). intros x _. apply Hstep.
Qed.

Lemma initializeDictionary_inv protectedResources w w' u :
  initializeDictionary protectedResources w = (w', Ok u) →
  ∃ l, protectedResources = Some l ∧
    resourceTypes w' = resourceTypes w ∧ same_service w w' ∧
    Forall (λ stored,
        is_Some (type_named (resourceTypes w) (res_type stored)) ∧
        ∃ resource, resource ∈ l ∧ res_name resource = res_name stored)
      (dictionary w').
Proof.
  unfold initializeDictionary. intros Hrun.
  apply bind_inv_ok in Hrun as (w1 & [] & Hset & Hrun).
  destruct protectedResources as [l|]; [| discriminate]. exists l. split; [done |].
  unfold modify in Hset. simplify_eq.
  set (I := λ wx : World,
    resourceTypes wx = resourceTypes w ∧ same_service w wx ∧
    Forall (λ stored,
        is_Some (type_named (resourceTypes w) (res_type stored)) ∧
        ∃ resource, resource ∈ l ∧ res_name resource = res_name stored)
      (dictionary wx)).
  assert (HI : I w' ∧ Forall (λ _, True) l).
  { eapply (forEach_inv _ I); [| | exact Hrun].
    - intros x wa wb ub Hx (Hts & (Hcf & Hfr & Hssd) & Hall) Hstep.
      apply try_catch_inv_ok in Hstep.
      apply addResourceToDictionary_inv in Hstep
        as ((stored & Hd & Hname & Htype & Hres) & Hts' & Hcf' & Hfr' & Hssd').
      split; [| done]. unfold I, same_service. repeat split; try congruence.
      rewrite Hd. apply Forall_app. split; [done |].
      constructor; [| constructor]. split; [by rewrite <- Hts | eauto].
    - unfold I, same_service. simpl. repeat split; constructor. }
  destruct HI as [(Hts & Hsame & Hall) _]. done.
Qed.

Lemma checkPolicyProtectedResource_inv config w w' u :
  checkPolicyProtectedResource config w = (w', Ok u) →
  w' = w ∧ grant_resolves (dictionary w) config.
Proof.
  unfold checkPolicyProtectedResource, grant_resolves. intros Hrun.
  apply bind_inv_ok in Hrun as (w1 & r & Hfind & Hrun).
  rewrite findProtectedResourceByName_run in Hfind. simplify_eq.
  destruct (resource_named _ _) as [r|]; [| discriminate].
  split; [| eauto].
  repeat (apply bind_inv_ok in Hrun as (? & ? & ?Hstep & Hrun)).
  rewrite findResourceType_run in *. rewrite findSetting_run in *.
  mrun. repeat case_match; simplify_eq; done.
Qed.

Lemma checkPolicySetting_inv config w w' stored :
  checkPolicySetting config w = (w', Ok stored) →
  w' = w ∧ setting_resolves (dictionary w) stored ∧
  ps_protectedResources stored = Some (default [] (ps_protectedResources config)).
Proof.
  unfold checkPolicySetting. intros Hrun.
  apply bind_inv_ok in Hrun as (w1 & [] & Hassert & Hrun).
  apply assert_inv_ok in Hassert as [_ ->].
  destruct (ps_protectedResources config) as [grants|] eqn:Hg.
  - apply bind_inv_ok in Hrun as (w2 & [] & Hloop & Hret).
    unfold ret in Hret. simplify_eq.
    assert (HI : w' = w ∧ Forall (grant_resolves (dictionary w)) grants).
    { eapply (forEach_inv _ (λ wx, wx = w)); [| reflexivity | exact Hloop].
      intros g wa wb ub _ -> Hstep. apply try_catch_inv_ok in Hstep.
      by apply checkPolicyProtectedResource_inv in Hstep as [-> ?]. }
    destruct HI as [-> Hall]. split; [done |]. split; [| by rewrite Hg].
    exists grants. by rewrite Hg.
  - unfold ret in Hrun. simplify_eq. split; [done |]. split; [| done].
    exists []. split; [done | constructor].
Qed.

Lemma grants_of_cons policy policies :
  grants_of (policy :: policies) = grants_of [policy] ++ grants_of policies.
Proof. unfold grants_of. simpl. by rewrite app_nil_r. Qed.

Lemma addPolicy_inv policy w w' u :
  addPolicy policy w = (w', Ok u) →
  (∃ stored, policies w' = policies w ++ [stored] ∧
             policy_resolves (dictionary w) stored) ∧
  Forall (grant_resolves (dictionary w)) (grants_of [policy]) ∧
  dictionary w' = dictionary w ∧ resourceTypes w' = resourceTypes w ∧ same_service w w'.
Proof.
  unfold addPolicy. intros Hrun.
  apply bind_inv_ok in Hrun as (w1 & [] & Hassert & Hrun).
  apply assert_inv_ok in Hassert as [_ ->].
  apply bind_inv_ok in Hrun as (w1 & [] & Hlog & Hrun).
  unfold log, emit, modify in Hlog. simplify_eq.
  destruct (pol_settings policy) as [settings|] eqn:Hs; [| discriminate].
  apply bind_inv_ok in Hrun as (w1 & w1' & Hget & Hrun). unfold get in Hget. simplify_eq.
  apply bind_inv_ok in Hrun as (w2 & [] & Hassert & Hrun).
  apply assert_inv_ok in Hassert as [_ ->].
  apply bind_inv_ok in Hrun as (w3 & settings' & Hmap & Hrun).
  apply bind_inv_ok in Hrun as (w4 & [] & Hdefault & Hrun).
  set (w1 := set_trace _ w) in *.
  assert (HI : w3 = w1 ∧
    Forall2 (λ config stored,
      setting_resolves (dictionary w) stored ∧
      ps_protectedResources stored = Some (default [] (ps_protectedResources config)))
      settings settings').
  { eapply (mapM_inv _ (λ wx, wx = w1)); [| reflexivity | exact Hmap].
    intros x wa wb y _ -> Hstep. apply try_catch_inv_ok in Hstep.
    by apply checkPolicySetting_inv in Hstep as (-> & ? & ?). }
  destruct HI as [-> Hall].
  assert (w4 = w1) as ->.
  { destruct (truthy_str (pol_defaultSetting policy)).
    - by apply assert_inv_ok in Hdefault as [_ ->].
    - unfold ret in Hdefault. by simplify_eq. }
  unfold modify in Hrun. simplify_eq. simpl.
  split; [| split]; [| | done].
  - eexists. split; [reflexivity |]. eexists. split; [reflexivity |].
    clear -Hall. induction Hall as [|? ? ? ? [? _]]; by constructor.
  - unfold grants_of. simpl. rewrite Hs, app_nil_r.
    clear -Hall. induction Hall as [|x y l l' [(gs & Hgs & Hres) Heq] _ IH]; simpl.
    + constructor.
    + apply Forall_app. split; [| done].
      rewrite Hgs in Heq. by simplify_eq.
Qed.

Lemma initializePolicies_inv policyList w w' u :
  initializePolicies policyList w = (w', Ok u) →
  dictionary w' = dictionary w ∧ resourceTypes w' = resourceTypes w ∧ same_service w w' ∧
  Forall (policy_resolves (dictionary w)) (policies w') ∧
  Forall (grant_resolves (dictionary w)) (grants_of (default [] policyList)).
Proof.
  unfold initializePolicies. intros Hrun.
  apply bind_inv_ok in Hrun as (w1 & [] & Hset & Hrun).
  destruct policyList as [l|]; [| discriminate].
  unfold modify in Hset. simplify_eq.
  set (I := λ wx : World,
    dictionary wx = dictionary w ∧ resourceTypes wx = resourceTypes w ∧
    same_service w wx ∧ Forall (policy_resolves (dictionary w)) (policies wx)).
  assert (HI : I w' ∧
    Forall (λ policy, Forall (grant_resolves (dictionary w)) (grants_of [policy])) l).
  { eapply (forEach_inv _ I); [| | exact Hrun].
    - intros x wa wb ub Hx (Hd & Hts & (Hcf & Hfr & Hssd) & Hall) Hstep.
      apply try_catch_inv_ok in Hstep.
      apply addPolicy_inv in Hstep
        as ((stored & Hp & Hres) & Hgrants & Hd' & Hts' & Hcf' & Hfr' & Hssd').
      rewrite Hd in Hres, Hgrants. split; [| done].
      unfold I, same_service. repeat split; try congruence.
      rewrite Hp. apply Forall_app. split; [done | by constructor].
    - unfold I, same_service. simpl. repeat split; constructor. }
  destruct HI as [(Hd & Hts & (Hcf & Hfr & Hssd) & Hall) Hgrants].
  repeat split; try done. simpl.
  clear -Hgrants. induction Hgrants as [|p l Hp _ IH]; [constructor |].
  rewrite grants_of_cons. apply Forall_app. by split.
Qed.

(** A successful integrity check leaves consistent registries, hands them
    out as the snapshot, and has resolved every grant of the configuration in
    a dictionary whose names are those of the configuration. *)
Lemma integrity_check_inv security w w' snapshot :
  integrity_check security w = (w', Ok snapshot) →
  consistent w' ∧ registries_of snapshot w' ∧
  findRole w' = findRole w ∧ systemSecurityData w' = systemSecurityData w ∧
  Forall (grant_resolves (dictionary w')) (grants_of (default [] (cfg_policies security))) ∧
  Forall (λ stored, ∃ resource,
            resource ∈ default [] (cfg_dictionary security) ∧
            res_name resource = res_name stored) (dictionary w').
Proof.
  unfold integrity_check. intros Hrun.
  apply bind_inv_ok in Hrun as (w1 & [] & Hlog & Hrun).
  apply bind_inv_ok in Hrun as (w2 & [] & Htypes & Hrun).
  apply bind_inv_ok in Hrun as (w3 & [] & Hdict & Hrun).
  apply bind_inv_ok in Hrun as (w4 & [] & Hpol & Hrun).
  apply bind_inv_ok in Hrun as (w5 & [] & Hlog' & Hrun).
  unfold log, emit, modify in Hlog, Hlog'. mrun. simplify_eq.
  apply initializeResourceTypes_inv in Htypes as (Henv & _ & Hcf & Hfr & Hssd).
  apply initializeDictionary_inv in Hdict as (l & Hl & Hts & (Hcf' & Hfr' & Hssd') & Hd).
  apply initializePolicies_inv in Hpol as (Hd' & Hts' & (Hcf'' & Hfr'' & Hssd'') & Hp & Hg).
  simpl in *. rewrite Hl. simpl.
  repeat split; simpl; try congruence.
  - rewrite Hd', Hts', Hts. eapply Forall_impl; [exact Hd |]. by intros ? [? _].
  - rewrite Hd'. eapply Forall_impl; [exact Hd |]. by intros ? [_ ?].
Qed.

End Loader.

(** ** The loader: the claims *)

Section LoaderClaims.
Context `{JsRuntime}.
Import SecurityDefinition.

Lemma load_run_throw security w w1 cause :
  integrity_check security w = (w1, Throw cause) →
  load security w
  = (extends w1 [EvLog Fatal "Security policy data integrity FAILED." [];
                 EvLog LogError (show_str (message cause)) []],
     Throw (Error "Invalid Application Security Configuration")).
Proof.
  intros Hcheck. unfold load, try_catch. rewrite Hcheck. mrun.
  unfold extends, set_trace. simpl. by rewrite <- app_assoc.
Qed.

Lemma load_run_ok security w w1 snapshot :
  integrity_check security w = (w1, Ok snapshot) → load security w = (w1, Ok snapshot).
Proof. intros Hcheck. unfold load, try_catch. by rewrite Hcheck. Qed.

(** Whatever [load] throws is the generic error. *)
Lemma load_throws_nothing_else security w w' e :
  load security w = (w', Throw e) →
  e = Error "Invalid Application Security Configuration".
Proof.
  destruct (integrity_check security w) as [w1 [snapshot|cause]] eqn:Hcheck.
  - rewrite (load_run_ok _ _ _ _ Hcheck). discriminate.
  - rewrite (load_run_throw _ _ _ _ Hcheck). by inversion 1.
Qed.

(** C4. Generic load failure.  When the integrity check of a configuration
    fails with some cause (a violated validation rule, decorated on its way
    up), [load] throws the error 'Invalid Application Security
    Configuration', whatever the cause, after logging 'Security policy data
    integrity FAILED.' and the message of the cause; the cause itself is not
    thrown. *)
Theorem load_failure_is_generic (security : SecurityConfiguration) (w w1 : World)
    (cause : Exn) :
  integrity_check security w = (w1, Throw cause) →
  load security w
  = (extends w1 [EvLog Fatal "Security policy data integrity FAILED." [];
                 EvLog LogError (show_str (message cause)) []],
     Throw (Error "Invalid Application Security Configuration")).
Proof. apply load_run_throw. Qed.

Lemma resource_named_none dictionary dictionary' name :
  Forall (λ stored, ∃ resource, resource ∈ dictionary ∧ res_name resource = res_name stored)
         dictionary' →
  resource_named dictionary name = None → resource_named dictionary' name = None.
Proof.
  intros Hall Hnone.
  destruct (resource_named dictionary' name) as [stored|] eqn:Hsome; [| done].
  apply resource_named_elem in Hsome as [Hin Hm].
  rewrite Forall_forall in Hall. destruct (Hall _ Hin) as (resource & Hin' & Hname).
  rewrite <- Hname in Hm.
  destruct (resource_named_is_Some _ _ _ Hin' Hm) as [? Hx]. congruence.
Qed.

(** A configuration with a grant on a resource that its dictionary does not
    name never passes the integrity check. *)
Lemma dangling_grant_fails security w grant :
  grant ∈ grants_of (default [] (cfg_policies security)) →
  resource_named (default [] (cfg_dictionary security)) (prc_resource grant) = None →
  ∃ w1 cause, integrity_check security w = (w1, Throw cause).
Proof.
  intros Hin Hnone.
  destruct (integrity_check security w) as [w1 [snapshot|cause]] eqn:Hcheck; [| eauto].
  apply integrity_check_inv in Hcheck as (_ & _ & _ & _ & Hgrants & Hnames).
  rewrite Forall_forall in Hgrants. destruct (Hgrants _ Hin) as [stored Hstored].
  rewrite (resource_named_none _ _ _ Hnames Hnone) in Hstored. discriminate.
Qed.

End LoaderClaims.

(** C4 on the configuration of the repository's test "should not validate
    policy": the caller gets the generic error, the log gets the cause. *)
Lemma load_failure_is_generic_witness :
  ∃ w', SecurityDefinition.load (H := example_runtime) invalid_configuration initial_world
        = (w', Throw (Error "Invalid Application Security Configuration")) ∧
        last (trace w') =
        Some (EvLog LogError
                ("Resource [Account menu] is not defined in the dictionary" +:+
                 " - invalid protected resource [Account menu]" +:+
                 " - invalid policy setting: {} - invalid policy [Account Policy]") []).
Proof.
  eexists. split.
  - apply (load_failure_is_generic (H := example_runtime) invalid_configuration initial_world
             (fst (SecurityDefinition.integrity_check (H := example_runtime)
                     invalid_configuration initial_world))
             (Error ("Resource [Account menu] is not defined in the dictionary" +:+
                     " - invalid protected resource [Account menu]" +:+
                     " - invalid policy setting: {} - invalid policy [Account Policy]"))).
    vm_compute. reflexivity.
  - vm_compute. reflexivity.
Defined.

(** ** Reaching a grant *)

Lemma forEach_from_index {A} (f : A → M unit) (l : list A) :
  ∀ i j w, forEach_from i l (λ x _, f x) w = forEach_from j l (λ x _, f x) w.
Proof.
  induction l as [|x l IH]; intros i j w; simpl; [done |].
  unfold bind. destruct (f x w) as [w1 [[]|e]]; [apply IH | done].
Qed.

Lemma forEach_app {A} (f : A → M unit) (l1 l2 : list A) w :
  forEach (l1 ++ l2) f w = bind (forEach l1 f) (λ _, forEach l2 f) w.
Proof.
  unfold forEach. generalize 0%nat at 1 2 as i. revert w.
  unfold bind. induction l1 as [|x l1 IH]; intros w i; simpl.
  - apply forEach_from_index.
  - unfold bind. destruct (f x w) as [w1 [[]|e]]; [| done]. apply IH.
Qed.

Lemma mapM_app {A B} (f : A → M B) (l1 l2 : list A) w :
  mapM f (l1 ++ l2) w
  = bind (mapM f l1) (λ ys1, bind (mapM f l2) (λ ys2, ret (ys1 ++ ys2))) w.
Proof.
  revert w. unfold bind, ret. induction l1 as [|x l1 IH]; intros w; simpl.
  - by destruct (mapM f l2 w) as [w1 [ys|e]].
  - unfold bind, ret. destruct (f x w) as [w1 [y|e]]; [| done].
    rewrite IH. destruct (mapM f l1 w1) as [w2 [ys1|e]]; [| done].
    by destruct (mapM f l2 w2) as [w3 [ys2|e]].
Qed.

Section Reach.
Context `{JsRuntime}.
Import SecurityDefinition.

Lemma checkPolicyProtectedResource_missing config r w :
  prc_resource config = Some r →
  resource_named (dictionary w) (Some r) = None →
  checkPolicyProtectedResource config w
  = (w, Throw (Error ("Resource [" +:+ r +:+ "] is not defined in the dictionary"))).
Proof.
  intros Hr Hnone. unfold checkPolicyProtectedResource, bind.
  rewrite findProtectedResourceByName_run, Hr, Hnone. reflexivity.
Qed.

Lemma reach_grant security w policies_before policy policies_after
    settings_before policySetting settings_after grants_before grant grants_after
    r w0 snapshot0 :
  cfg_policies security = Some (policies_before ++ policy :: policies_after) →
  pol_settings policy = Some (settings_before ++ policySetting :: settings_after) →
  ps_protectedResources policySetting = Some (grants_before ++ grant :: grants_after) →
  prc_resource grant = Some r →
  resource_named (default [] (cfg_dictionary security)) (Some r) = None →
  integrity_check
    (cut_configuration security policies_before policy settings_before policySetting
                       grants_before) w = (w0, Ok snapshot0) →
  ∃ w1, integrity_check security w
        = (w1, Throw (Error (missing_resource_message r policySetting policy))).
Proof.
  intros Hpolicies Hsettings Hgrants Hr Habsent Hcut.
  unfold integrity_check in *.
  apply bind_inv_ok in Hcut as (wa & [] & Hlog & Hcut).
  apply bind_inv_ok in Hcut as (wb & [] & Htypes & Hcut).
  apply bind_inv_ok in Hcut as (wc & [] & Hdict & Hcut).
  apply bind_inv_ok in Hcut as (wd & [] & Hpol & _).
  simpl in Htypes, Hdict, Hpol.
  rewrite (bind_ok _ _ _ _ _ Hlog), (bind_ok _ _ _ _ _ Htypes), (bind_ok _ _ _ _ _ Hdict).
  rewrite Hpolicies.
  (* the dictionary the policies are checked against *)
  pose proof Hdict as Hnames.
  apply initializeDictionary_inv in Hnames as (l & Hl & _ & _ & Hnames).
  rewrite Hl in Habsent. simpl in Habsent.
  assert (Hnone : resource_named (dictionary wc) (Some r) = None).
  { eapply resource_named_none; [| exact Habsent].
    eapply Forall_impl; [exact Hnames |]. by intros ? [_ ?]. }
  clear Hlog Htypes Hdict Hnames Hl Habsent.
  cut (∃ w1, initializePolicies (Some (policies_before ++ policy :: policies_after)) wc
             = (w1, Throw (Error (missing_resource_message r policySetting policy)))).
  { intros [w1 Hinit]. exists w1. by rewrite (bind_throw _ _ _ _ _ Hinit). }
  (* the policies before *)
  unfold initializePolicies in *.
  apply bind_inv_ok in Hpol as (we & [] & Hset & Hpol).
  rewrite (bind_ok _ _ _ _ _ Hset).
  rewrite forEach_app in Hpol. apply bind_inv_ok in Hpol as (wf & [] & Hbefore & Hpol).
  assert (Hdf : dictionary wf = dictionary wc).
  { unfold modify in Hset. simplify_eq.
    eapply (forEach_inv _ (λ wx, dictionary wx = dictionary wc) (λ _, True));
      [| | exact Hbefore]; [| done].
    intros x wx wy u _ Hwx Hstep. apply try_catch_inv_ok in Hstep.
    apply addPolicy_inv in Hstep as (_ & _ & Hd & _). split; [congruence | done]. }
  rewrite forEach_app. rewrite (bind_ok _ _ _ _ _ Hbefore).
  clear Hset Hbefore.
  (* the policy of the grant *)
  unfold forEach in Hpol |- *. simpl in Hpol |- *.
  apply bind_inv_ok in Hpol as (wg & [] & Hpol & _).
  apply try_catch_inv_ok in Hpol.
  unfold addPolicy in Hpol. simpl in Hpol.
  apply bind_inv_ok in Hpol as (w1 & [] & Hname & Hpol).
  pose proof Hname as Hname'. apply assert_inv_ok in Hname' as [Hname' ->].
  apply bind_inv_ok in Hpol as (w2 & [] & Hlog & Hpol).
  apply bind_inv_ok in Hpol as (w3 & w3' & Hget & Hpol).
  unfold get in Hget. simplify_eq. rename w3' into w3.
  apply bind_inv_ok in Hpol as (w4 & [] & Hdup & Hpol).
  pose proof Hdup as Hdup'. apply assert_inv_ok in Hdup' as [Hdup' ->].
  apply bind_inv_ok in Hpol as (w5 & stored & Hmap & _).
  rewrite mapM_app in Hmap. apply bind_inv_ok in Hmap as (w6 & ys1 & Hmap1 & Hmap).
  apply bind_inv_ok in Hmap as (w7 & ys2 & Hmap2 & _).
  simpl in Hmap2.
  apply bind_inv_ok in Hmap2 as (w8 & y & Hsetting & _).
  apply try_catch_inv_ok in Hsetting.
  assert (w6 = w3) as ->.
  { eapply (mapM_inv _ (λ wx, wx = w3) (λ _ _, True)); [| reflexivity | exact Hmap1].
    intros x wx wy z _ -> Hstep. apply try_catch_inv_ok in Hstep.
    by apply checkPolicySetting_inv in Hstep as (-> & _). }
  unfold checkPolicySetting in Hsetting. simpl in Hsetting.
  apply bind_inv_ok in Hsetting as (w9 & [] & Hlabel & Hsetting).
  pose proof Hlabel as Hlabel'. apply assert_inv_ok in Hlabel' as [Hlabel' ->].
  apply bind_inv_ok in Hsetting as (w10 & [] & Hgs & _).
  assert (w10 = w3) as ->.
  { eapply (forEach_inv _ (λ wx, wx = w3) (λ _, True)); [| reflexivity | exact Hgs].
    intros x wx wy z _ -> Hstep. apply try_catch_inv_ok in Hstep.
    by apply checkPolicyProtectedResource_inv in Hstep as (-> & _). }
  assert (Hd3 : dictionary w3 = dictionary wc).
  { unfold log, emit, modify in Hlog. simplify_eq. done. }
  (* the same steps on the whole configuration, up to the grant *)
  assert (Hadd : addPolicy policy wf
    = (w3, Throw (Error ("Resource [" +:+ r +:+ "] is not defined in the dictionary" +:+
                         " - invalid protected resource [" +:+ r +:+ "]" +:+
                         " - invalid policy setting: " +:+
                         stringify_policySetting policySetting)))).
  { unfold addPolicy.
    rewrite (bind_ok _ _ _ _ _ Hname), (bind_ok _ _ _ _ _ Hlog), Hsettings.
    unfold bind at 1. unfold get at 1.
    rewrite (bind_ok _ _ _ _ _ Hdup).
    unfold bind at 1. rewrite mapM_app. rewrite (bind_ok _ _ _ _ _ Hmap1).
    simpl. unfold bind at 1. unfold bind at 1. unfold try_catch at 1.
    assert (Hcheck : checkPolicySetting policySetting w3
      = (w3, Throw (Error ("Resource [" +:+ r +:+ "] is not defined in the dictionary" +:+
                           " - invalid protected resource [" +:+ r +:+ "]")))).
    { unfold checkPolicySetting. rewrite (bind_ok _ _ _ _ _ Hlabel), Hgrants.
      unfold bind at 1. rewrite forEach_app. rewrite (bind_ok _ _ _ _ _ Hgs).
      unfold forEach. simpl. unfold bind at 1. unfold try_catch at 1.
      rewrite (checkPolicyProtectedResource_missing _ r); [| done | congruence].
      unfold throw. simpl. rewrite Hr. simpl.
      by rewrite ?append_assoc_s. }
    rewrite Hcheck. unfold throw. simpl. by rewrite ?append_assoc_s. }
  eexists. unfold bind, try_catch. rewrite Hadd. unfold throw. simpl.
  unfold missing_resource_message. by rewrite ?append_assoc_s.
Qed.

End Reach.

Section DanglingGrant.
Context `{JsRuntime}.
Import SecurityDefinition.

Lemma last_two {A} (l : list A) (a b : A) : last (l ++ [a; b]) = Some b.
Proof. change [a; b] with ([a] ++ [b]). by rewrite app_assoc, last_snoc. Qed.

(** C6, amended.  A configuration in which a policy grant names a resource
    that the dictionary does not have never loads: [load] throws the generic
    error.  When validation reaches that grant, that is when the
    configuration cut just before the grant passes the integrity check, the
    cause that is logged is the one of this grant, and it names the missing
    resource. *)
Theorem dangling_grant_fails_and_is_named_when_reached
    (security : SecurityConfiguration) (w : World) (grant : PolicyResourceConfig)
    (r : string) :
  grant ∈ grants_of (default [] (cfg_policies security)) →
  prc_resource grant = Some r →
  resource_named (default [] (cfg_dictionary security)) (Some r) = None →
  (∃ w1, load security w
         = (w1, Throw (Error "Invalid Application Security Configuration"))) ∧
  ∀ policies_before policy policies_after settings_before policySetting settings_after
    grants_before grants_after w0 snapshot0,
    cfg_policies security = Some (policies_before ++ policy :: policies_after) →
    pol_settings policy = Some (settings_before ++ policySetting :: settings_after) →
    ps_protectedResources policySetting = Some (grants_before ++ grant :: grants_after) →
    integrity_check
      (cut_configuration security policies_before policy settings_before policySetting
                         grants_before) w = (w0, Ok snapshot0) →
    ∃ w1, load security w
          = (w1, Throw (Error "Invalid Application Security Configuration")) ∧
          last (trace w1)
          = Some (EvLog LogError (missing_resource_message r policySetting policy) []) ∧
          includes r (missing_resource_message r policySetting policy) = true.
Proof.
  intros Hin Hr Habsent. split.
  - destruct (dangling_grant_fails security w grant Hin) as (w1 & cause & Hcheck).
    { by rewrite Hr. }
    eexists. apply (load_run_throw _ _ _ _ Hcheck).
  - intros policies_before policy policies_after settings_before policySetting
      settings_after grants_before grants_after w0 snapshot0 Hp Hs Hg Hcut.
    destruct (reach_grant _ _ _ _ _ _ _ _ _ _ _ _ _ _ Hp Hs Hg Hr Habsent Hcut)
      as [w1 Hcheck].
    eexists. split; [apply (load_run_throw _ _ _ _ Hcheck) |]. split.
    + unfold extends. simpl. apply last_two.
    + apply includes_middle.
Qed.

End DanglingGrant.

(** C6 as stated fails on a configuration with an earlier defect: the policy
    that grants on ["Ghost"] has no name; [load] throws the generic error, and
    the logged cause is the missing name, which does not mention
    ["Ghost"]. *)
Lemma logged_cause_may_name_an_earlier_defect :
  grant "Ghost" "show" ∈ grants_of (default [] (cfg_policies two_defects)) ∧
  resource_named (default [] (cfg_dictionary two_defects)) (Some "Ghost") = None ∧
  ∃ w1, SecurityDefinition.load (H := example_runtime) two_defects initial_world
        = (w1, Throw (Error "Invalid Application Security Configuration")) ∧
        last (trace w1)
        = Some (EvLog LogError "Name is required - invalid policy [undefined]" []) ∧
        includes "Ghost" "Name is required - invalid policy [undefined]" = false.
Proof.
  split; [| split].
  - apply list_elem_of_lookup. exists 0%nat. reflexivity.
  - reflexivity.
  - eexists. split; [| split].
    + vm_compute. reflexivity.
    + vm_compute. reflexivity.
    + vm_compute. reflexivity.
Qed.

(** The amended C6 on scenario D: the grant on ["Ghost"] is reached after the
    account policy has been validated. *)
Lemma dangling_grant_fails_and_is_named_when_reached_witness :
  ∃ w1, SecurityDefinition.load (H := example_runtime) ghost_configuration initial_world
        = (w1, Throw (Error "Invalid Application Security Configuration")) ∧
        last (trace w1)
        = Some (EvLog LogError
                  ("Resource [Ghost] is not defined in the dictionary" +:+
                   " - invalid protected resource [Ghost]" +:+
                   " - invalid policy setting: {} - invalid policy [Ghost Policy]") []).
Proof.
  destruct (dangling_grant_fails_and_is_named_when_reached (H := example_runtime)
              ghost_configuration initial_world (grant "Ghost" "show") "Ghost")
    as [_ Hnamed].
  - apply list_elem_of_lookup. exists 6%nat. reflexivity.
  - reflexivity.
  - reflexivity.
  - destruct (Hnamed [account_policy] ghost_policy [] []
                (policy_setting "read" None [grant "Ghost" "show"]) [] [] []
                (fst ghost_cut_run) ghost_cut_snapshot
                eq_refl eq_refl eq_refl)
      as (w1 & Hload & Hlast & _).
    + vm_compute. reflexivity.
    + exists w1. split; [exact Hload |]. rewrite Hlast. reflexivity.
Defined.

(** ** The service: users without a policy *)

Section ServiceClaims.
Context `{JsRuntime}.
Import SecurityService.

Lemma security_deactivated_true user w :
  truthy_str (user_permissionRoleCode user) = false ∨
  (∃ v, user_isTenantAdmin user = Some v ∧ truthy v = true) →
  security_deactivated user w = (w, Ok true).
Proof.
  unfold security_deactivated. intros [Hcode | (v & Hv & Ht)].
  - by rewrite Hcode.
  - destruct (truthy_str (user_permissionRoleCode user)); [| done]. simpl.
    by rewrite Hv, Ht.
Qed.

(** C10. Users outside the policies.  For a user whose [isTenantAdmin()]
    answers a truthy value, or who has no [permissionRoleCode],
    [findUserPolicyData] resolves with the empty list: it logs 'Security
    deactivated' and makes no call to the role store, in whatever state the
    engine is; [generateUserSecurityDataByEnvironment] returns the 'Admin -
    Full access' object, which has no [policies], [dictionary] or
    [resourceTypes]. *)
Theorem admin_bypasses_policies (user : User) :
  truthy_str (user_permissionRoleCode user) = false ∨
  (∃ v, user_isTenantAdmin user = Some v ∧ truthy v = true) →
  (∀ w, findUserPolicyData user w
        = (extends w [EvLog Warn "Security deactivated for %b" [user_display user]],
           Ok (Resolved {| ups_description := None; ups_list := [] |}))) ∧
  (∀ userPolicies env w,
     generateUserSecurityDataByEnvironment user userPolicies env w
     = (w, Ok {| usd_policies := None; usd_dictionary := None; usd_resourceTypes := None;
                 usd_env := env; usd_user := user;
                 usd_description := Some "Admin - Full access" |})).
Proof.
  intros Hadmin. split.
  - intros w. unfold findUserPolicyData, bind.
    by rewrite (security_deactivated_true user w Hadmin).
  - intros userPolicies env w. unfold generateUserSecurityDataByEnvironment, bind.
    by rewrite (security_deactivated_true user w Hadmin).
Qed.

(** For every [user] argument that is falsy or has no role code the promise
    resolves at once with [result === true]: nothing is read from the state,
    nothing is logged, no host function is called. *)
Lemma applyResourcePolicy_without_role user protectedResourceLocator contextParams w :
  user_truthy user = false ∨
  truthy_str (user_permissionRoleCode (user_object user)) = false →
  ∃ r, applyResourcePolicy user protectedResourceLocator contextParams w
       = (w, Ok (Resolved r)) ∧ result r = JBool true.
Proof.
  intros Hguard. unfold applyResourcePolicy.
  assert (negb (user_truthy user) ||
          negb (truthy_str (user_permissionRoleCode (user_object user))) = true) as ->.
  { destruct Hguard as [-> | ->]; [done | apply orb_true_r]. }
  eexists. split; reflexivity.
Qed.

(** When that [user] is an object, or a falsy value other than [undefined]
    and [null], the [isSetting] that comes with the result logs an error and
    answers [false]. *)
Lemma isSetting_without_role_false user protectedResourceLocator contextParams w r :
  user ≠ UserValue JUndefined → user ≠ UserValue JNull →
  applyResourcePolicy user protectedResourceLocator contextParams w = (w, Ok (Resolved r)) →
  result r = JBool true →
  user_truthy user = false ∨
  truthy_str (user_permissionRoleCode (user_object user)) = false →
  ∀ settingName w', ∃ line, isSetting r settingName w' = (extends w' [line], Ok false).
Proof.
  intros Hu Hn Hrun _ Hguard. unfold applyResourcePolicy in Hrun.
  assert (negb (user_truthy user) ||
          negb (truthy_str (user_permissionRoleCode (user_object user))) = true) as Hg.
  { destruct Hguard as [-> | ->]; [done | apply orb_true_r]. }
  rewrite Hg in Hrun. unfold ret in Hrun. simplify_eq. simpl.
  intros settingName w'. destruct user as [[] | u]; try done; eexists; reflexivity.
Qed.

(** C9 at [user = null].  The promise resolves with [result === true]
    without touching the state (no lookup, no condition, no apply), but the
    [isSetting] of the result throws for every setting name: it evaluates
    [user.display] on [null] before it can return [false]. *)
Theorem isSetting_throws_without_user (protectedResourceLocator : option string)
    (contextParams : ContextParams) (w : World) :
  ∃ r, applyResourcePolicy (UserValue JNull) protectedResourceLocator contextParams w
       = (w, Ok (Resolved r)) ∧
       result r = JBool true ∧
       ∀ settingName w',
         isSetting r settingName w' = (w', Throw (Error (type_error "user.display"))).
Proof. eexists. repeat split. Qed.

End ServiceClaims.

(** C10 on the administrator of the examples, before anything is loaded. *)
Lemma admin_bypasses_policies_witness :
  SecurityService.findUserPolicyData (H := example_runtime) admin_user initial_world
  = (extends initial_world [EvLog Warn "Security deactivated for %b" [Some "Root"]],
     Ok (Resolved {| SecurityService.ups_description := None;
                     SecurityService.ups_list := [] |})).
Proof.
  apply (proj1 (admin_bypasses_policies (H := example_runtime) admin_user
                  (or_intror (ex_intro _ (JBool true) (conj eq_refl eq_refl))))).
Defined.

(** ** Reloading *)

Lemma keeps_ret {A} (a : A) : keeps_service (ret a).
Proof. by intros w. Qed.

Lemma keeps_throw {A} e : keeps_service (@throw A e).
Proof. by intros w. Qed.

Lemma keeps_get : keeps_service get.
Proof. by intros w. Qed.

Lemma keeps_bind {A B} (m : M A) (k : A → M B) :
  keeps_service m → (∀ a, keeps_service (k a)) → keeps_service (bind m k).
Proof.
  intros Hm Hk w. unfold bind. destruct (Hm w) as [Hs Hf].
  destruct (m w) as [w1 [a|e]]; simpl in *; [| done].
  destruct (Hk a w1) as [? ?]. split; congruence.
Qed.

Lemma keeps_try_catch {A} (m : M A) (h : Exn → M A) :
  keeps_service m → (∀ e, keeps_service (h e)) → keeps_service (try_catch m h).
Proof.
  intros Hm Hh w. unfold try_catch. destruct (Hm w) as [Hs Hf].
  destruct (m w) as [w1 [a|e]]; simpl in *; [done |].
  destruct (Hh e w1) as [? ?]. split; congruence.
Qed.

Lemma keeps_assert c msg : keeps_service (assert c msg).
Proof. by destruct c. Qed.

Lemma keeps_log level text args : keeps_service (log level text args).
Proof. by intros w. Qed.

Lemma keeps_forEach_from {A} (f : A → nat → M unit) l :
  (∀ x i, keeps_service (f x i)) → ∀ i, keeps_service (forEach_from i l f).
Proof.
  intros Hf. induction l as [|x l IH]; intros i; simpl.
  - apply keeps_ret.
  - apply keeps_bind; [apply Hf | intros _; apply IH].
Qed.

Lemma keeps_mapM {A B} (f : A → M B) l :
  (∀ x, keeps_service (f x)) → keeps_service (mapM f l).
Proof.
  intros Hf. induction l as [|x l IH]; simpl.
  - apply keeps_ret.
  - apply keeps_bind; [apply Hf | intros y].
    apply keeps_bind; [apply IH | intros ys; apply keeps_ret].
Qed.

Ltac keeps_step :=
  first
    [ apply keeps_ret | apply keeps_throw | apply keeps_get | apply keeps_assert
    | apply keeps_log
    | apply keeps_bind | apply keeps_try_catch
    | apply keeps_forEach_from | apply keeps_mapM
    | progress intros
    | match goal with
      | |- keeps_service (match ?x with _ => _ end) => destruct x
      | |- keeps_service (modify _) => by intros ?
      end ].

Section Reload.
Context `{JsRuntime}.

Lemma load_keeps_service security : keeps_service (SecurityDefinition.load security).
Proof.
  unfold SecurityDefinition.load, SecurityDefinition.integrity_check,
    SecurityDefinition.initializeResourceTypes, SecurityDefinition.initializeDictionary,
    SecurityDefinition.initializePolicies, forEach.
  repeat keeps_step;
    unfold SecurityDefinition.addResourceType, SecurityDefinition.addResourceToDictionary,
      SecurityDefinition.addPolicy, SecurityDefinition.checkPolicySetting, forEach;
    repeat keeps_step;
    unfold SecurityDefinition.checkPolicyProtectedResource, SecurityDefinition.findSetting,
      SecurityDefinition.findResourceType, SecurityDefinition.findProtectedResourceByName;
    repeat keeps_step.
Qed.

(** What a successful load of the service leaves behind. *)
Lemma service_load_inv securityConfiguration w w' u :
  SecurityService.load securityConfiguration w = (w', Ok u) →
  ∃ snapshot, loaded snapshot w'.
Proof.
  unfold SecurityService.load. intros Hrun.
  destruct (negb (truthy_str (cfg_defaultRole securityConfiguration))); [discriminate |].
  apply bind_inv_ok in Hrun as (w1 & [] & Hset & Hrun).
  apply bind_inv_ok in Hrun as (w2 & snapshot & Hload & Hrun).
  unfold modify in Hset, Hrun. simplify_eq.
  destruct (SecurityDefinition.integrity_check securityConfiguration
              (set_findRole (Some securityConfiguration) w)) as [w3 [s|cause]] eqn:Hcheck.
  2: { rewrite (load_run_throw _ _ _ _ Hcheck) in Hload. discriminate. }
  rewrite (load_run_ok _ _ _ _ Hcheck) in Hload. simplify_eq.
  apply integrity_check_inv in Hcheck as (Hcons & Hreg & _).
  exists snapshot. split; [done |]. split; [exact Hreg | exact Hcons].
Qed.

(** C5, amended.  A load that fails leaves the snapshot the service holds as
    it was: [systemSecurityData] is the previously loaded object, if any, and
    [getSystemSecurityConfiguration] answers as before. *)
Theorem failed_load_keeps_snapshot (securityConfiguration : SecurityConfiguration)
    (w w' : World) (e : Exn) :
  SecurityService.load securityConfiguration w = (w', Throw e) →
  systemSecurityData w' = systemSecurityData w ∧
  snd (SecurityService.getSystemSecurityConfiguration w')
  = snd (SecurityService.getSystemSecurityConfiguration w).
Proof.
  intros Hrun.
  assert (Hssd : systemSecurityData w' = systemSecurityData w).
  { unfold SecurityService.load in Hrun.
    destruct (negb (truthy_str (cfg_defaultRole securityConfiguration))).
    - unfold throw in Hrun. by simplify_eq.
    - unfold bind, modify in Hrun.
      pose proof (load_keeps_service securityConfiguration
                    (set_findRole (Some securityConfiguration) w)) as [Hkeep _].
      destruct (SecurityDefinition.load securityConfiguration _) as [w1 [snapshot|cause]];
        simpl in *; simplify_eq. exact Hkeep. }
  split; [exact Hssd |].
  unfold SecurityService.getSystemSecurityConfiguration, bind, get. rewrite Hssd.
  by destruct (systemSecurityData w).
Qed.

End Reload.

(** C5 as stated fails: after the example configuration is loaded, a reload
    with the invalid configuration fails; the service still holds the same
    snapshot, but the lookups attached to its arrays now search the registries
    the failed load has emptied. *)
Lemma failed_reload_changes_lookups :
  snd (SecurityService.load (H := example_runtime) example_configuration initial_world)
    = Ok tt ∧
  SecurityService.load (H := example_runtime) invalid_configuration world_after_load
    = (world_after_failed_reload,
       Throw (Error "Invalid Application Security Configuration")) ∧
  systemSecurityData world_after_failed_reload = systemSecurityData world_after_load ∧
  snd (SecurityDefinition.findResourceType (Some "AppMenuItem") world_after_load)
    = Ok AppMenuItem ∧
  snd (SecurityDefinition.findResourceType (Some "AppMenuItem") world_after_failed_reload)
    = Throw (Error "Undefined resource type [AppMenuItem].") ∧
  snd (SecurityDefinition.findSetting (Some "AppMenuItem") (Some "show") world_after_load)
    = Ok (Some (setting_definition "show" 1)) ∧
  snd (SecurityDefinition.findSetting (Some "AppMenuItem") (Some "show")
         world_after_failed_reload)
    = Throw (Error "Undefined resource type [AppMenuItem].") ∧
  (∃ resource,
     snd (SecurityDefinition.findProtectedResourceByName (Some "Account menu")
            world_after_load) = Ok (Some resource)) ∧
  snd (SecurityDefinition.findProtectedResourceByName (Some "Account menu")
         world_after_failed_reload) = Ok None.
Proof.
  split; [vm_compute; reflexivity |].
  split; [vm_compute; reflexivity |].
  split; [vm_compute; reflexivity |].
  split; [vm_compute; reflexivity |].
  split; [vm_compute; reflexivity |].
  split; [vm_compute; reflexivity |].
  split; [vm_compute; reflexivity |].
  split; [eexists; vm_compute; reflexivity |].
  vm_compute. reflexivity.
Qed.

(** The amended C5 on the same reload. *)
Lemma failed_load_keeps_snapshot_witness :
  systemSecurityData world_after_failed_reload = systemSecurityData world_after_load ∧
  snd (SecurityService.getSystemSecurityConfiguration world_after_failed_reload)
  = snd (SecurityService.getSystemSecurityConfiguration world_after_load).
Proof.
  apply (failed_load_keeps_snapshot (H := example_runtime) invalid_configuration
           world_after_load world_after_failed_reload
           (Error "Invalid Application Security Configuration")).
  vm_compute. reflexivity.
Defined.

(** ** Environment views *)

Lemma filterM_run {A} (f : A → M bool) (p : A → bool) (l : list A) w :
  (∀ x, x ∈ l → f x w = (w, Ok (p x))) → filterM f l w = (w, Ok (List.filter p l)).
Proof.
  induction l as [|x l IH]; intros Hf; simpl; [done |].
  unfold bind. rewrite (Hf x) by by left.
  rewrite IH by (intros y Hy; apply Hf; by right). unfold ret. by destruct (p x).
Qed.

Lemma foldM_run {A S} (f : S → A → M S) (g : S → A → S) (l : list A) w :
  (∀ s x, x ∈ l → f s x w = (w, Ok (g s x))) →
  ∀ s, foldM f s l w = (w, Ok (fold_left g l s)).
Proof.
  induction l as [|x l IH]; intros Hf s; simpl; [done |].
  unfold bind. rewrite (Hf s x) by by left.
  apply IH. intros s' y Hy. apply Hf. by right.
Qed.

Lemma grants_of_single policy :
  grants_of [policy]
  = concat (List.map (λ s, default [] (ps_protectedResources s))
                     (default [] (pol_settings policy))).
Proof. unfold grants_of. simpl. apply app_nil_r. Qed.

Lemma grants_of_app policies policies' :
  grants_of (policies ++ policies') = grants_of policies ++ grants_of policies'.
Proof. unfold grants_of. by rewrite map_app, concat_app. Qed.

Section EnvironmentViews.
Context `{JsRuntime}.
Import SecurityService.

Variable snapshot : Snapshot.
Variable w : World.
Hypothesis Hloaded : loaded snapshot w.

Lemma systemSecurityData_run property :
  systemSecurityData_ property w = (w, Ok snapshot).
Proof.
  destruct Hloaded as [Hssd _]. unfold systemSecurityData_, bind, get. by rewrite Hssd.
Qed.

Lemma type_in_environment_run type env :
  is_Some (type_named (resourceTypes w) type) →
  type_in_environment type env w = (w, Ok (in_environment snapshot env type)).
Proof.
  intros [definition Hdef].
  destruct Hloaded as (_ & (_ & _ & Hts & _) & Henv & _).
  unfold type_in_environment, bind. rewrite systemSecurityData_run.
  rewrite findResourceType_run, Hdef.
  unfold in_environment, declares. rewrite <- Hts, Hdef.
  rewrite Forall_forall in Henv.
  destruct (Henv definition) as [e He].
  { apply find_some in Hdef as [Hin _]. by apply list_elem_of_In. }
  by rewrite He.
Qed.

Lemma grant_in_environment_run grant env :
  grant_resolves (dictionary w) grant →
  (systemSecurityData_ "dictionary" ;;;
   resource <- SecurityDefinition.findProtectedResourceByName (prc_resource grant) ;;
   match resource with
   | None => throw (Error (type_error "resource.type"))
   | Some resource => type_in_environment (res_type resource) env
   end) w = (w, Ok (grant_in_environment snapshot env grant)).
Proof.
  intros [resource Hres].
  pose proof Hloaded as (_ & (_ & Hd & _ & _) & _ & Htypes & _).
  unfold bind. rewrite systemSecurityData_run, findProtectedResourceByName_run, Hres.
  unfold grant_in_environment. rewrite <- Hd, Hres.
  apply type_in_environment_run.
  rewrite Forall_forall in Htypes. apply Htypes.
  apply find_some in Hres as [Hin _]. by apply list_elem_of_In.
Qed.

Lemma filterPolicyContentByEnvironment_run userPolicies env :
  Forall (policy_resolves (dictionary w)) userPolicies →
  filterPolicyContentByEnvironment userPolicies env w
  = (w, Ok (environment_policies snapshot env userPolicies)).
Proof.
  intros Hres. unfold filterPolicyContentByEnvironment, environment_policies.
  apply foldM_run. intros acc policy Hin.
  rewrite Forall_forall in Hres. destruct (Hres _ Hin) as (settings & Hs & Hsettings).
  rewrite Hs. unfold bind.
  rewrite (foldM_run _ (keep_setting snapshot env)).
  - unfold keep_policy. rewrite Hs. simpl. by destruct (0 <? _)%nat.
  - intros acc' policySetting Hin'.
    rewrite Forall_forall in Hsettings.
    destruct (Hsettings _ Hin') as (grants & Hg & Hgrants).
    unfold bind. rewrite (filterM_run _ (grant_in_environment snapshot env)).
    + unfold keep_setting. by destruct (0 <? _)%nat.
    + intros grant Hgrant. rewrite Hg in Hgrant. simpl in Hgrant.
      apply grant_in_environment_run. rewrite Forall_forall in Hgrants. by apply Hgrants.
Qed.

(** Filtering keeps the grants in order, and drops nothing else. *)
Lemma grants_of_environment_policies env userPolicies :
  grants_of (environment_policies snapshot env userPolicies)
  = List.filter (grant_in_environment snapshot env) (grants_of userPolicies).
Proof.
  unfold environment_policies.
  cut (∀ acc, grants_of (fold_left (keep_policy snapshot env) userPolicies acc)
              = grants_of acc ++
                List.filter (grant_in_environment snapshot env) (grants_of userPolicies)).
  { intros Hgen. apply (Hgen []). }
  induction userPolicies as [|policy l IH]; intros acc; simpl.
  { by rewrite app_nil_r. }
  rewrite IH, grants_of_cons, List.filter_app, app_assoc. f_equal.
  assert (Hsettings : ∀ settings acc',
    concat (List.map (λ s, default [] (ps_protectedResources s))
              (fold_left (keep_setting snapshot env) settings acc'))
    = concat (List.map (λ s, default [] (ps_protectedResources s)) acc') ++
      List.filter (grant_in_environment snapshot env)
        (concat (List.map (λ s, default [] (ps_protectedResources s)) settings))).
  { induction settings as [|s settings IHs]; intros acc'; simpl.
    { by rewrite app_nil_r. }
    rewrite IHs, List.filter_app, app_assoc. f_equal.
    unfold keep_setting.
    destruct (List.filter _ (default [] (ps_protectedResources s))) as [|g gs] eqn:Hf; simpl.
    - by rewrite app_nil_r.
    - rewrite map_app, concat_app. simpl. by rewrite app_nil_r. }
  unfold keep_policy.
  pose proof (Hsettings (default [] (pol_settings policy)) []) as Hp. simpl in Hp.
  destruct (fold_left _ (default [] (pol_settings policy)) []) as [|s ss] eqn:Hfold; simpl.
  - rewrite grants_of_single, <- Hp. simpl. by rewrite app_nil_r.
  - rewrite grants_of_app, !grants_of_single. f_equal. exact Hp.
Qed.

End EnvironmentViews.

Section EnvironmentClaims.
Context `{JsRuntime}.
Import SecurityService.

Lemma collectRolePolicySettingDefinitions_resolves d rolePolicySettings policyDefinition
    wx wy settings :
  policy_resolves d policyDefinition →
  collectRolePolicySettingDefinitions rolePolicySettings policyDefinition wx
    = (wy, Ok settings) →
  Forall (setting_resolves d) settings.
Proof.
  intros (defined & Hs & Hdefined) Hrun. unfold collectRolePolicySettingDefinitions in Hrun.
  assert (HI : True ∧ Forall2 (λ _ stored, setting_resolves d stored)
                              rolePolicySettings settings).
  { eapply (mapM_inv _ (λ _, True)); [| done | exact Hrun].
    intros setting wa wb stored _ _ Hstep. split; [done |].
    rewrite Hs in Hstep. simpl in Hstep. rewrite Forall_forall in Hdefined.
    assert (Hfound : ∀ key found,
      List.find (λ s, matches (ps_setting s) key) defined = Some found →
      setting_resolves d found).
    { intros key found Hf. apply find_some in Hf as [Hin _].
      apply Hdefined. by apply list_elem_of_In. }
    destruct setting as [label | value params].
    - destruct (List.find _ defined) as [found|] eqn:Hf; [| discriminate].
      unfold ret in Hstep. simplify_eq. eauto.
    - destruct (List.find _ defined) as [found|] eqn:Hf; [| discriminate].
      destruct (Hfound _ _ Hf) as (grants & Hg & Hgrants).
      destruct params; unfold ret in Hstep; simplify_eq; by exists grants. }
  destruct HI as [_ Hall]. clear -Hall.
  induction Hall; by constructor.
Qed.

Lemma generateRolePolicies_resolves snapshot w userRole w1 userPolicies :
  loaded snapshot w →
  generateRolePolicies userRole w = (w1, Ok userPolicies) →
  Forall (policy_resolves (dictionary w)) (ups_list userPolicies).
Proof.
  intros Hloaded Hrun. unfold generateRolePolicies in Hrun.
  destruct userRole as [userRole|]; [| discriminate].
  apply bind_inv_ok in Hrun as (w2 & s & Hssd & Hrun).
  rewrite (systemSecurityData_run snapshot w Hloaded) in Hssd.
  assert (w2 = w ∧ s = snapshot) as [-> ->] by (by inversion Hssd). clear Hssd.
  apply bind_inv_ok in Hrun as (w3 & policies' & Hfold & Hret).
  unfold ret in Hret. assert (w3 = w1 ∧ userPolicies
    = {| ups_description := role_description userRole; ups_list := policies' |})
    as [-> ->] by (by inversion Hret). clear Hret. simpl.
  destruct Hloaded as (_ & (_ & _ & _ & Hp) & _ & _ & Hpolicies).
  rewrite Hp in Hpolicies. rewrite Forall_forall in Hpolicies.
  revert Hfold. apply (foldM_inv _ (Forall (policy_resolves (dictionary w)))); [| constructor].
  intros acc policyDefinition wa wb acc' Hin Hacc Hstep.
  specialize (Hpolicies _ Hin).
  apply bind_inv_ok in Hstep as (wc & settings & Hsettings & Hpush).
  assert (Hres : ∀ l, settings = Some l → Forall (setting_resolves (dictionary w)) l).
  { intros l ->.
    destruct (List.find _ (role_policies userRole)) as [[name [|rs rss]]|].
    - destruct (pol_defaultSetting policyDefinition) as [defaultSetting|];
        [| unfold ret in Hsettings; simplify_eq].
      destruct (truthy_str (Some defaultSetting)); [| unfold ret in Hsettings; simplify_eq].
      apply bind_inv_ok in Hsettings as (wd & l' & Hcollect & Hret).
      unfold ret in Hret. simplify_eq.
      eapply collectRolePolicySettingDefinitions_resolves; eauto.
    - apply bind_inv_ok in Hsettings as (wd & l' & Hcollect & Hret).
      unfold ret in Hret. simplify_eq.
      eapply collectRolePolicySettingDefinitions_resolves; eauto.
    - destruct (pol_defaultSetting policyDefinition) as [defaultSetting|];
        [| unfold ret in Hsettings; simplify_eq].
      destruct (truthy_str (Some defaultSetting)); [| unfold ret in Hsettings; simplify_eq].
      apply bind_inv_ok in Hsettings as (wd & l' & Hcollect & Hret).
      unfold ret in Hret. simplify_eq.
      eapply collectRolePolicySettingDefinitions_resolves; eauto. }
  destruct settings as [[|s l]|]; unfold ret in Hpush; simplify_eq; try done.
  apply Forall_app. split; [done |]. constructor; [| constructor].
  eexists. split; [reflexivity |]. by apply Hres.
Qed.

(** The view of an environment, computed. *)
Lemma environment_view_run snapshot w user userRole userPolicies env :
  loaded snapshot w →
  security_deactivated user w = (w, Ok false) →
  generateRolePolicies (Some userRole) w = (w, Ok userPolicies) →
  ∃ view,
    generateUserSecurityDataByEnvironment user userPolicies env w = (w, Ok view) ∧
    usd_resourceTypes view
      = Some (List.filter (declares env) (snap_resourceTypes snapshot)) ∧
    usd_dictionary view
      = Some (List.filter (λ resource, in_environment snapshot env (res_type resource))
                          (snap_dictionary snapshot)) ∧
    grants_of (default [] (usd_policies view))
      = List.filter (grant_in_environment snapshot env) (grants_of (ups_list userPolicies)).
Proof.
  intros Hloaded Huser Hrole.
  pose proof (generateRolePolicies_resolves _ _ _ _ _ Hloaded Hrole) as Hres.
  pose proof Hloaded as (_ & (_ & Hd & Hts & _) & Henv & Htypes & _).
  eexists. split; [| split; [| split]].
  - unfold generateUserSecurityDataByEnvironment, bind. rewrite Huser.
    rewrite (filterPolicyContentByEnvironment_run snapshot w Hloaded _ _ Hres).
    rewrite !(systemSecurityData_run snapshot w Hloaded).
    rewrite (filterM_run _ (λ resource, in_environment snapshot env (res_type resource))).
    2: { intros resource Hin. apply (type_in_environment_run snapshot w Hloaded).
         rewrite Forall_forall in Htypes. apply Htypes. by rewrite Hd. }
    rewrite (systemSecurityData_run snapshot w Hloaded).
    rewrite (filterM_run _ (declares env)).
    2: { intros type Hin. rewrite Forall_forall in Henv.
         destruct (Henv type) as [e He]; [by rewrite Hts |].
         unfold declares. by rewrite He. }
    reflexivity.
  - reflexivity.
  - reflexivity.
  - simpl. apply grants_of_environment_policies.
Qed.

Lemma in_both_filters {A} (p q : A → bool) (l : list A) (x : A) :
  x ∈ List.filter p l ∧ x ∈ List.filter q l ↔ x ∈ l ∧ p x = true ∧ q x = true.
Proof. rewrite !list_elem_of_In, !filter_In. tauto. Qed.

(** C8. Environment filtering.  Once a snapshot is loaded, the view that
    [generateUserSecurityDataByEnvironment] builds for an environment tag, for
    a user under a role, is: the resource types that declare the tag, the
    dictionary entries whose type declares it, and, of the user's policies,
    the grants on resources whose type declares it, nothing more and nothing
    less, in their order.  Hence a resource type, dictionary entry or grant is
    in both the client and the server view exactly when its resource type
    declares both; entries of a type that declares one of the two are in one
    view only. *)
Theorem environment_filter_keeps_declared_entries
    (snapshot : Snapshot) (w : World) (user : User) (userRole : Role)
    (userPolicies : UserPolicies) :
  loaded snapshot w →
  security_deactivated user w = (w, Ok false) →
  generateRolePolicies (Some userRole) w = (w, Ok userPolicies) →
  (∀ env, ∃ view,
     generateUserSecurityDataByEnvironment user userPolicies env w = (w, Ok view) ∧
     usd_resourceTypes view
       = Some (List.filter (declares env) (snap_resourceTypes snapshot)) ∧
     usd_dictionary view
       = Some (List.filter (λ resource, in_environment snapshot env (res_type resource))
                           (snap_dictionary snapshot)) ∧
     grants_of (default [] (usd_policies view))
       = List.filter (grant_in_environment snapshot env)
                     (grants_of (ups_list userPolicies))) ∧
  (∀ client server,
     generateUserSecurityDataByEnvironment user userPolicies "client" w = (w, Ok client) →
     generateUserSecurityDataByEnvironment user userPolicies "server" w = (w, Ok server) →
     (∀ type,
        type ∈ default [] (usd_resourceTypes client) ∧
        type ∈ default [] (usd_resourceTypes server) ↔
        type ∈ snap_resourceTypes snapshot ∧
        declares "client" type = true ∧ declares "server" type = true) ∧
     (∀ resource,
        resource ∈ default [] (usd_dictionary client) ∧
        resource ∈ default [] (usd_dictionary server) ↔
        resource ∈ snap_dictionary snapshot ∧
        in_environment snapshot "client" (res_type resource) = true ∧
        in_environment snapshot "server" (res_type resource) = true) ∧
     (∀ grant,
        grant ∈ grants_of (default [] (usd_policies client)) ∧
        grant ∈ grants_of (default [] (usd_policies server)) ↔
        grant ∈ grants_of (ups_list userPolicies) ∧
        grant_in_environment snapshot "client" grant = true ∧
        grant_in_environment snapshot "server" grant = true)).
Proof.
  intros Hloaded Huser Hrole. split.
  - intros env. by apply (environment_view_run snapshot w user userRole).
  - intros client server Hclient Hserver.
    destruct (environment_view_run snapshot w user userRole userPolicies "client"
                Hloaded Huser Hrole) as (c & Hc & Hct & Hcd & Hcg).
    destruct (environment_view_run snapshot w user userRole userPolicies "server"
                Hloaded Huser Hrole) as (s & Hs & Hst & Hsd & Hsg).
    rewrite Hclient in Hc. rewrite Hserver in Hs. simplify_eq.
    rewrite Hct, Hcd, Hcg, Hst, Hsd, Hsg. simpl.
    split; [| split]; intros x.
    + apply (in_both_filters (declares "client") (declares "server")).
    + apply (in_both_filters
               (λ resource, in_environment snapshot "client" (res_type resource))
               (λ resource, in_environment snapshot "server" (res_type resource))).
    + apply (in_both_filters (grant_in_environment snapshot "client")
                             (grant_in_environment snapshot "server")).
Qed.

(** On an [env] written as an array, declaring a tag is having it as an
    element. *)
Lemma declares_array type l tag :
  rt_env type = Some (EnvArray l) → declares tag type = true ↔ tag ∈ l.
Proof. intros He. unfold declares. rewrite He. simpl. apply bool_decide_eq_true. Qed.

End EnvironmentClaims.

(** C8 on the example: the server view of the example user keeps the server
    operation and the audit trail, which is declared for both environments;
    the client view keeps the menu, the form and the audit trail. *)
Lemma environment_filter_keeps_declared_entries_witness :
  ∃ client server,
    SecurityService.generateUserSecurityDataByEnvironment (H := example_runtime)
      example_user example_user_policies "client" world_after_load
      = (world_after_load, Ok client) ∧
    SecurityService.generateUserSecurityDataByEnvironment (H := example_runtime)
      example_user example_user_policies "server" world_after_load
      = (world_after_load, Ok server) ∧
    List.map res_name (default [] (SecurityService.usd_dictionary client))
      = [Some "Account menu"; Some "Account Screen Form"; Some "Account audit"] ∧
    List.map res_name (default [] (SecurityService.usd_dictionary server))
      = [Some "Account update"; Some "Account audit"] ∧
    grants_of (default [] (SecurityService.usd_policies server))
      = [grant "Account update" "allow"; audit_off].
Proof.
  destruct (service_load_inv (H := example_runtime) example_configuration initial_world
              world_after_load tt) as [snapshot Hloaded].
  { vm_compute. reflexivity. }
  assert (snapshot = example_snapshot) as ->.
  { destruct Hloaded as [Hssd _]. unfold example_snapshot. by rewrite Hssd. }
  destruct (environment_filter_keeps_declared_entries (H := example_runtime)
              example_snapshot world_after_load example_user example_role
              example_user_policies Hloaded) as [Hview _].
  - vm_compute. reflexivity.
  - vm_compute. reflexivity.
  - destruct (Hview "client") as (client & Hc & _ & Hcd & _).
    destruct (Hview "server") as (server & Hs & _ & Hsd & Hsg).
    exists client, server. rewrite Hcd, Hsd, Hsg.
    repeat split; try done; vm_compute; reflexivity.
Defined.

(** * Further properties *)

(** ** Lookups by name *)

Lemma find_named_none {A} (f : A → option string) (l : list A) (k : option string) :
  List.find (λ d, matches (f d) k) l = None → truthy_str k = true → k ∉ List.map f l.
Proof.
  intros Hnone Hk Hin. apply list_elem_of_In, in_map_iff in Hin as (d & Hd & Hin).
  pose proof (find_none _ _ Hnone _ Hin) as Hm. simpl in Hm.
  rewrite Hd in Hm. destruct k as [a|]; [| done]. simpl in Hm.
  by rewrite String.eqb_refl in Hm.
Qed.

Lemma find_named_some {A} (f : A → option string) (l : list A) (d : A) :
  NoDup (List.map f l) → d ∈ l → truthy_str (f d) = true →
  List.find (λ x, matches (f x) (f d)) l = Some d.
Proof.
  intros Hnodup Hin Hd. induction l as [|x l IH]; [by apply elem_of_nil in Hin |].
  simpl in *. apply NoDup_cons in Hnodup as [Hx Hnodup].
  apply elem_of_cons in Hin as [-> | Hin].
  - destruct (f x) as [a|]; [| done]. simpl. by rewrite String.eqb_refl.
  - destruct (matches (f x) (f d)) eqn:Hm; [| by apply IH].
    destruct (f x) as [a|] eqn:Hfx, (f d) as [b|] eqn:Hfd; try done. simpl in Hm.
    apply String.eqb_eq in Hm as ->. destruct Hx.
    rewrite <- Hfd. apply list_elem_of_In, in_map. by apply list_elem_of_In.
Qed.

Lemma find_named_matches {A} (f : A → option string) (l : list A) k d :
  List.find (λ x, matches (f x) k) l = Some d → f d = k ∧ d ∈ l.
Proof.
  intros Hf. apply find_some in Hf as [Hin Hm]. split; [| by apply list_elem_of_In].
  destruct (f d) as [a|], k as [b|]; try done. simpl in Hm.
  by apply String.eqb_eq in Hm as ->.
Qed.

(** ** What a successful load has checked and stored *)

Section LoaderFacts.
Context `{JsRuntime}.
Import SecurityDefinition.

Lemma addResourceType_facts resourceType w w' u :
  addResourceType resourceType w = (w', Ok u) →
  valid_type resourceType ∧
  type_named (resourceTypes w) (rt_name resourceType) = None ∧
  resourceTypes w' = resourceTypes w ++ [resourceType] ∧
  conditionFactories w' = conditionFactories w ∧
  uuids w' = uuids w.
Proof.
  unfold addResourceType, valid_type, type_named. intros Hrun. mrun.
  destruct (truthy_str (rt_name resourceType)) eqn:Hname; simpl in Hrun; [| discriminate].
  destruct (List.find _ (resourceTypes w)) as [d|] eqn:Hfind; simpl in Hrun; [discriminate |].
  destruct (rt_env resourceType) as [e|] eqn:Henv; simpl in Hrun; [| discriminate].
  destruct (env_truthy e) eqn:Htruthy; simpl in Hrun; [| discriminate].
  destruct (env_has e "server") eqn:Hserver; simpl in Hrun.
  - destruct (rt_apply resourceType) as [apply|] eqn:Happly; simpl in Hrun; [| discriminate].
    inversion Hrun; subst; clear Hrun. simpl.
    split; [| done]. split; [done |]. exists e. repeat split; eauto.
  - inversion Hrun; subst; clear Hrun. simpl.
    split; [| done]. split; [done |]. exists e.
    split; [done |]. split; [done |]. intros ?. congruence.
Qed.

Lemma initializeResourceTypes_facts resourceTypeList conditionFactoryList w w' u :
  initializeResourceTypes resourceTypeList conditionFactoryList w = (w', Ok u) →
  resourceTypes w' = default [] resourceTypeList ∧
  Forall valid_type (default [] resourceTypeList) ∧
  NoDup (List.map rt_name (default [] resourceTypeList)) ∧
  is_Some conditionFactoryList ∧ conditionFactories w' = conditionFactoryList ∧
  uuids w' = uuids w.
Proof.
  unfold initializeResourceTypes. intros Hrun.
  apply bind_inv_ok in Hrun as (w1 & [] & Hset & Hrun).
  apply bind_inv_ok in Hrun as (w2 & [] & Hcf & Hrun).
  apply bind_inv_ok in Hrun as (w3 & [] & Hrt & Hrun).
  unfold modify in Hset, Hrt.
  destruct conditionFactoryList as [cfl|]; [| discriminate].
  unfold ret in Hcf. simplify_eq.
  cut (∀ l i wa wb ub,
    forEach_from i l (λ resourceType typeName,
      try_catch (addResourceType resourceType)
        (λ e, throw (append_message e
           (" - invalid resource type [" +:+ pretty typeName +:+ "]: " +:+
            stringify_resourceType resourceType)))) wa = (wb, Ok ub) →
    Forall valid_type (resourceTypes wa) → NoDup (List.map rt_name (resourceTypes wa)) →
    resourceTypes wb = resourceTypes wa ++ l ∧
    Forall valid_type (resourceTypes wb) ∧ NoDup (List.map rt_name (resourceTypes wb)) ∧
    conditionFactories wb = conditionFactories wa ∧ uuids wb = uuids wa).
  { intros Hgen. destruct (Hgen _ _ _ _ _ Hrun) as (Hts & Hvalid & Hnodup & Hcf' & Hu).
    - constructor.
    - constructor.
    - simpl in Hts. rewrite <- Hts. repeat split; eauto. }
  clear. induction l as [|x l IH]; intros i wa wb ub Hl Hvalid Hnodup; simpl in Hl.
  - unfold ret in Hl. simplify_eq. by rewrite app_nil_r.
  - apply bind_inv_ok in Hl as (wc & [] & Hx & Hl).
    apply try_catch_inv_ok in Hx.
    apply addResourceType_facts in Hx as (Hv & Hfresh & Hts & Hcf & Hu).
    destruct (IH _ _ _ _ Hl) as (Hts' & Hvalid' & Hnodup' & Hcf' & Hu').
    + rewrite Hts. apply Forall_app. split; [done |]. constructor; [done | constructor].
    + rewrite Hts, map_app. simpl. apply NoDup_app. split; [done |]. split.
      * intros k Hk Hk'. apply list_elem_of_singleton in Hk' as ->.
        destruct Hv as [Hname _].
        exact (find_named_none rt_name _ _ Hfresh Hname Hk).
      * apply NoDup_singleton.
    + split; [by rewrite Hts', Hts, <- app_assoc |].
      split; [done |]. split; [done |]. split; congruence.
Qed.

Lemma stored_dictionary_names n l :
  List.map res_name (stored_dictionary n l) = List.map res_name l.
Proof. revert n. induction l as [|x l IH]; intros n; simpl; [done | by rewrite IH]. Qed.

Lemma stored_dictionary_length n l : length (stored_dictionary n l) = length l.
Proof. revert n. induction l as [|x l IH]; intros n; simpl; [done | by rewrite IH]. Qed.

Lemma addResourceToDictionary_facts protectedResource w w' u :
  addResourceToDictionary protectedResource w = (w', Ok u) →
  valid_resource (resourceTypes w) protectedResource ∧
  resource_named (dictionary w) (res_name protectedResource) = None ∧
  dictionary w' = dictionary w ++ [with_id (uuids w) protectedResource] ∧
  uuids w' = S (uuids w) ∧
  resourceTypes w' = resourceTypes w ∧ conditionFactories w' = conditionFactories w.
Proof.
  unfold addResourceToDictionary. intros Hrun.
  apply bind_inv_ok in Hrun as (w1 & [] & Hname & Hrun).
  apply assert_inv_ok in Hname as [Hname ->].
  apply bind_inv_ok in Hrun as (w1 & [] & Hlog & Hrun).
  apply bind_inv_ok in Hrun as (w2 & [] & Htype & Hrun).
  apply assert_inv_ok in Htype as [Htype ->].
  apply bind_inv_ok in Hrun as (w2 & [] & Hloc & Hrun).
  apply assert_inv_ok in Hloc as [Hloc ->].
  apply bind_inv_ok in Hrun as (w2 & [] & Hdef & Hrun).
  apply assert_inv_ok in Hdef as [Hdef ->].
  apply bind_inv_ok in Hrun as (w2 & resourceType & Hfind & Hrun).
  rewrite findResourceType_run in Hfind.
  destruct (type_named (resourceTypes w1) (res_type protectedResource))
    as [t|] eqn:Ht; [| discriminate].
  assert (w2 = w1 ∧ resourceType = t) as [-> ->] by (by inversion Hfind). clear Hfind.
  apply bind_inv_ok in Hrun as (w2 & settingObj & Hsetting & Hrun).
  rewrite findSetting_run in Hsetting.
  destruct (find_named_matches rt_name _ _ _ Ht) as [Hnamed _].
  rewrite Hnamed, Ht in Hsetting.
  assert (w2 = w1 ∧ settingObj = find_by_value (rt_settings t)
                                   (res_defaultSetting protectedResource))
    as [-> ->] by (by inversion Hsetting). clear Hsetting.
  apply bind_inv_ok in Hrun as (w2 & [] & Hlegal & Hrun).
  apply assert_inv_ok in Hlegal as [Hlegal ->].
  apply bool_decide_eq_true in Hlegal.
  apply bind_inv_ok in Hrun as (w2 & w2' & Hget & Hrun).
  unfold get in Hget. assert (w2 = w1 ∧ w2' = w1) as [-> ->] by (by inversion Hget).
  clear Hget.
  apply bind_inv_ok in Hrun as (w2 & [] & Hdup & Hrun).
  apply assert_inv_ok in Hdup as [Hdup ->].
  apply negb_true_iff, bool_decide_eq_false in Hdup.
  unfold modify in Hrun. unfold log, emit, modify in Hlog.
  assert (w1 = set_trace (trace w ++ [EvLog Debug "Add resource %b to dictionary"
                                        [res_name protectedResource]]) w)
    as -> by (by inversion Hlog).
  inversion Hrun; subst; clear Hrun Hlog. simpl in *.
  split; [| split]; [| | done].
  - repeat split; try done. exists t. by split.
  - unfold resource_named. destruct (List.find _ (dictionary w)); [| done].
    destruct Hdup. eauto.
Qed.

Lemma initializeDictionary_facts protectedResources w w' u :
  initializeDictionary protectedResources w = (w', Ok u) →
  ∃ l, protectedResources = Some l ∧
    dictionary w' = stored_dictionary (uuids w) l ∧
    Forall (valid_resource (resourceTypes w)) l ∧
    NoDup (List.map res_name l) ∧
    uuids w' = (uuids w + length l)%nat ∧
    resourceTypes w' = resourceTypes w ∧ conditionFactories w' = conditionFactories w.
Proof.
  unfold initializeDictionary. intros Hrun.
  apply bind_inv_ok in Hrun as (w1 & [] & Hset & Hrun).
  destruct protectedResources as [l|]; [| discriminate]. exists l. split; [done |].
  unfold modify in Hset. assert (w1 = set_dictionary [] w) as -> by (by inversion Hset).
  clear Hset. unfold forEach in Hrun.
  cut (∀ l i wa wb ub,
    forEach_from i l (λ protectedResource (_ : nat),
      try_catch (addResourceToDictionary protectedResource)
        (λ e, throw (append_message e
           (" - invalid protected resource in dictionary: " +:+
            stringify_protectedResource protectedResource)))) wa = (wb, Ok ub) →
    NoDup (List.map res_name (dictionary wa)) →
    dictionary wb = dictionary wa ++ stored_dictionary (uuids wa) l ∧
    Forall (valid_resource (resourceTypes wa)) l ∧
    NoDup (List.map res_name (dictionary wb)) ∧
    uuids wb = (uuids wa + length l)%nat ∧
    resourceTypes wb = resourceTypes wa ∧ conditionFactories wb = conditionFactories wa).
  { intros Hgen. destruct (Hgen _ _ _ _ _ Hrun) as (Hd & Hvalid & Hnodup & Hu & Hts & Hcf).
    - constructor.
    - simpl in *. rewrite Hd, stored_dictionary_names in Hnodup. done. }
  clear. induction l as [|x l IH]; intros i wa wb ub Hl Hnodup; simpl in Hl.
  - unfold ret in Hl. simplify_eq. rewrite app_nil_r, Nat.add_0_r. simpl.
    repeat split; done.
  - apply bind_inv_ok in Hl as (wc & [] & Hx & Hl).
    apply try_catch_inv_ok in Hx.
    apply addResourceToDictionary_facts in Hx as (Hv & Hfresh & Hd & Hu & Hts & Hcf).
    destruct (IH _ _ _ _ Hl) as (Hd' & Hvalid' & Hnodup' & Hu' & Hts' & Hcf').
    + rewrite Hd, map_app. simpl. apply NoDup_app. split; [done |]. split.
      * intros k Hk Hk'. apply list_elem_of_singleton in Hk' as ->.
        destruct Hv as [Hname _].
        exact (find_named_none res_name _ _ Hfresh Hname Hk).
      * apply NoDup_singleton.
    + split; [by rewrite Hd', Hd, Hu, <- app_assoc |].
      split; [constructor; [done | by rewrite <- Hts] |].
      split; [done |]. split; [simpl; lia |]. split; congruence.
Qed.

Lemma checkPolicyProtectedResource_facts config w w' u :
  checkPolicyProtectedResource config w = (w', Ok u) →
  w' = w ∧ valid_grant (resourceTypes w) (dictionary w) config.
Proof.
  unfold checkPolicyProtectedResource, valid_grant. intros Hrun.
  apply bind_inv_ok in Hrun as (w1 & r & Hfind & Hrun).
  rewrite findProtectedResourceByName_run in Hfind.
  assert (w1 = w ∧ r = resource_named (dictionary w) (prc_resource config))
    as [-> ->] by (by inversion Hfind). clear Hfind.
  destruct (resource_named _ _) as [resource|]; [| discriminate].
  apply bind_inv_ok in Hrun as (w1 & [] & Hsetting & Hrun).
  apply assert_inv_ok in Hsetting as [Hsetting ->].
  apply bind_inv_ok in Hrun as (w1 & resourceType & Htype & Hrun).
  rewrite findResourceType_run in Htype.
  destruct (type_named (resourceTypes w) (res_type resource)) as [t|] eqn:Ht; [| discriminate].
  assert (w1 = w ∧ resourceType = t) as [-> ->] by (by inversion Htype). clear Htype.
  apply bind_inv_ok in Hrun as (w1 & settingObj & Hfs & Hrun).
  rewrite findSetting_run, Ht in Hfs.
  assert (w1 = w ∧ settingObj = find_by_value (rt_settings t) (prc_setting config))
    as [-> ->] by (by inversion Hfs). clear Hfs.
  apply assert_inv_ok in Hrun as [Hlegal ->]. apply bool_decide_eq_true in Hlegal.
  split; [done |]. exists resource. repeat split; try done. exists t. by split.
Qed.

Lemma checkPolicySetting_facts config w w' stored :
  checkPolicySetting config w = (w', Ok stored) →
  w' = w ∧ valid_setting (resourceTypes w) (dictionary w) config ∧
  stored = stored_setting config.
Proof.
  unfold checkPolicySetting, valid_setting. intros Hrun.
  apply bind_inv_ok in Hrun as (w1 & [] & Hlabel & Hrun).
  apply assert_inv_ok in Hlabel as [Hlabel ->].
  destruct (ps_protectedResources config) as [grants|] eqn:Hg.
  - apply bind_inv_ok in Hrun as (w2 & [] & Hloop & Hret).
    unfold ret in Hret. assert (w2 = w' ∧ stored = config) as [-> ->] by (by inversion Hret).
    clear Hret.
    assert (HI : w' = w ∧ Forall (valid_grant (resourceTypes w) (dictionary w)) grants).
    { eapply (forEach_inv _ (λ wx, wx = w)); [| reflexivity | exact Hloop].
      intros g wa wb ub _ -> Hstep. apply try_catch_inv_ok in Hstep.
      by apply checkPolicyProtectedResource_facts in Hstep as [-> ?]. }
    destruct HI as [-> Hall]. split; [done |]. split; [done |].
    destruct config. simpl in Hg. subst. reflexivity.
  - unfold ret in Hrun. inversion Hrun; subst; clear Hrun.
    split; [done |]. split; [| by unfold stored_setting; rewrite Hg].
    split; [done | constructor].
Qed.

Lemma find_stored_setting label settings :
  is_Some (List.find (λ s, matches (ps_setting s) label) (List.map stored_setting settings)) ↔
  is_Some (List.find (λ s, matches (ps_setting s) label) settings).
Proof.
  induction settings as [|s l IH]; simpl; [done |].
  destruct (matches (ps_setting s) label); [| done]. split; eauto.
Qed.

Lemma addPolicy_facts policy w w' u :
  addPolicy policy w = (w', Ok u) →
  valid_policy (resourceTypes w) (dictionary w) policy ∧
  List.find (λ p, matches (pol_name p) (pol_name policy)) (policies w) = None ∧
  policies w' = policies w ++ [stored_policy policy] ∧
  dictionary w' = dictionary w ∧ resourceTypes w' = resourceTypes w ∧
  conditionFactories w' = conditionFactories w ∧ uuids w' = uuids w.
Proof.
  unfold addPolicy, valid_policy. intros Hrun.
  apply bind_inv_ok in Hrun as (w1 & [] & Hname & Hrun).
  apply assert_inv_ok in Hname as [Hname ->].
  apply bind_inv_ok in Hrun as (w1 & [] & Hlog & Hrun).
  unfold log, emit, modify in Hlog.
  assert (w1 = set_trace (trace w ++ [EvLog Debug "Add policy %b" [pol_name policy]]) w)
    as -> by (by inversion Hlog). clear Hlog.
  destruct (pol_settings policy) as [settings|] eqn:Hs; [| discriminate].
  apply bind_inv_ok in Hrun as (w1 & w1' & Hget & Hrun). unfold get in Hget.
  assert (w1 = set_trace (trace w ++ [EvLog Debug "Add policy %b" [pol_name policy]]) w
          ∧ w1' = w1) as [-> ->] by (by inversion Hget). clear Hget.
  set (w1 := set_trace _ w) in *.
  apply bind_inv_ok in Hrun as (w2 & [] & Hdup & Hrun).
  apply assert_inv_ok in Hdup as [Hdup ->].
  apply negb_true_iff, bool_decide_eq_false in Hdup.
  apply bind_inv_ok in Hrun as (w3 & settings' & Hmap & Hrun).
  apply bind_inv_ok in Hrun as (w4 & [] & Hdefault & Hrun).
  assert (HI : w3 = w1 ∧
    Forall2 (λ config stored,
      valid_setting (resourceTypes w) (dictionary w) config ∧ stored = stored_setting config)
      settings settings').
  { eapply (mapM_inv _ (λ wx, wx = w1)); [| reflexivity | exact Hmap].
    intros x wa wb y _ -> Hstep. apply try_catch_inv_ok in Hstep.
    by apply checkPolicySetting_facts in Hstep as (-> & ? & ?). }
  destruct HI as [-> Hall].
  assert (Hstored : settings' = List.map stored_setting settings).
  { clear -Hall. induction Hall as [|x y l l' [_ ->] _ IH]; simpl; [done | by rewrite IH]. }
  assert (Hvalid : Forall (valid_setting (resourceTypes w) (dictionary w)) settings).
  { clear -Hall. induction Hall as [|x y l l' [? _] _ IH]; by constructor. }
  assert (Hd : w4 = w1 ∧
    (truthy_str (pol_defaultSetting policy) = true →
     is_Some (List.find (λ s, matches (ps_setting s) (pol_defaultSetting policy)) settings))).
  { destruct (truthy_str (pol_defaultSetting policy)).
    - apply assert_inv_ok in Hdefault as [Hfound ->]. split; [done |]. intros _.
      apply bool_decide_eq_true in Hfound. rewrite Hstored in Hfound.
      by apply find_stored_setting.
    - unfold ret in Hdefault. by inversion Hdefault. }
  destruct Hd as [-> Hd].
  unfold modify in Hrun. inversion Hrun; subst; clear Hrun. simpl.
  split; [| split]; [| | by unfold stored_policy; rewrite Hs].
  - split; [done |]. exists settings. by repeat split.
  - destruct (List.find _ (policies w)) eqn:Hf; [| done]. destruct Hdup.
    subst w1. simpl. rewrite Hf. eauto.
Qed.

Lemma stored_policy_names l : List.map pol_name (List.map stored_policy l) = List.map pol_name l.
Proof. induction l as [|x l IH]; simpl; [done | by rewrite IH]. Qed.

Lemma initializePolicies_facts policyList w w' u :
  initializePolicies policyList w = (w', Ok u) →
  ∃ l, policyList = Some l ∧
    policies w' = List.map stored_policy l ∧
    Forall (valid_policy (resourceTypes w) (dictionary w)) l ∧
    NoDup (List.map pol_name l) ∧
    dictionary w' = dictionary w ∧ resourceTypes w' = resourceTypes w ∧
    conditionFactories w' = conditionFactories w ∧ uuids w' = uuids w.
Proof.
  unfold initializePolicies. intros Hrun.
  apply bind_inv_ok in Hrun as (w1 & [] & Hset & Hrun).
  destruct policyList as [l|]; [| discriminate]. exists l. split; [done |].
  unfold modify in Hset. assert (w1 = set_policies [] w) as -> by (by inversion Hset).
  clear Hset. unfold forEach in Hrun.
  cut (∀ l i wa wb ub,
    forEach_from i l (λ policy (_ : nat),
      try_catch (addPolicy policy)
        (λ e, throw (append_message e
           (" - invalid policy [" +:+ show_str (pol_name policy) +:+ "]")))) wa
      = (wb, Ok ub) →
    NoDup (List.map pol_name (policies wa)) →
    policies wb = policies wa ++ List.map stored_policy l ∧
    Forall (valid_policy (resourceTypes wa) (dictionary wa)) l ∧
    NoDup (List.map pol_name (policies wb)) ∧
    dictionary wb = dictionary wa ∧ resourceTypes wb = resourceTypes wa ∧
    conditionFactories wb = conditionFactories wa ∧ uuids wb = uuids wa).
  { intros Hgen.
    destruct (Hgen _ _ _ _ _ Hrun) as (Hp & Hvalid & Hnodup & Hd & Hts & Hcf & Hu).
    - constructor.
    - simpl in *. rewrite Hp, stored_policy_names in Hnodup. done. }
  clear. induction l as [|x l IH]; intros i wa wb ub Hl Hnodup; simpl in Hl.
  - unfold ret in Hl. simplify_eq. rewrite app_nil_r. repeat split; done.
  - apply bind_inv_ok in Hl as (wc & [] & Hx & Hl).
    apply try_catch_inv_ok in Hx.
    apply addPolicy_facts in Hx as (Hv & Hfresh & Hp & Hd & Hts & Hcf & Hu).
    destruct (IH _ _ _ _ Hl) as (Hp' & Hvalid' & Hnodup' & Hd' & Hts' & Hcf' & Hu').
    + rewrite Hp, map_app. simpl. apply NoDup_app. split; [done |]. split.
      * intros k Hk Hk'. apply list_elem_of_singleton in Hk' as ->.
        destruct Hv as [Hname _].
        exact (find_named_none pol_name _ _ Hfresh Hname Hk).
      * apply NoDup_singleton.
    + split; [by rewrite Hp', Hp, <- app_assoc |].
      split; [constructor; [done | by rewrite <- Hts, <- Hd] |].
      split; [done |]. repeat split; congruence.
Qed.

(** Everything a successful integrity check has established, in terms of
    the configuration. *)
Lemma integrity_check_facts security w w' snapshot :
  integrity_check security w = (w', Ok snapshot) →
  ∃ dictionary' policies',
    cfg_dictionary security = Some dictionary' ∧ cfg_policies security = Some policies' ∧
    is_Some (cfg_conditionFactories security) ∧
    snapshot = {| snap_conditionFactories := cfg_conditionFactories security;
                  snap_dictionary := stored_dictionary (uuids w) dictionary';
                  snap_resourceTypes := default [] (cfg_resourceTypes security);
                  snap_policies := List.map stored_policy policies' |} ∧
    registries_of snapshot w' ∧
    uuids w' = (uuids w + length dictionary')%nat ∧
    Forall valid_type (default [] (cfg_resourceTypes security)) ∧
    NoDup (List.map rt_name (default [] (cfg_resourceTypes security))) ∧
    Forall (valid_resource (default [] (cfg_resourceTypes security))) dictionary' ∧
    NoDup (List.map res_name dictionary') ∧
    Forall (valid_policy (default [] (cfg_resourceTypes security))
                         (stored_dictionary (uuids w) dictionary')) policies' ∧
    NoDup (List.map pol_name policies').
Proof.
  unfold integrity_check. intros Hrun.
  apply bind_inv_ok in Hrun as (w1 & [] & Hlog & Hrun).
  apply bind_inv_ok in Hrun as (w2 & [] & Htypes & Hrun).
  apply bind_inv_ok in Hrun as (w3 & [] & Hdict & Hrun).
  apply bind_inv_ok in Hrun as (w4 & [] & Hpol & Hrun).
  apply bind_inv_ok in Hrun as (w5 & [] & Hlog' & Hrun).
  unfold log, emit, modify in Hlog, Hlog'.
  assert (w1 = set_trace (trace w ++ [EvLog Info "Checking security policy data integrity..." []]) w)
    as -> by (by inversion Hlog). clear Hlog.
  assert (w5 = set_trace (trace w4 ++ [EvLog Info "Security policy data integrity PASSED." []]) w4)
    as -> by (by inversion Hlog'). clear Hlog'.
  apply initializeResourceTypes_facts in Htypes as (Hts & Hvt & Hnt & Hcfs & Hcf & Hu).
  apply initializeDictionary_facts in Hdict
    as (dict & Hdict & Hd & Hvd & Hnd & Hu' & Hts' & Hcf').
  apply initializePolicies_facts in Hpol
    as (pols & Hpols & Hp & Hvp & Hnp & Hd'' & Hts'' & Hcf'' & Hu'').
  unfold bind, get, ret in Hrun. inversion Hrun; subst; clear Hrun. simpl in *.
  exists dict, pols.
  rewrite Hts', Hts in Hvp. rewrite Hd, Hu in Hvp. rewrite Hts in Hvd.
  split; [done |]. split; [done |]. split; [done |].
  assert (Hd4 : dictionary w4 = stored_dictionary (uuids w) dict) by congruence.
  assert (Ht4 : resourceTypes w4 = default [] (cfg_resourceTypes security)) by congruence.
  assert (Hc4 : conditionFactories w4 = cfg_conditionFactories security) by congruence.
  split; [by rewrite Hd4, Ht4, Hc4, Hp |].
  split; [by rewrite Hd4, Ht4, Hc4, Hp |].
  split; [lia |]. by repeat split.
Qed.

End LoaderFacts.

(** ** Stored copies pass the same checks *)

Lemma find_named_absent {A} (f : A → option string) (l : list A) (k : option string) :
  k ∉ List.map f l → List.find (λ d, matches (f d) k) l = None.
Proof.
  intros Hk. destruct (List.find _ l) as [d|] eqn:Hf; [| done].
  apply find_named_matches in Hf as [Hd Hin]. destruct Hk. rewrite <- Hd.
  apply list_elem_of_In, in_map. by apply list_elem_of_In.
Qed.

Section StoredCopies.
Context `{JsRuntime}.

Lemma resource_named_stored n dictionary name :
  match resource_named (stored_dictionary n dictionary) name,
        resource_named dictionary name with
  | Some stored, Some resource => ∃ i, stored = with_id i resource
  | None, None => True
  | _, _ => False
  end.
Proof.
  unfold resource_named. revert n.
  induction dictionary as [|resource l IH]; intros n; simpl; [done |].
  destruct (matches (res_name resource) name); [by exists n |]. apply IH.
Qed.

Lemma valid_resource_stored resourceTypes n resource :
  valid_resource resourceTypes (with_id n resource) ↔ valid_resource resourceTypes resource.
Proof. done. Qed.

Lemma valid_grant_stored resourceTypes n dictionary grant :
  valid_grant resourceTypes (stored_dictionary n dictionary) grant
  ↔ valid_grant resourceTypes dictionary grant.
Proof.
  unfold valid_grant. pose proof (resource_named_stored n dictionary (prc_resource grant)) as Hn.
  destruct (resource_named (stored_dictionary n dictionary) _) as [stored|],
           (resource_named dictionary _) as [resource|]; try done.
  destruct Hn as [i ->].
  split; intros (r & Hr & Hs & Hl); inversion Hr; subst; simpl in *; eauto.
Qed.

Lemma valid_setting_stored resourceTypes n dictionary policySetting :
  valid_setting resourceTypes (stored_dictionary n dictionary) policySetting
  ↔ valid_setting resourceTypes dictionary policySetting.
Proof.
  unfold valid_setting. rewrite !Forall_forall.
  split; intros [Hs Hg]; (split; [done |]); intros g Hin;
    by apply (valid_grant_stored resourceTypes n dictionary), Hg.
Qed.

Lemma valid_policy_stored resourceTypes n dictionary policy :
  valid_policy resourceTypes (stored_dictionary n dictionary) policy
  ↔ valid_policy resourceTypes dictionary policy.
Proof.
  unfold valid_policy.
  split; intros (Hname & settings & Hs & Hall & Hd); (split; [done |]);
    exists settings; (split; [done |]); (split; [| done]);
    rewrite Forall_forall in Hall |- *; intros s Hin;
    by apply (valid_setting_stored resourceTypes n dictionary), Hall.
Qed.

Lemma valid_setting_completed resourceTypes dictionary policySetting :
  valid_setting resourceTypes dictionary (stored_setting policySetting)
  ↔ valid_setting resourceTypes dictionary policySetting.
Proof. done. Qed.

Lemma valid_policy_completed resourceTypes dictionary policy :
  valid_policy resourceTypes dictionary policy →
  valid_policy resourceTypes dictionary (stored_policy policy).
Proof.
  intros (Hname & settings & Hs & Hall & Hd). split; [done |].
  exists (List.map stored_setting settings). unfold stored_policy. rewrite Hs. simpl.
  split; [done |]. split.
  - apply Forall_fmap. eapply Forall_impl; [exact Hall |]. done.
  - intros Ht. apply find_stored_setting. by apply Hd.
Qed.

Lemma grants_of_stored policies :
  grants_of (List.map stored_policy policies) = grants_of policies.
Proof.
  unfold grants_of. rewrite List.map_map. f_equal. apply List.map_ext. intros policy.
  simpl. rewrite List.map_map. f_equal.
Qed.

End StoredCopies.

(** ** A valid configuration passes every check *)

Lemma forEach_run {A} (f : A → M unit) (l : list A) w :
  (∀ x, x ∈ l → f x w = (w, Ok tt)) → forEach l f w = (w, Ok tt).
Proof.
  unfold forEach. generalize 0%nat as i.
  induction l as [|x l IH]; intros i Hf; simpl; [done |].
  unfold bind. rewrite (Hf x) by by left. apply IH. intros y Hy. apply Hf. by right.
Qed.

Lemma mapM_run {A B} (f : A → M B) (g : A → B) (l : list A) w :
  (∀ x, x ∈ l → f x w = (w, Ok (g x))) → mapM f l w = (w, Ok (List.map g l)).
Proof.
  induction l as [|x l IH]; intros Hf; simpl; [done |].
  unfold bind. rewrite (Hf x) by by left.
  rewrite IH by (intros y Hy; apply Hf; by right). done.
Qed.

Lemma try_catch_ok {A} (m : M A) (h : Exn → M A) w w' a :
  m w = (w', Ok a) → try_catch m h w = (w', Ok a).
Proof. intros Hm. unfold try_catch. by rewrite Hm. Qed.

Lemma assert_ok c msg w : c = true → assert c msg w = (w, Ok tt).
Proof. by intros ->. Qed.

Section LoaderRuns.
Context `{JsRuntime}.
Import SecurityDefinition.

Lemma addResourceType_runs resourceType w :
  valid_type resourceType →
  rt_name resourceType ∉ List.map rt_name (resourceTypes w) →
  ∃ w', addResourceType resourceType w = (w', Ok tt).
Proof.
  intros (Hname & e & Henv & Htruthy & Happly) Hfresh.
  unfold addResourceType. mrun. rewrite Hname. simpl.
  rewrite (find_named_absent rt_name _ _ Hfresh). simpl. rewrite Henv. simpl.
  rewrite Htruthy. simpl.
  destruct (env_has e "server"); simpl; [| eauto].
  destruct Happly as [apply ->]; [done |]. simpl. eauto.
Qed.

Lemma initializeResourceTypes_runs resourceTypeList conditionFactoryList w :
  is_Some conditionFactoryList →
  Forall valid_type (default [] resourceTypeList) →
  NoDup (List.map rt_name (default [] resourceTypeList)) →
  ∃ w', initializeResourceTypes resourceTypeList conditionFactoryList w = (w', Ok tt).
Proof.
  intros [factories ->] Hvalid Hnodup. unfold initializeResourceTypes.
  unfold bind, modify, ret.
  generalize 0%nat as i.
  assert (Hstart : NoDup (List.map rt_name
            (resourceTypes (set_resourceTypes []
               (set_conditionFactories (Some factories) w))) ++
          List.map rt_name (default [] resourceTypeList))) by done.
  revert Hstart. generalize (set_resourceTypes [] (set_conditionFactories (Some factories) w)).
  clear Hnodup. induction Hvalid as [|x l Hx Hl IH]; intros wa Hnodup i; simpl.
  { unfold ret. eauto. }
  simpl in Hnodup. apply NoDup_app in Hnodup as (Hwa & Hdisj & Hxl).
  apply NoDup_cons in Hxl as [Hxl Hl'].
  destruct (addResourceType_runs x wa Hx) as [wb Hrun].
  { intros Hin. apply (Hdisj _ Hin). by left. }
  unfold bind. rewrite (try_catch_ok _ _ _ _ _ Hrun).
  apply addResourceType_facts in Hrun as (_ & _ & Hts & _).
  apply IH. rewrite Hts, map_app. simpl. rewrite <- app_assoc. simpl.
  apply NoDup_app. split; [done |]. split; [| by apply NoDup_cons].
  intros k Hk Hk'. apply elem_of_cons in Hk' as [-> | Hk']; [| by apply (Hdisj _ Hk); right].
  apply (Hdisj _ Hk). by left.
Qed.

Lemma addResourceToDictionary_runs protectedResource w :
  valid_resource (resourceTypes w) protectedResource →
  res_name protectedResource ∉ List.map res_name (dictionary w) →
  ∃ w', addResourceToDictionary protectedResource w = (w', Ok tt).
Proof.
  intros (Hname & Htype & Hlocator & Hdefault & definition & Hdef & Hlegal) Hfresh.
  unfold addResourceToDictionary.
  unfold assert at 1. rewrite Hname. unfold bind at 1. unfold ret at 1.
  unfold bind at 1. unfold log, emit, modify.
  unfold assert at 1. rewrite Htype. unfold bind at 1. unfold ret at 1.
  unfold assert at 1. rewrite Hlocator. unfold bind at 1. unfold ret at 1.
  unfold assert at 1. rewrite Hdefault. unfold bind at 1. unfold ret at 1.
  unfold bind at 1. rewrite findResourceType_run. simpl resourceTypes.
  rewrite Hdef.
  assert (Hn : rt_name definition = res_type protectedResource).
  { unfold type_named in Hdef. by apply find_named_matches in Hdef as [? _]. }
  unfold bind at 1. rewrite findSetting_run. simpl resourceTypes. rewrite Hn, Hdef.
  unfold assert at 1. rewrite (bool_decide_eq_true_2 _ Hlegal).
  unfold bind at 1. unfold ret at 1. unfold bind at 1. unfold get at 1.
  simpl dictionary. rewrite (find_named_absent res_name _ _ Hfresh).
  mrun. eauto.
Qed.

Lemma initializeDictionary_runs protectedResources w :
  Forall (valid_resource (resourceTypes w)) protectedResources →
  NoDup (List.map res_name protectedResources) →
  ∃ w', initializeDictionary (Some protectedResources) w = (w', Ok tt).
Proof.
  intros Hvalid Hnodup. unfold initializeDictionary, forEach.
  unfold bind at 1. unfold modify at 1.
  generalize 0%nat as i.
  assert (Hstart : NoDup (List.map res_name (dictionary (set_dictionary [] w)) ++
                          List.map res_name protectedResources)) by done.
  assert (Htypes : resourceTypes (set_dictionary [] w) = resourceTypes w) by done.
  revert Hstart Htypes. generalize (set_dictionary [] w).
  clear Hnodup. induction Hvalid as [|x l Hx Hl IH]; intros wa Hnodup Htypes i; simpl.
  { unfold ret. eauto. }
  simpl in Hnodup. apply NoDup_app in Hnodup as (Hwa & Hdisj & Hxl).
  apply NoDup_cons in Hxl as [Hxl Hl'].
  destruct (addResourceToDictionary_runs x wa) as [wb Hrun].
  { by rewrite Htypes. }
  { intros Hin. apply (Hdisj _ Hin). by left. }
  unfold bind. rewrite (try_catch_ok _ _ _ _ _ Hrun).
  apply addResourceToDictionary_facts in Hrun as (_ & _ & Hd & _ & Hts & _).
  apply IH; [| congruence]. rewrite Hd, map_app. simpl. rewrite <- app_assoc. simpl.
  apply NoDup_app. split; [done |]. split; [| by apply NoDup_cons].
  intros k Hk Hk'. apply elem_of_cons in Hk' as [-> | Hk']; [| by apply (Hdisj _ Hk); right].
  apply (Hdisj _ Hk). by left.
Qed.

Lemma checkPolicyProtectedResource_runs config w :
  valid_grant (resourceTypes w) (dictionary w) config →
  checkPolicyProtectedResource config w = (w, Ok tt).
Proof.
  intros (resource & Hres & Hsetting & definition & Hdef & Hlegal).
  unfold checkPolicyProtectedResource.
  unfold bind at 1. rewrite findProtectedResourceByName_run. fold (resource_named (dictionary w) (prc_resource config)).
  rewrite Hres.
  unfold assert at 1. rewrite Hsetting. unfold bind at 1. unfold ret at 1.
  unfold bind at 1. rewrite findResourceType_run, Hdef.
  unfold bind at 1. rewrite findSetting_run, Hdef.
  unfold assert. by rewrite (bool_decide_eq_true_2 _ Hlegal).
Qed.

Lemma checkPolicySetting_runs config w :
  valid_setting (resourceTypes w) (dictionary w) config →
  checkPolicySetting config w = (w, Ok (stored_setting config)).
Proof.
  intros [Hsetting Hgrants]. unfold checkPolicySetting.
  unfold assert at 1. rewrite Hsetting. unfold bind at 1. unfold ret at 1.
  unfold stored_setting.
  destruct (ps_protectedResources config) as [grants|] eqn:Hg; simpl in *; [| done].
  unfold bind. rewrite forEach_run.
  - unfold ret. destruct config. simpl in *. by subst.
  - intros g Hin. apply try_catch_ok, checkPolicyProtectedResource_runs.
    rewrite Forall_forall in Hgrants. by apply Hgrants.
Qed.

Lemma addPolicy_runs policy w :
  valid_policy (resourceTypes w) (dictionary w) policy →
  pol_name policy ∉ List.map pol_name (policies w) →
  ∃ w', addPolicy policy w = (w', Ok tt).
Proof.
  intros (Hname & settings & Hs & Hvalid & Hdefault) Hfresh.
  unfold addPolicy.
  erewrite bind_ok; [| by apply assert_ok].
  erewrite bind_ok; [| reflexivity]. rewrite Hs.
  erewrite bind_ok; [| reflexivity].
  erewrite bind_ok.
  2: { apply assert_ok. simpl policies. by rewrite (find_named_absent pol_name _ _ Hfresh). }
  erewrite bind_ok.
  2: { apply (mapM_run _ stored_setting). intros s Hin.
       apply try_catch_ok, checkPolicySetting_runs. simpl.
       rewrite Forall_forall in Hvalid. by apply Hvalid. }
  erewrite bind_ok.
  2: { destruct (truthy_str (pol_defaultSetting policy)) eqn:Ht; [| reflexivity].
       apply assert_ok, bool_decide_eq_true_2, find_stored_setting. by apply Hdefault. }
  unfold modify. eauto.
Qed.

Lemma initializePolicies_runs policyList w :
  Forall (valid_policy (resourceTypes w) (dictionary w)) policyList →
  NoDup (List.map pol_name policyList) →
  ∃ w', initializePolicies (Some policyList) w = (w', Ok tt).
Proof.
  intros Hvalid Hnodup. unfold initializePolicies, forEach.
  unfold bind at 1. unfold modify at 1.
  generalize 0%nat as i.
  assert (Hstart : NoDup (List.map pol_name (policies (set_policies [] w)) ++
                          List.map pol_name policyList)) by done.
  assert (Htypes : resourceTypes (set_policies [] w) = resourceTypes w) by done.
  assert (Hdict : dictionary (set_policies [] w) = dictionary w) by done.
  revert Hstart Htypes Hdict. generalize (set_policies [] w).
  clear Hnodup. induction Hvalid as [|x l Hx Hl IH]; intros wa Hnodup Htypes Hdict i; simpl.
  { unfold ret. eauto. }
  simpl in Hnodup. apply NoDup_app in Hnodup as (Hwa & Hdisj & Hxl).
  apply NoDup_cons in Hxl as [Hxl Hl'].
  destruct (addPolicy_runs x wa) as [wb Hrun].
  { by rewrite Htypes, Hdict. }
  { intros Hin. apply (Hdisj _ Hin). by left. }
  unfold bind. rewrite (try_catch_ok _ _ _ _ _ Hrun).
  apply addPolicy_facts in Hrun as (_ & _ & Hp & Hd & Hts & _).
  apply IH; [| congruence | congruence]. rewrite Hp, map_app. simpl.
  rewrite <- app_assoc. simpl.
  apply NoDup_app. split; [done |]. split; [| by apply NoDup_cons].
  intros k Hk Hk'. apply elem_of_cons in Hk' as [-> | Hk']; [| by apply (Hdisj _ Hk); right].
  apply (Hdisj _ Hk). by left.
Qed.

Lemma integrity_check_runs security w :
  valid_configuration security →
  ∃ w' snapshot, integrity_check security w = (w', Ok snapshot).
Proof.
  intros (Hcf & Hvt & Hnt & dict & pols & Hdict & Hpols & Hvd & Hnd & Hvp & Hnp).
  unfold integrity_check.
  unfold bind at 1. unfold log at 1. unfold emit, modify.
  destruct (initializeResourceTypes_runs (cfg_resourceTypes security)
              (cfg_conditionFactories security)
              (set_trace (trace w ++ [EvLog Info "Checking security policy data integrity..." []]) w)
              Hcf Hvt Hnt) as [w1 Hrun1].
  unfold bind at 1. rewrite Hrun1.
  apply initializeResourceTypes_facts in Hrun1 as (Hts1 & _ & _ & _ & _ & Hu1).
  rewrite Hdict, Hpols.
  destruct (initializeDictionary_runs dict w1) as [w2 Hrun2]; [by rewrite Hts1 | done |].
  unfold bind at 1. rewrite Hrun2.
  apply initializeDictionary_facts in Hrun2
    as (dict' & Hdict' & Hd2 & _ & _ & _ & Hts2 & _).
  assert (dict' = dict) as -> by congruence.
  destruct (initializePolicies_runs pols w2) as [w3 Hrun3]; [| done |].
  { rewrite Hts2, Hts1, Hd2. eapply Forall_impl; [exact Hvp |].
    intros p Hp. by apply valid_policy_stored. }
  unfold bind at 1. rewrite Hrun3. mrun. eauto.
Qed.

End LoaderRuns.

(** ** The definition loader: what a load returns *)

Section LoadedConfiguration.
Context `{JsRuntime}.
Import SecurityDefinition.

Lemma load_inv_ok security w w' snapshot :
  load security w = (w', Ok snapshot) → integrity_check security w = (w', Ok snapshot).
Proof.
  intros Hload.
  destruct (integrity_check security w) as [w1 [s|cause]] eqn:Hcheck.
  - by rewrite (load_run_ok _ _ _ _ Hcheck) in Hload.
  - rewrite (load_run_throw _ _ _ _ Hcheck) in Hload. discriminate.
Qed.

Lemma load_facts security w w' snapshot :
  load security w = (w', Ok snapshot) →
  snapshot = stored_configuration (uuids w) security ∧ registries_of snapshot w' ∧
  uuids w' = (uuids w + length (default [] (cfg_dictionary security)))%nat ∧
  valid_configuration security.
Proof.
  intros Hload. apply load_inv_ok, integrity_check_facts in Hload
    as (dict & pols & Hdict & Hpols & Hcf & -> & Hreg & Hu & Hvt & Hnt & Hvd & Hnd & Hvp & Hnp).
  unfold stored_configuration. rewrite Hdict, Hpols. simpl.
  split; [done |]. split; [done |]. split; [done |].
  split; [done |]. split; [done |]. split; [done |].
  exists dict, pols. repeat (split; [done |]). split; [| done].
  eapply Forall_impl; [exact Hvp |]. intros p Hp. exact (proj1 (valid_policy_stored _ _ _ _) Hp).
Qed.

(** X1. What [load] returns.  A load that succeeds returns the resource
    types of the configuration as given and in order, a copy of each
    dictionary entry in order with the next identifiers drawn, the policies
    in order with an empty list of grants written into every setting that
    had none, and the condition factories; the module-level registries hold
    the same lists, and one identifier was drawn per dictionary entry. *)
Theorem load_returns_checked_configuration (security : SecurityConfiguration)
    (w w' : World) (snapshot : Snapshot) :
  load security w = (w', Ok snapshot) →
  snapshot = stored_configuration (uuids w) security ∧
  registries_of snapshot w' ∧
  uuids w' = (uuids w + length (default [] (cfg_dictionary security)))%nat.
Proof. intros Hload. by apply load_facts in Hload as (? & ? & ? & _). Qed.

(** X2. The loader accepts exactly the valid configurations: [load] returns
    a snapshot if and only if the condition factories are given, every
    resource type, dictionary entry and policy passes the checks of its [add]
    function, and no name is repeated among the types, among the entries or
    among the policies; otherwise it throws. *)
Theorem load_succeeds_iff_valid (security : SecurityConfiguration) (w : World) :
  (∃ w' snapshot, load security w = (w', Ok snapshot)) ↔ valid_configuration security.
Proof.
  split.
  - intros (w' & snapshot & Hload). by apply load_facts in Hload as (_ & _ & _ & ?).
  - intros Hvalid. destruct (integrity_check_runs security w Hvalid) as (w' & snapshot & Hrun).
    exists w', snapshot. by apply load_run_ok.
Qed.

(** X3. Names are unique after a load: in the snapshot a successful load
    returns, no two resource types, no two dictionary entries and no two
    policies have the same name, and every one of them has a name. *)
Theorem loaded_names_are_unique (security : SecurityConfiguration)
    (w w' : World) (snapshot : Snapshot) :
  load security w = (w', Ok snapshot) →
  NoDup (List.map rt_name (snap_resourceTypes snapshot)) ∧
  NoDup (List.map res_name (snap_dictionary snapshot)) ∧
  NoDup (List.map pol_name (snap_policies snapshot)) ∧
  Forall (λ type, truthy_str (rt_name type) = true) (snap_resourceTypes snapshot) ∧
  Forall (λ resource, truthy_str (res_name resource) = true) (snap_dictionary snapshot) ∧
  Forall (λ policy, truthy_str (pol_name policy) = true) (snap_policies snapshot).
Proof.
  intros Hload. apply load_facts in Hload
    as (-> & _ & _ & _ & Hvt & Hnt & dict & pols & Hdict & Hpols & Hvd & Hnd & Hvp & Hnp).
  unfold stored_configuration. rewrite Hdict, Hpols. simpl.
  rewrite stored_dictionary_names, stored_policy_names.
  repeat (split; [done |]). split; [| split].
  - eapply Forall_impl; [exact Hvt |]. by intros t [? _].
  - clear -Hvd. generalize (uuids w).
    induction Hvd as [|r l [Hr _] _ IH]; intros n; simpl; constructor; [done | apply IH].
  - apply Forall_fmap. eapply Forall_impl; [exact Hvp |]. by intros p [? _].
Qed.

(** X4. Resource types of a loaded snapshot are usable: each has a name and
    a non-empty [env], and each type whose [env] contains 'server' has an
    [apply] function. *)
Theorem loaded_types_are_implemented (security : SecurityConfiguration)
    (w w' : World) (snapshot : Snapshot) :
  load security w = (w', Ok snapshot) →
  Forall (λ type,
      truthy_str (rt_name type) = true ∧
      ∃ env, rt_env type = Some env ∧ env_truthy env = true ∧
             (env_has env "server" = true → is_Some (rt_apply type)))
    (snap_resourceTypes snapshot).
Proof.
  intros Hload. by apply load_facts in Hload as (-> & _ & _ & _ & Hvt & _).
Qed.

(** X5. Dictionary entries of a loaded snapshot are complete and typed: each
    has a name, a type, a locator, a default setting and an identifier, its
    type is the name of a resource type of the snapshot, and its default
    setting is the value of one of the settings of that type. *)
Theorem loaded_entries_are_typed (security : SecurityConfiguration)
    (w w' : World) (snapshot : Snapshot) :
  load security w = (w', Ok snapshot) →
  Forall (λ resource,
      truthy_str (res_name resource) = true ∧ truthy_str (res_type resource) = true ∧
      truthy_str (res_locator resource) = true ∧
      truthy_str (res_defaultSetting resource) = true ∧
      is_Some (res_id resource) ∧
      ∃ definition,
        type_named (snap_resourceTypes snapshot) (res_type resource) = Some definition ∧
        is_Some (find_by_value (rt_settings definition) (res_defaultSetting resource)))
    (snap_dictionary snapshot).
Proof.
  intros Hload. apply load_facts in Hload
    as (-> & _ & _ & _ & _ & _ & dict & pols & Hdict & _ & Hvd & _).
  unfold stored_configuration. rewrite Hdict. simpl.
  clear -Hvd. generalize (uuids w).
  induction Hvd as [|r l (? & ? & ? & ? & ?) _ IH]; intros n; simpl; constructor;
    [| apply IH].
  simpl. do 4 (split; [done |]). split; [by eexists | done].
Qed.

Lemma valid_policies_grants resourceTypes dictionary policies :
  Forall (valid_policy resourceTypes dictionary) policies →
  Forall (valid_grant resourceTypes dictionary) (grants_of policies).
Proof.
  intros Hvalid. unfold grants_of. apply Forall_concat, Forall_fmap.
  eapply Forall_impl; [exact Hvalid |]. intros p (_ & settings & Hs & Hall & _). simpl. rewrite Hs. simpl.
  apply Forall_concat, Forall_fmap. eapply Forall_impl; [exact Hall |]. by intros s [_ ?].
Qed.

(** X6. Grants of a loaded snapshot are legal: every grant of every policy
    names an entry of the snapshot's dictionary, has a setting, and that
    setting is the value of one of the settings of the entry's resource
    type. *)
Theorem loaded_grants_are_legal (security : SecurityConfiguration)
    (w w' : World) (snapshot : Snapshot) :
  load security w = (w', Ok snapshot) →
  Forall (λ grant,
      ∃ resource definition,
        resource_named (snap_dictionary snapshot) (prc_resource grant) = Some resource ∧
        truthy_str (prc_setting grant) = true ∧
        type_named (snap_resourceTypes snapshot) (res_type resource) = Some definition ∧
        is_Some (find_by_value (rt_settings definition) (prc_setting grant)))
    (grants_of (snap_policies snapshot)).
Proof.
  intros Hload. apply load_facts in Hload
    as (-> & _ & _ & _ & _ & _ & dict & pols & Hdict & Hpols & _ & _ & Hvp & _).
  unfold stored_configuration. rewrite Hdict, Hpols. simpl. rewrite grants_of_stored.
  eapply Forall_impl; [exact (valid_policies_grants _ _ _ Hvp) |].
  intros g Hg. apply (valid_grant_stored _ (uuids w)) in Hg
    as (resource & Hres & Hs & definition & Hdef & Hlegal).
  by exists resource, definition.
Qed.

(** X7. Policies of a loaded snapshot are well formed: each has a list of
    settings, every setting has a label and a list of grants, and a policy's
    [defaultSetting], when it has one, is the label of one of its settings. *)
Theorem loaded_policies_are_well_formed (security : SecurityConfiguration)
    (w w' : World) (snapshot : Snapshot) :
  load security w = (w', Ok snapshot) →
  Forall (λ policy,
      ∃ settings, pol_settings policy = Some settings ∧
        Forall (λ policySetting,
                  truthy_str (ps_setting policySetting) = true ∧
                  is_Some (ps_protectedResources policySetting)) settings ∧
        (truthy_str (pol_defaultSetting policy) = true →
         is_Some (List.find (λ s, matches (ps_setting s) (pol_defaultSetting policy))
                            settings)))
    (snap_policies snapshot).
Proof.
  intros Hload. apply load_facts in Hload
    as (-> & _ & _ & _ & _ & _ & dict & pols & _ & Hpols & _ & _ & Hvp & _).
  unfold stored_configuration. rewrite Hpols. simpl.
  apply Forall_fmap. eapply Forall_impl; [exact Hvp |].
  intros p (_ & settings & Hs & Hall & Hd). simpl. rewrite Hs. simpl.
  exists (List.map stored_setting settings). split; [done |]. split.
  - apply Forall_fmap. eapply Forall_impl; [exact Hall |].
    intros s [Hl _]. simpl. split; [done | by eexists].
  - intros Ht. apply find_stored_setting. by apply Hd.
Qed.

(** X8. Lookups find what was loaded: after a successful load, looking up
    the name of any dictionary entry of the snapshot returns that entry, and
    looking up the name of any resource type of the snapshot returns that
    type, without changing the state. *)
Theorem loaded_names_are_found (security : SecurityConfiguration)
    (w w' : World) (snapshot : Snapshot) :
  load security w = (w', Ok snapshot) →
  (∀ resource, resource ∈ snap_dictionary snapshot →
     findProtectedResourceByName (res_name resource) w' = (w', Ok (Some resource))) ∧
  (∀ type, type ∈ snap_resourceTypes snapshot →
     findResourceType (rt_name type) w' = (w', Ok type)).
Proof.
  intros Hload. pose proof Hload as Hfacts. apply load_facts in Hfacts
    as (Hs & (_ & Hd & Hts & _) & _ & _ & Hvt & Hnt & dict & pols & Hdict & Hpols & Hvd & Hnd & _).
  split.
  - intros resource Hin. rewrite findProtectedResourceByName_run, Hd. do 2 f_equal.
    apply (find_named_some res_name); [| done |].
    + rewrite Hs. unfold stored_configuration. rewrite Hdict. simpl.
      by rewrite stored_dictionary_names.
    + rewrite Hs in Hin. unfold stored_configuration in Hin. rewrite Hdict in Hin.
      simpl in Hin. clear -Hvd Hin. revert Hin. generalize (uuids w).
      induction Hvd as [|r l [Hr _] _ IH]; intros n Hin; simpl in Hin.
      * by apply elem_of_nil in Hin.
      * apply elem_of_cons in Hin as [-> | Hin]; [done | by apply (IH (S n))].
  - intros type Hin. rewrite findResourceType_run, Hts. unfold type_named.
    rewrite (find_named_some rt_name); [done | | done |].
    + by rewrite Hs.
    + rewrite Hs in Hin. simpl in Hin. rewrite Forall_forall in Hvt.
      by destruct (Hvt _ Hin) as [? _].
Qed.

End LoadedConfiguration.

Lemma load_returns_checked_configuration_witness :
  example_snapshot = stored_configuration (H := example_runtime) 0 example_configuration ∧
  registries_of example_snapshot (fst example_load) ∧
  uuids (fst example_load) = 4%nat.
Proof.
  apply (load_returns_checked_configuration (H := example_runtime) example_configuration
           initial_world (fst example_load) example_snapshot).
  vm_compute. reflexivity.
Defined.

Lemma loaded_names_are_unique_witness :
  NoDup (List.map rt_name (snap_resourceTypes example_snapshot)) ∧
  NoDup (List.map res_name (snap_dictionary example_snapshot)) ∧
  NoDup (List.map pol_name (snap_policies example_snapshot)) ∧
  Forall (λ type, truthy_str (rt_name type) = true) (snap_resourceTypes example_snapshot) ∧
  Forall (λ resource, truthy_str (res_name resource) = true)
         (snap_dictionary example_snapshot) ∧
  Forall (λ policy, truthy_str (pol_name policy) = true) (snap_policies example_snapshot).
Proof.
  apply (loaded_names_are_unique (H := example_runtime) example_configuration
           initial_world (fst example_load) example_snapshot).
  vm_compute. reflexivity.
Defined.

Lemma loaded_types_are_implemented_witness :
  Forall (λ type,
      truthy_str (rt_name type) = true ∧
      ∃ env, rt_env type = Some env ∧ env_truthy env = true ∧
             (env_has env "server" = true → is_Some (rt_apply type)))
    (snap_resourceTypes example_snapshot).
Proof.
  apply (loaded_types_are_implemented (H := example_runtime) example_configuration
           initial_world (fst example_load) example_snapshot).
  vm_compute. reflexivity.
Defined.

Lemma loaded_entries_are_typed_witness :
  Forall (λ resource,
      truthy_str (res_name resource) = true ∧ truthy_str (res_type resource) = true ∧
      truthy_str (res_locator resource) = true ∧
      truthy_str (res_defaultSetting resource) = true ∧
      is_Some (res_id resource) ∧
      ∃ definition,
        type_named (snap_resourceTypes example_snapshot) (res_type resource)
          = Some definition ∧
        is_Some (find_by_value (rt_settings definition) (res_defaultSetting resource)))
    (snap_dictionary example_snapshot).
Proof.
  apply (loaded_entries_are_typed (H := example_runtime) example_configuration
           initial_world (fst example_load) example_snapshot).
  vm_compute. reflexivity.
Defined.

Lemma loaded_grants_are_legal_witness :
  Forall (λ grant,
      ∃ resource definition,
        resource_named (snap_dictionary example_snapshot) (prc_resource grant)
          = Some resource ∧
        truthy_str (prc_setting grant) = true ∧
        type_named (snap_resourceTypes example_snapshot) (res_type resource)
          = Some definition ∧
        is_Some (find_by_value (rt_settings definition) (prc_setting grant)))
    (grants_of (snap_policies example_snapshot)).
Proof.
  apply (loaded_grants_are_legal (H := example_runtime) example_configuration
           initial_world (fst example_load) example_snapshot).
  vm_compute. reflexivity.
Defined.

Lemma loaded_policies_are_well_formed_witness :
  Forall (λ policy,
      ∃ settings, pol_settings policy = Some settings ∧
        Forall (λ policySetting,
                  truthy_str (ps_setting policySetting) = true ∧
                  is_Some (ps_protectedResources policySetting)) settings ∧
        (truthy_str (pol_defaultSetting policy) = true →
         is_Some (List.find (λ s, matches (ps_setting s) (pol_defaultSetting policy))
                            settings)))
    (snap_policies example_snapshot).
Proof.
  apply (loaded_policies_are_well_formed (H := example_runtime) example_configuration
           initial_world (fst example_load) example_snapshot).
  vm_compute. reflexivity.
Defined.

Lemma loaded_names_are_found_witness :
  (∀ resource, resource ∈ snap_dictionary example_snapshot →
     SecurityDefinition.findProtectedResourceByName
       (res_name resource) (fst example_load)
     = (fst example_load, Ok (Some resource))) ∧
  (∀ type, type ∈ snap_resourceTypes example_snapshot →
     SecurityDefinition.findResourceType
       (rt_name type) (fst example_load)
     = (fst example_load, Ok type)).
Proof.
  apply (loaded_names_are_found (H := example_runtime) example_configuration
           initial_world (fst example_load) example_snapshot).
  vm_compute. reflexivity.
Defined.

(** ** user-policy.model.js: resolution *)

Section ResolutionFacts.
Context `{JsRuntime}.
Import UserPolicy.

Lemma pick_some_stays contextParams l :
  ∀ s r, pick contextParams (Some s) l = Ok r → is_Some r.
Proof.
  induction l as [|rc l IH]; intros s r; simpl.
  - inversion 1. by eexists.
  - destruct (answer _ contextParams) as [v|e]; [| discriminate].
    destruct (truthy v); [| apply IH]. simpl.
    destruct (js_gt _ _); apply IH.
Qed.

Lemma pick_result contextParams l :
  ∀ acc r, pick contextParams acc l = Ok r →
  (r = acc ∨ ∃ rc, rc ∈ l ∧ enabled contextParams rc ∧ r = Some (rc_setting rc)) ∧
  (r = None → Forall (disabled contextParams) l).
Proof.
  induction l as [|rc l IH]; intros acc r; simpl.
  - inversion 1. split; [by left | constructor].
  - destruct (answer _ contextParams) as [v|e] eqn:Ha; [| discriminate].
    destruct (truthy v) eqn:Ht; intros Hpick.
    + assert (Hen : enabled contextParams rc) by (exists v; done).
      split.
      * destruct (IH _ _ Hpick) as [[-> | (rc' & Hin & Hen' & ->)] _].
        -- unfold choose. destruct acc as [final|].
           ++ destruct (js_gt _ _); [right | by left]. exists rc. split; [by left | done].
           ++ right. exists rc. split; [by left | done].
        -- right. exists rc'. split; [by right | done].
      * intros ->. unfold choose in Hpick.
        destruct acc as [final|]; [destruct (js_gt _ _) |];
          apply pick_some_stays in Hpick as [? ?]; discriminate.
    + destruct (IH _ _ Hpick) as [Hr Hnone]. split.
      * destruct Hr as [-> | (rc' & Hin & Hen' & ->)]; [by left | right].
        exists rc'. split; [by right | done].
      * intros Hn. constructor; [by exists v | by apply Hnone].
Qed.

(** X9. Resolution returns the default or an enabled entry's setting.  When
    [calculateSetting] returns, the setting is that of one of the
    resource's contributed entries whose condition answered a truthy value
    for this call, or it is the dictionary default and every contributed
    entry's condition answered a falsy value; the state is only extended by
    the calls made to condition predicates. *)
Theorem resolution_returns_default_or_enabled_setting
    (protectedResource : ProtectedResourceObject) (contextParams : ContextParams)
    (w w' : World) (setting : obj) :
  calculateSetting protectedResource contextParams w = (w', Ok setting) →
  (∃ evs, w' = extends w evs) ∧
  ((setting = r_defaultSetting (pro_resource protectedResource) ∧
    Forall (disabled contextParams) (pro_settings protectedResource))
   ∨ ∃ resourceConfig, resourceConfig ∈ pro_settings protectedResource ∧
       enabled contextParams resourceConfig ∧ setting = rc_setting resourceConfig).
Proof.
  unfold calculateSetting.
  destruct (computeResourceSetting_run protectedResource contextParams w) as [evs ->].
  unfold resolve.
  destruct (pick contextParams None (pro_settings protectedResource)) as [[s|]|e] eqn:Hpick;
    inversion 1; subst; (split; [by exists evs |]);
    apply pick_result in Hpick as [Hr Hnone].
  - right. destruct Hr as [? | (rc & Hin & Hen & Hs)]; [discriminate |].
    exists rc. by inversion Hs.
  - left. split; [done | by apply Hnone].
Qed.

Lemma pick_throws contextParams before resourceConfig after e :
  Forall (λ rc, enabled contextParams rc ∨ disabled contextParams rc) before →
  answer (cps_checkIfEnabled (rc_policySetting resourceConfig)) contextParams = Throw e →
  ∀ acc, pick contextParams acc (before ++ resourceConfig :: after) = Throw e.
Proof.
  intros Hbefore He. induction Hbefore as [|rc l Hrc _ IH]; intros acc; simpl.
  - by rewrite He.
  - destruct Hrc as [(v & -> & _) | (v & -> & _)]; apply IH.
Qed.

(** X10. A throwing predicate aborts resolution.  If the condition predicate
    of a contributed entry throws for the given context params, and the
    conditions of the entries before it answer, [calculateSetting] throws
    that error, its message extended by the hint to pass the context params;
    no setting is returned, whatever the entries after it. *)
Theorem throwing_condition_aborts_resolution
    (protectedResource : ProtectedResourceObject) (contextParams : ContextParams)
    (before after : list ResourceConfig) (resourceConfig : ResourceConfig)
    (f : ConditionFn) (policySetting : PolicySettingConfig) (e : Exn) (w : World) :
  pro_settings protectedResource = before ++ resourceConfig :: after →
  Forall (λ rc, enabled contextParams rc ∨ disabled contextParams rc) before →
  cps_checkIfEnabled (rc_policySetting resourceConfig) = ConditionCall (MFn f) policySetting →
  f (ps_params policySetting) contextParams = Throw e →
  snd (calculateSetting protectedResource contextParams w)
  = Throw (append_message e condition_hint).
Proof.
  intros Hl Hbefore Hc Hf. unfold calculateSetting.
  rewrite computeResourceSetting_result. unfold resolve. rewrite Hl.
  rewrite (pick_throws _ _ _ _ (append_message e condition_hint)); [done | done |].
  rewrite Hc. unfold answer. simpl. mrun. by rewrite Hf.
Qed.

End ResolutionFacts.

Lemma resolution_returns_default_or_enabled_setting_witness :
  (∃ evs, fst (UserPolicy.calculateSetting (H := example_runtime) account_menu_object
                 owner initial_world) = extends initial_world evs) ∧
  ((setting_definition "hide" 0 = UserPolicy.r_defaultSetting
                                    (UserPolicy.pro_resource account_menu_object) ∧
    Forall (disabled (H := example_runtime) owner)
           (UserPolicy.pro_settings account_menu_object))
   ∨ ∃ resourceConfig, resourceConfig ∈ UserPolicy.pro_settings account_menu_object ∧
       enabled (H := example_runtime) owner resourceConfig ∧
       setting_definition "hide" 0 = UserPolicy.rc_setting resourceConfig).
Proof.
  apply (resolution_returns_default_or_enabled_setting (H := example_runtime)
           account_menu_object owner initial_world).
  vm_compute. reflexivity.
Defined.

Lemma throwing_condition_aborts_resolution_witness :
  snd (UserPolicy.calculateSetting (H := example_runtime) account_menu_object None
         initial_world)
  = Throw (Error ("contextParams is undefined" +:+ condition_hint)).
Proof.
  apply (throwing_condition_aborts_resolution (H := example_runtime) account_menu_object
           None [] [first_show; second_show] gated_hide isOwner
           (policy_setting "owner" (Some "acl.isOwner") [])
           (Error "contextParams is undefined") initial_world).
  - reflexivity.
  - constructor.
  - reflexivity.
  - reflexivity.
Defined.

(** ** user-policy.model.js: conditions and locators *)

Section CompilationFacts.
Context `{JsRuntime}.
Variable getPolicyConditionFactory : string → M ConditionFactory.
Import UserPolicy.

(** X11. A condition without a period is rejected before any factory is
    looked up: compiling a policy setting whose condition is a non-empty
    string without '.' throws 'No security name defined', followed by the
    name of the condition and of the policy setting, and leaves the state
    untouched. *)
Theorem condition_without_period_is_rejected (policySetting : PolicySettingConfig)
    (w : World) :
  truthy_str (ps_condition policySetting) = true →
  String.index 0 "." (default "" (ps_condition policySetting)) = None →
  getPolicyConditionImplementation getPolicyConditionFactory policySetting w
  = (w, Throw (Error ("No security name defined" +:+ unknown_condition policySetting))).
Proof.
  intros Ht Hidx. unfold getPolicyConditionImplementation. rewrite Ht. simpl.
  rewrite Hidx. reflexivity.
Qed.

(** X12. Compilation checks that a condition names a truthy member of its
    factory, not that the member is a function: a condition naming a member
    that is a truthy value other than a function compiles, and every call
    of the compiled closure throws a [TypeError], its message extended by
    the hint to pass the context params. *)
Theorem non_function_condition_fails_at_resolution (policySetting : PolicySettingConfig)
    (condition : string) (period : nat) (conditionGroup : ConditionFactory) (v : jsval)
    (w w1 : World) :
  ps_condition policySetting = Some condition →
  truthy_str (Some condition) = true →
  String.index 0 "." condition = Some period →
  getPolicyConditionFactory (String.substring 0 period condition) w = (w1, Ok conditionGroup) →
  member conditionGroup
    (String.substring (period + 1) (String.length condition - (period + 1)) condition)
    = Some (MVal v) →
  truthy v = true →
  ∃ closure,
    getPolicyConditionImplementation getPolicyConditionFactory policySetting w
      = (w1, Ok closure) ∧
    ∀ contextParams w',
      checkIfEnabled closure contextParams w'
      = (w', Throw (Error (type_error "conditionFn" +:+ condition_hint))).
Proof.
  intros Hc Ht Hidx Hfac Hmem Hv. exists (ConditionCall (MVal v) policySetting). split.
  - unfold getPolicyConditionImplementation. rewrite Hc, Ht. simpl. rewrite Hidx.
    unfold try_catch, bind. rewrite Hfac, Hmem. simpl. by rewrite Hv.
  - intros contextParams w'. reflexivity.
Qed.

(** X13. A locator lookup returns the first match: when
    [getProtectedResourceByLocator] returns, the state is unchanged and the
    result is the first protected resource of the compiled list whose
    locator is strictly equal to the one asked for. *)
Theorem locator_lookup_returns_first_match
    (protectedResourceList : list ProtectedResourceObject) (locator : option string)
    (w w' : World) (protectedResource : ProtectedResourceObject) :
  getProtectedResourceByLocator protectedResourceList locator w = (w', Ok protectedResource) →
  w' = w ∧
  ∃ before after,
    protectedResourceList = before ++ protectedResource :: after ∧
    r_locator (pro_resource protectedResource) = locator ∧
    Forall (λ r, r_locator (pro_resource r) ≠ locator) before.
Proof.
  unfold getProtectedResourceByLocator.
  destruct (List.find _ protectedResourceList) as [r|] eqn:Hfind; [| discriminate].
  unfold ret. inversion 1; subst. split; [done |]. clear H0.
  induction protectedResourceList as [|x l IH]; [discriminate |]. simpl in Hfind.
  case_bool_decide as Hx.
  - inversion Hfind; subst. exists [], l. split; [done |]. split; [done | constructor].
  - destruct (IH Hfind) as (before & after & -> & Hloc & Hbefore).
    exists (x :: before), after. split; [done |]. split; [done | by constructor].
Qed.

(** X14. An unknown locator is an error: when no protected resource of the
    compiled list has the locator asked for, [getProtectedResourceByLocator]
    throws 'Protected resource [<locator>] undefined'. *)
Theorem unknown_locator_is_rejected
    (protectedResourceList : list ProtectedResourceObject) (locator : option string)
    (w : World) :
  Forall (λ r, r_locator (pro_resource r) ≠ locator) protectedResourceList →
  getProtectedResourceByLocator protectedResourceList locator w
  = (w, Throw (Error ("Protected resource [" +:+ show_str locator +:+ "] undefined"))).
Proof.
  intros Hall. unfold getProtectedResourceByLocator.
  destruct (List.find _ protectedResourceList) as [r|] eqn:Hfind; [| done].
  apply find_some in Hfind as [Hin Hr]. apply bool_decide_eq_true in Hr.
  rewrite Forall_forall in Hall. destruct (Hall r); [by apply list_elem_of_In | done].
Qed.

End CompilationFacts.

Lemma condition_without_period_is_rejected_witness :
  UserPolicy.getPolicyConditionImplementation (λ _, ret acl) unqualified_condition
    initial_world
  = (initial_world,
     Throw (Error ("No security name defined" +:+ unknown_condition unqualified_condition))).
Proof.
  apply (condition_without_period_is_rejected (λ _, ret acl) unqualified_condition
           initial_world); reflexivity.
Defined.

Lemma non_function_condition_fails_at_resolution_witness :
  ∃ closure,
    UserPolicy.getPolicyConditionImplementation (λ _, ret acl) factory_name_condition
      initial_world = (initial_world, Ok closure) ∧
    ∀ contextParams w',
      UserPolicy.checkIfEnabled (H := example_runtime) closure contextParams w'
      = (w', Throw (Error (type_error (JsRuntime := example_runtime) "conditionFn"
                           +:+ condition_hint))).
Proof.
  apply (non_function_condition_fails_at_resolution (H := example_runtime) (λ _, ret acl)
           factory_name_condition "acl.factory" 3 acl (JStr "acl")
           initial_world initial_world); reflexivity.
Defined.

Lemma locator_lookup_returns_first_match_witness :
  initial_world = initial_world ∧
  ∃ before after,
    compiled_example_list = before ++ account_update_object :: after ∧
    UserPolicy.r_locator (UserPolicy.pro_resource account_update_object)
      = Some "api.account.updateOne" ∧
    Forall (λ r, UserPolicy.r_locator (UserPolicy.pro_resource r)
                 ≠ Some "api.account.updateOne") before.
Proof.
  apply (locator_lookup_returns_first_match compiled_example_list
           (Some "api.account.updateOne") initial_world initial_world account_update_object).
  vm_compute. reflexivity.
Defined.

Lemma unknown_locator_is_rejected_witness :
  UserPolicy.getProtectedResourceByLocator [account_menu_object] (Some "api.ghost")
    initial_world
  = (initial_world, Throw (Error "Protected resource [api.ghost] undefined")).
Proof.
  apply (unknown_locator_is_rejected [account_menu_object] (Some "api.ghost") initial_world).
  constructor; [discriminate | constructor].
Defined.

(** ** security.service.js: loading *)

Section ServiceLoad.
Context `{JsRuntime}.
Import SecurityService.

(** X15. A successful load installs what it checked: the configuration has
    a default role and is valid, the role lookup is taken from it, and
    [getSystemSecurityConfiguration] then returns the snapshot of that
    configuration. *)
Theorem service_load_installs_snapshot (securityConfiguration : SecurityConfiguration)
    (w w' : World) (u : unit) :
  load securityConfiguration w = (w', Ok u) →
  truthy_str (cfg_defaultRole securityConfiguration) = true ∧
  valid_configuration securityConfiguration ∧
  findRole w' = Some securityConfiguration ∧
  getSystemSecurityConfiguration w'
  = (w', Ok (stored_configuration (uuids w) securityConfiguration)).
Proof.
  unfold load. intros Hrun.
  destruct (truthy_str (cfg_defaultRole securityConfiguration)); [| discriminate].
  simpl in Hrun.
  apply bind_inv_ok in Hrun as (w1 & [] & Hset & Hrun).
  apply bind_inv_ok in Hrun as (w2 & snapshot & Hload & Hrun).
  unfold modify in Hset, Hrun.
  assert (w1 = set_findRole (Some securityConfiguration) w) as -> by (by inversion Hset).
  assert (w' = set_systemSecurityData (Some snapshot) w2) as -> by (by inversion Hrun).
  clear Hset Hrun.
  pose proof (load_keeps_service securityConfiguration
                (set_findRole (Some securityConfiguration) w)) as [_ Hrole].
  rewrite Hload in Hrole. simpl in Hrole.
  apply load_facts in Hload as (-> & _ & _ & Hvalid).
  split; [done |]. split; [done |]. split; [exact Hrole |]. reflexivity.
Qed.

(** X16. The two ways a load fails.  Without a default role, [load] throws
    'No default role provided to initialize system security' and changes
    nothing.  With one, it fails exactly when the configuration is not
    valid: it throws the generic error, keeps the snapshot it held, and has
    already replaced the role lookup by that of the rejected configuration. *)
Theorem failed_service_load_outcomes (securityConfiguration : SecurityConfiguration)
    (w w' : World) (e : Exn) :
  load securityConfiguration w = (w', Throw e) →
  (truthy_str (cfg_defaultRole securityConfiguration) = false ∧ w' = w ∧
   e = Error "No default role provided to initialize system security")
  ∨ (truthy_str (cfg_defaultRole securityConfiguration) = true ∧
     ¬ valid_configuration securityConfiguration ∧
     e = Error "Invalid Application Security Configuration" ∧
     findRole w' = Some securityConfiguration ∧
     systemSecurityData w' = systemSecurityData w).
Proof.
  unfold load. intros Hrun.
  destruct (truthy_str (cfg_defaultRole securityConfiguration)); simpl in Hrun.
  2: { left. unfold throw in Hrun. by inversion Hrun. }
  right. split; [done |].
  unfold bind at 1 in Hrun. unfold modify at 1 in Hrun.
  pose proof (load_keeps_service securityConfiguration
                (set_findRole (Some securityConfiguration) w)) as [Hssd Hrole].
  unfold bind in Hrun.
  destruct (SecurityDefinition.load securityConfiguration
              (set_findRole (Some securityConfiguration) w)) as [w1 [snapshot|cause]] eqn:Hload;
    [unfold modify in Hrun; discriminate |].
  assert (w1 = w' ∧ cause = e) as [-> ->] by (by inversion Hrun).
  split; [| split; [by apply load_throws_nothing_else in Hload | done]].
  intros Hvalid.
  destruct (integrity_check_runs securityConfiguration
              (set_findRole (Some securityConfiguration) w) Hvalid) as (w2 & s & Hcheck).
  rewrite (load_run_ok _ _ _ _ Hcheck) in Hload. discriminate.
Qed.

End ServiceLoad.

Lemma service_load_installs_snapshot_witness :
  truthy_str (cfg_defaultRole example_configuration) = true ∧
  valid_configuration example_configuration ∧
  findRole world_after_load = Some example_configuration ∧
  SecurityService.getSystemSecurityConfiguration world_after_load
  = (world_after_load,
     Ok (stored_configuration (H := example_runtime) 0 example_configuration)).
Proof.
  apply (service_load_installs_snapshot (H := example_runtime) example_configuration
           initial_world world_after_load tt).
  vm_compute. reflexivity.
Defined.

Lemma failed_service_load_outcomes_witness :
  (truthy_str (cfg_defaultRole invalid_configuration) = false ∧
   world_after_failed_reload = world_after_load ∧
   Error "Invalid Application Security Configuration"
   = Error "No default role provided to initialize system security")
  ∨ (truthy_str (cfg_defaultRole invalid_configuration) = true ∧
     ¬ valid_configuration invalid_configuration ∧
     Error "Invalid Application Security Configuration"
     = Error "Invalid Application Security Configuration" ∧
     findRole world_after_failed_reload = Some invalid_configuration ∧
     systemSecurityData world_after_failed_reload = systemSecurityData world_after_load).
Proof.
  apply (failed_service_load_outcomes (H := example_runtime) invalid_configuration
           world_after_load world_after_failed_reload
           (Error "Invalid Application Security Configuration")).
  vm_compute. reflexivity.
Defined.

(** ** security.service.js: applying a policy *)

Lemma then_inv_resolved {A B} (p : M (Promise A)) (f : A → M (Promise B)) w w' b :
  then_ p f w = (w', Ok (Resolved b)) →
  ∃ w1 a, p w = (w1, Ok (Resolved a)) ∧ f a w1 = (w', Ok (Resolved b)).
Proof.
  unfold then_. intros Hrun. apply bind_inv_ok in Hrun as (w1 & r & Hp & Hrun).
  destruct r as [a|e]; [| unfold ret in Hrun; by inversion Hrun].
  exists w1, a. split; [done |]. unfold try_catch in Hrun.
  destruct (f a w1) as [w2 [x|e]]; [done | unfold ret in Hrun; by inversion Hrun].
Qed.

Lemma then_resolved {A B} (p : M (Promise A)) (f : A → M (Promise B)) w w1 a :
  p w = (w1, Ok (Resolved a)) →
  then_ p f w = try_catch (f a) (λ e, ret (Rejected e)) w1.
Proof. intros Hp. unfold then_, bind. by rewrite Hp. Qed.

Lemma matches_undefined (field : option string) : matches field None = false.
Proof. by destruct field. Qed.

Lemma type_named_undefined resourceTypes : type_named resourceTypes None = None.
Proof.
  unfold type_named. induction resourceTypes as [|t l IH]; simpl; [done |].
  by rewrite matches_undefined.
Qed.

Section ApplyPolicy.
Context `{JsRuntime}.
Import SecurityService.

(** The record a call under a policy resolves with. *)
Lemma applyResourcePolicy_inv user protectedResourceLocator contextParams w w' r :
  user_truthy user = true →
  truthy_str (user_permissionRoleCode (user_object user)) = true →
  applyResourcePolicy user protectedResourceLocator contextParams w = (w', Ok (Resolved r)) →
  ∃ w1 w2 w3 userPolicy protectedResource setting apply,
    collectServerUserPolicy (user_object user) w = (w1, Ok (Resolved userPolicy)) ∧
    UserPolicy.getProtectedResourceByLocator userPolicy protectedResourceLocator w1
      = (w2, Ok protectedResource) ∧
    UserPolicy.calculateSetting protectedResource contextParams w2 = (w3, Ok setting) ∧
    UserPolicy.pro_apply protectedResource = Some apply ∧
    apply setting contextParams = Resolved (result r) ∧
    truthy (result r) = true ∧
    (∀ w4, isSetting r None w4 = (w4, Ok true)) ∧
    (∀ name w4, is_Some (systemSecurityData w4) →
       isSetting r (Some name) w4
       = (w4, Throw (Error "Undefined resource type [undefined]."))).
Proof.
  intros Hu Hcode Hrun. unfold applyResourcePolicy in Hrun.
  rewrite Hu, Hcode in Hrun. simpl in Hrun.
  apply then_inv_resolved in Hrun as (w1 & userPolicy & Hcollect & Hrun).
  apply bind_inv_ok in Hrun as (w2 & protectedResource & Hlocate & Hrun).
  apply bind_inv_ok in Hrun as (w3 & setting & Hsetting & Hrun).
  apply then_inv_resolved in Hrun as (w4 & valid & Happly & Hrun).
  destruct (UserPolicy.pro_apply protectedResource) as [apply|] eqn:Hp; [| discriminate].
  apply bind_inv_ok in Happly as (w5 & [] & _ & Hret).
  unfold ret in Hret.
  assert (Hvalid : apply setting contextParams = Resolved valid) by (by inversion Hret).
  destruct (truthy valid) eqn:Ht; simpl in Hrun.
  2: { apply bind_inv_ok in Hrun as (w6 & display & _ & Hrun).
       apply bind_inv_ok in Hrun as (w7 & [] & _ & Hrun). unfold ret in Hrun. by inversion Hrun. }
  unfold ret in Hrun. inversion Hrun; subst; clear Hrun. simpl.
  exists w1, w2, w3, userPolicy, protectedResource, setting, apply.
  do 6 (split; [done |]). split.
  - intros w6. reflexivity.
  - intros name w6 [s Hs].
    erewrite bind_ok; [| unfold systemSecurityData_, bind, get; rewrite Hs; reflexivity].
    erewrite bind_throw; [reflexivity |].
    rewrite findSetting_run, type_named_undefined. reflexivity.
Qed.


(** X18. Under a policy, [isSetting] only answers for no name: for a call
    with a user under a role code whose promise resolved, the [isSetting]
    of the result returns [true] when called without a setting name, and for
    every setting name throws 'Undefined resource type [undefined].' once a
    snapshot is loaded; it never returns [false]. *)
Theorem isSetting_under_policy_throws_for_named_setting (user : UserArg)
    (protectedResourceLocator : option string) (contextParams : ContextParams)
    (w w' : World) (r : PolicyResult) :
  user_truthy user = true →
  truthy_str (user_permissionRoleCode (user_object user)) = true →
  applyResourcePolicy user protectedResourceLocator contextParams w = (w', Ok (Resolved r)) →
  (∀ w1, isSetting r None w1 = (w1, Ok true)) ∧
  (∀ name w1, is_Some (systemSecurityData w1) →
     isSetting r (Some name) w1
     = (w1, Throw (Error "Undefined resource type [undefined]."))).
Proof.
  intros Hu Hcode Hrun.
  by destruct (applyResourcePolicy_inv _ _ _ _ _ _ Hu Hcode Hrun)
    as (? & ? & ? & ? & ? & ? & ? & _ & _ & _ & _ & _ & _ & ? & ?).
Qed.

(** X19. A falsy [apply] is a denial: for a user under a role code, when the
    server view compiles, the locator names a protected resource of it, its
    setting resolves and the [apply] function of its type resolves with a
    falsy value, the promise of [applyResourcePolicy] is rejected with
    'RESOURCE_DENIED'. *)
Theorem falsy_apply_is_denied (user : User)
    (protectedResourceLocator : option string) (contextParams : ContextParams)
    (w w1 w2 w3 : World) (userPolicy : list UserPolicy.ProtectedResourceObject)
    (protectedResource : UserPolicy.ProtectedResourceObject) (setting : obj)
    (apply : ApplyFn) (valid : jsval) :
  truthy_str (user_permissionRoleCode user) = true →
  collectServerUserPolicy user w = (w1, Ok (Resolved userPolicy)) →
  UserPolicy.getProtectedResourceByLocator userPolicy protectedResourceLocator w1
    = (w2, Ok protectedResource) →
  UserPolicy.calculateSetting protectedResource contextParams w2 = (w3, Ok setting) →
  UserPolicy.pro_apply protectedResource = Some apply →
  apply setting contextParams = Resolved valid →
  truthy valid = false →
  snd (applyResourcePolicy (UserObject user) protectedResourceLocator contextParams w)
  = Ok (Rejected (Reason "RESOURCE_DENIED")).
Proof.
  intros Hcode Hcollect Hlocate Hsetting Hp Happly Hfalsy.
  unfold applyResourcePolicy. simpl. rewrite Hcode. simpl.
  rewrite (then_resolved _ _ _ _ _ Hcollect).
  unfold try_catch at 1. unfold bind at 1. rewrite Hlocate.
  unfold bind at 1. rewrite Hsetting. rewrite Hp.
  unfold then_ at 1. unfold bind at 1. unfold bind at 1. unfold emit, modify.
  unfold ret at 1. rewrite Happly. rewrite Hfalsy. reflexivity.
Qed.

(** X20. A tenant administrator who has a role code is refused every
    resource: the guard of [applyResourcePolicy] lets the call through,
    the policy data of an administrator is empty, so the compiled list has
    no protected resource and the promise is rejected with 'Protected
    resource [<locator>] undefined', whatever the locator and the state. *)
Theorem tenant_admin_with_role_is_rejected (user : User) (v : jsval)
    (protectedResourceLocator : option string) (contextParams : ContextParams) (w : World) :
  truthy_str (user_permissionRoleCode user) = true →
  user_isTenantAdmin user = Some v → truthy v = true →
  snd (applyResourcePolicy (UserObject user) protectedResourceLocator contextParams w)
  = Ok (Rejected (Error ("Protected resource [" +:+ show_str protectedResourceLocator +:+
                         "] undefined"))).
Proof.
  intros Hcode Hv Ht.
  assert (Hadmin : truthy_str (user_permissionRoleCode user) = false ∨
                   (∃ v, user_isTenantAdmin user = Some v ∧ truthy v = true)).
  { right. by exists v. }
  unfold applyResourcePolicy. simpl. rewrite Hcode. simpl.
  unfold collectServerUserPolicy, findUserPolicyData.
  unfold then_ at 1. unfold bind at 1. unfold then_ at 1. unfold bind at 1. unfold bind at 1.
  rewrite (security_deactivated_true user w Hadmin).
  unfold bind at 1. unfold log at 1. unfold emit, modify. unfold ret at 1.
  unfold try_catch at 1. unfold bind at 1.
  unfold generateUserSecurityDataByEnvironment. unfold bind at 1.
  rewrite (security_deactivated_true user _ Hadmin). unfold ret at 1.
  unfold formatUserSecurityData. mrun. reflexivity.
Qed.

End ApplyPolicy.


Lemma isSetting_under_policy_throws_for_named_setting_witness :
  (∀ w1, SecurityService.isSetting example_policy_result None w1 = (w1, Ok true)) ∧
  (∀ name w1, is_Some (systemSecurityData w1) →
     SecurityService.isSetting example_policy_result (Some name) w1
     = (w1, Throw (Error "Undefined resource type [undefined]."))).
Proof.
  apply (isSetting_under_policy_throws_for_named_setting (H := example_runtime)
           (SecurityService.UserObject example_user) (Some "api.account.updateOne") owner
           world_after_load (fst example_apply) example_policy_result).
  - reflexivity.
  - reflexivity.
  - vm_compute. reflexivity.
Defined.

Lemma falsy_apply_is_denied_witness :
  snd (SecurityService.applyResourcePolicy (H := example_runtime)
         (SecurityService.UserObject example_user) (Some "api.account.updateOne")
         not_owner world_after_load)
  = Ok (Rejected (Reason "RESOURCE_DENIED")).
Proof.
  apply (falsy_apply_is_denied (H := example_runtime) example_user
           (Some "api.account.updateOne") not_owner
           world_after_load (fst example_server_policy) (fst example_server_policy)
           (fst (UserPolicy.calculateSetting (H := example_runtime) example_server_update
                   not_owner (fst example_server_policy)))
           example_server_list example_server_update (setting_definition "deny" 0)
           (λ setting _,
              Resolved (JBool (negb (bool_decide (prop setting "value" = JStr "deny")))))
           (JBool false)).
  - reflexivity.
  - vm_compute. reflexivity.
  - vm_compute. reflexivity.
  - vm_compute. reflexivity.
  - vm_compute. reflexivity.
  - vm_compute. reflexivity.
  - reflexivity.
Defined.

Lemma tenant_admin_with_role_is_rejected_witness :
  snd (SecurityService.applyResourcePolicy (H := example_runtime)
         (SecurityService.UserObject admin_user) (Some "api.account.updateOne") owner
         world_after_load)
  = Ok (Rejected (Error "Protected resource [api.account.updateOne] undefined")).
Proof.
  apply (tenant_admin_with_role_is_rejected (H := example_runtime) admin_user (JBool true)
           (Some "api.account.updateOne") owner world_after_load); reflexivity.
Defined.

(** ** security.service.js: role policies *)

Lemma mapM_cons {A B} (f : A → M B) (x : A) (l : list A) w :
  mapM f (x :: l) w
  = bind (mapM f [x]) (λ first, bind (mapM f l) (λ rest, ret (first ++ rest))) w.
Proof.
  simpl. unfold bind, ret. destruct (f x w) as [w1 [y|e]]; [| done].
  by destruct (mapM f l w1) as [w2 [ys|e]].
Qed.

Section RolePolicies.
Context `{JsRuntime}.
Import SecurityService.

Lemma collect_step setting policyDefinition w :
  match setting_labelled policyDefinition (selected_label setting) with
  | Some defined =>
      collectRolePolicySettingDefinitions [setting] policyDefinition w
      = (w, Ok [with_role_params (selected_params setting) defined])
  | None =>
      collectRolePolicySettingDefinitions [setting] policyDefinition w
      = (w, Throw (Error (unknown_selection setting policyDefinition)))
  end.
Proof.
  unfold collectRolePolicySettingDefinitions, setting_labelled. simpl. unfold bind.
  destruct setting as [label | value params]; simpl.
  - by destruct (List.find _ _).
  - destruct (List.find _ _); [| done]. by destruct params.
Qed.

Lemma collect_cons setting selections policyDefinition w :
  collectRolePolicySettingDefinitions (setting :: selections) policyDefinition w
  = bind (collectRolePolicySettingDefinitions [setting] policyDefinition)
         (λ first, bind (collectRolePolicySettingDefinitions selections policyDefinition)
                        (λ rest, ret (first ++ rest))) w.
Proof. unfold collectRolePolicySettingDefinitions. apply mapM_cons. Qed.

Lemma collect_facts selections policyDefinition w w' settings :
  collectRolePolicySettingDefinitions selections policyDefinition w = (w', Ok settings) →
  w' = w ∧
  Forall2 (λ setting policySetting,
      ∃ defined,
        setting_labelled policyDefinition (selected_label setting) = Some defined ∧
        policySetting = with_role_params (selected_params setting) defined)
    selections settings.
Proof.
  revert w w' settings.
  induction selections as [|setting l IH]; intros w w' settings Hrun.
  { unfold collectRolePolicySettingDefinitions in Hrun. simpl in Hrun. unfold ret in Hrun.
    inversion Hrun; subst. split; [done | constructor]. }
  rewrite collect_cons in Hrun.
  apply bind_inv_ok in Hrun as (w1 & first & Hfirst & Hrun).
  apply bind_inv_ok in Hrun as (w2 & rest & Hrest & Hret).
  unfold ret in Hret. assert (w2 = w' ∧ settings = first ++ rest) as [-> ->]
    by (by inversion Hret). clear Hret.
  pose proof (collect_step setting policyDefinition w) as Hstep.
  destruct (setting_labelled policyDefinition (selected_label setting)) as [defined|] eqn:Hd;
    rewrite Hstep in Hfirst; [| discriminate].
  assert (w1 = w ∧ first = [with_role_params (selected_params setting) defined])
    as [-> ->] by (by inversion Hfirst).
  destruct (IH _ _ _ Hrest) as [-> Hall]. split; [done |].
  simpl. constructor; [| done]. by exists defined.
Qed.

(** X21. What a role's selections resolve to.  When
    [collectRolePolicySettingDefinitions] returns, it has changed nothing
    and returns one policy setting per selection, in order: the first
    setting of the policy definition whose label is the selected one (the
    [value] of an object, or the bare label), with the role's [params] in
    place of its own when the selection is an object that has params, and
    otherwise as it is in the definition. *)
Theorem role_selections_resolve_to_policy_settings (rolePolicySettings : list RoleSetting)
    (policyDefinition : Policy) (w w' : World) (settings : list PolicySettingConfig) :
  collectRolePolicySettingDefinitions rolePolicySettings policyDefinition w
    = (w', Ok settings) →
  w' = w ∧
  Forall2 (λ setting policySetting,
      ∃ defined,
        setting_labelled policyDefinition (selected_label setting) = Some defined ∧
        policySetting = with_role_params (selected_params setting) defined)
    rolePolicySettings settings.
Proof. apply collect_facts. Qed.

(** X22. A selection the policy does not define is an error: when the
    selections before it are labels of settings of the policy definition
    and this one is not, [collectRolePolicySettingDefinitions] throws
    'Setting [<selection>] does NOT exist for policy [<name>]' and changes
    nothing. *)
Theorem unknown_role_selection_is_rejected (before after : list RoleSetting)
    (setting : RoleSetting) (policyDefinition : Policy) (w : World) :
  Forall (λ s, is_Some (setting_labelled policyDefinition (selected_label s))) before →
  setting_labelled policyDefinition (selected_label setting) = None →
  collectRolePolicySettingDefinitions (before ++ setting :: after) policyDefinition w
  = (w, Throw (Error (unknown_selection setting policyDefinition))).
Proof.
  intros Hbefore Hnone. induction Hbefore as [|s l [defined Hs] _ IH]; simpl.
  - rewrite collect_cons. pose proof (collect_step setting policyDefinition w) as Hstep.
    rewrite Hnone in Hstep. by rewrite (bind_throw _ _ _ _ _ Hstep).
  - rewrite collect_cons. pose proof (collect_step s policyDefinition w) as Hstep.
    rewrite Hs in Hstep. rewrite (bind_ok _ _ _ _ _ Hstep).
    by rewrite (bind_throw _ _ _ _ _ IH).
Qed.

(** One round of the loop of [generateRolePolicies]. *)
Lemma generateRolePolicies_step userRole policyDefinition w :
  let selections := selections_of userRole policyDefinition in
  let chosen :=
    match selections with
    | _ :: _ => selections
    | [] => if truthy_str (pol_defaultSetting policyDefinition)
            then [RoleLabel (default "" (pol_defaultSetting policyDefinition))] else []
    end in
  ∀ userPolicies,
    (settings <-
       match List.find (λ rp, matches (rp_name rp) (pol_name policyDefinition))
                       (role_policies userRole) with
       | Some (Build_RolePolicy _ ((_ :: _) as rolePolicySettings)) =>
           settings <- collectRolePolicySettingDefinitions rolePolicySettings
                         policyDefinition ;;
           ret (Some settings)
       | _ =>
           match pol_defaultSetting policyDefinition with
           | Some defaultSetting =>
               if truthy_str (Some defaultSetting) then
                 settings <- collectRolePolicySettingDefinitions
                               [RoleLabel defaultSetting] policyDefinition ;;
                 ret (Some settings)
               else ret None
           | None => ret None
           end
       end ;;
     match settings with
     | Some ((_ :: _) as settings) =>
         ret (userPolicies ++
              [ {| pol_name := pol_name policyDefinition;
                   pol_description := None;
                   pol_defaultSetting := None;
                   pol_settings := Some settings |} ])
     | _ => ret userPolicies
     end) w
    = match collectRolePolicySettingDefinitions chosen policyDefinition w with
      | (w1, Ok (s :: l)) =>
          (w1, Ok (userPolicies ++
                   [ {| pol_name := pol_name policyDefinition; pol_description := None;
                        pol_defaultSetting := None; pol_settings := Some (s :: l) |} ]))
      | (w1, Ok []) => (w1, Ok userPolicies)
      | (w1, Throw e) => (w1, Throw e)
      end.
Proof.
  intros selections chosen userPolicies. subst selections chosen. unfold selections_of.
  destruct (List.find _ (role_policies userRole)) as [[name [|rs rss]]|]; cbn [rp_settings].
  1, 3: destruct (pol_defaultSetting policyDefinition) as [d|]; [| reflexivity];
        destruct (truthy_str (Some d)); [| reflexivity]; cbn [default from_option]; unfold bind;
        by destruct (collectRolePolicySettingDefinitions _ _ _) as [w1 [[|s l]|e]].
  unfold bind. by destruct (collectRolePolicySettingDefinitions _ _ _) as [w1 [[|s l]|e]].
Qed.

Lemma with_role_params_defined policyDefinition label params defined :
  setting_labelled policyDefinition label = Some defined →
  ∃ defined' params',
    defined' ∈ default [] (pol_settings policyDefinition) ∧
    with_role_params params defined = with_role_params params' defined'.
Proof.
  intros Hd. exists defined, params. split; [| done].
  apply find_some in Hd as [Hin _]. by apply list_elem_of_In.
Qed.

Lemma generateRolePolicies_loop userRole (policies : list Policy) :
  ∀ userPolicies w w' result,
    foldM (λ userPolicies policyDefinition,
      settings <-
        match List.find (λ rp, matches (rp_name rp) (pol_name policyDefinition))
                        (role_policies userRole) with
        | Some (Build_RolePolicy _ ((_ :: _) as rolePolicySettings)) =>
            settings <- collectRolePolicySettingDefinitions rolePolicySettings
                          policyDefinition ;;
            ret (Some settings)
        | _ =>
            match pol_defaultSetting policyDefinition with
            | Some defaultSetting =>
                if truthy_str (Some defaultSetting) then
                  settings <- collectRolePolicySettingDefinitions
                                [RoleLabel defaultSetting] policyDefinition ;;
                  ret (Some settings)
                else ret None
            | None => ret None
            end
        end ;;
      match settings with
      | Some ((_ :: _) as settings) =>
          ret (userPolicies ++
               [ {| pol_name := pol_name policyDefinition;
                    pol_description := None;
                    pol_defaultSetting := None;
                    pol_settings := Some settings |} ])
      | _ => ret userPolicies
      end) userPolicies policies w = (w', Ok result) →
    w' = w ∧
    ∃ kept added,
      result = userPolicies ++ added ∧ sublist kept policies ∧
      Forall2 user_policy_of kept added.
Proof.
  induction policies as [|policyDefinition l IH]; intros userPolicies w w' result Hrun.
  { simpl in Hrun. unfold ret in Hrun. inversion Hrun; subst. split; [done |].
    exists [], []. rewrite app_nil_r. split; [done |]. split; constructor. }
  simpl in Hrun. apply bind_inv_ok in Hrun as (w1 & acc & Hstep & Hrun).
  rewrite generateRolePolicies_step in Hstep.
  match type of Hstep with
  | context [collectRolePolicySettingDefinitions ?c _ _] => set (chosen := c) in *
  end.
  destruct (collectRolePolicySettingDefinitions chosen policyDefinition w)
    as [w2 [settings|e]] eqn:Hcollect; [| discriminate].
  apply collect_facts in Hcollect as [-> Hall].
  destruct settings as [|s ss].
  - assert (w1 = w ∧ acc = userPolicies) as [-> ->] by (by inversion Hstep).
    destruct (IH _ _ _ _ Hrun) as (-> & kept & added & -> & Hsub & Hkept).
    split; [done |]. exists kept, added. split; [done |]. split; [| done].
    by apply sublist_cons.
  - assert (w1 = w ∧ acc = userPolicies ++
              [ {| pol_name := pol_name policyDefinition; pol_description := None;
                   pol_defaultSetting := None; pol_settings := Some (s :: ss) |} ])
      as [-> ->] by (by inversion Hstep).
    destruct (IH _ _ _ _ Hrun) as (-> & kept & added & -> & Hsub & Hkept).
    split; [done |]. eexists (policyDefinition :: kept), (_ :: added).
    split; [by rewrite <- app_assoc |]. split; [by apply sublist_skip |].
    constructor; [| done]. repeat split. exists s, ss. split; [done |].
    clear -Hall. induction Hall as [|sel out sels outs (defined & Hd & ->) _ IHl];
      constructor; [| done].
    eapply with_role_params_defined. exact Hd.
Qed.

(** X23. The shape of a user's policies.  When [generateRolePolicies]
    returns for a role, it has changed nothing; the result carries the
    role's description and holds, for some of the snapshot's policy
    definitions and in their order, one policy of the same name, without
    description or default setting, whose settings are a non-empty list of
    settings of that definition, each with the definition's params or the
    role's. *)
Theorem user_policies_follow_policy_definitions (userRole : Role) (snapshot : Snapshot)
    (w w' : World) (userPolicies : UserPolicies) :
  systemSecurityData w = Some snapshot →
  generateRolePolicies (Some userRole) w = (w', Ok userPolicies) →
  w' = w ∧
  ups_description userPolicies = role_description userRole ∧
  ∃ kept, sublist kept (snap_policies snapshot) ∧
          Forall2 user_policy_of kept (ups_list userPolicies).
Proof.
  intros Hssd Hrun. unfold generateRolePolicies in Hrun.
  apply bind_inv_ok in Hrun as (w1 & s & Hs & Hrun).
  unfold systemSecurityData_, bind, get in Hs. rewrite Hssd in Hs. unfold ret in Hs.
  assert (w1 = w ∧ s = snapshot) as [-> ->] by (by inversion Hs). clear Hs.
  apply bind_inv_ok in Hrun as (w2 & result & Hloop & Hret).
  unfold ret in Hret. assert (w2 = w' ∧ userPolicies
    = {| ups_description := role_description userRole; ups_list := result |})
    as [-> ->] by (by inversion Hret). clear Hret.
  apply generateRolePolicies_loop in Hloop as (-> & kept & added & -> & Hsub & Hkept).
  split; [done |]. split; [done |]. by exists kept.
Qed.

Lemma generateRolePolicies_defaults userRole (policies : list Policy) w :
  Forall (λ rp, rp_settings rp = []) (role_policies userRole) →
  Forall (λ policy, truthy_str (pol_defaultSetting policy) = true →
                    is_Some (setting_labelled policy (pol_defaultSetting policy))) policies →
  ∀ userPolicies, ∃ added,
    foldM (λ userPolicies policyDefinition,
      settings <-
        match List.find (λ rp, matches (rp_name rp) (pol_name policyDefinition))
                        (role_policies userRole) with
        | Some (Build_RolePolicy _ ((_ :: _) as rolePolicySettings)) =>
            settings <- collectRolePolicySettingDefinitions rolePolicySettings
                          policyDefinition ;;
            ret (Some settings)
        | _ =>
            match pol_defaultSetting policyDefinition with
            | Some defaultSetting =>
                if truthy_str (Some defaultSetting) then
                  settings <- collectRolePolicySettingDefinitions
                                [RoleLabel defaultSetting] policyDefinition ;;
                  ret (Some settings)
                else ret None
            | None => ret None
            end
        end ;;
      match settings with
      | Some ((_ :: _) as settings) =>
          ret (userPolicies ++
               [ {| pol_name := pol_name policyDefinition;
                    pol_description := None;
                    pol_defaultSetting := None;
                    pol_settings := Some settings |} ])
      | _ => ret userPolicies
      end) userPolicies policies w = (w, Ok (userPolicies ++ added)) ∧
    Forall2 (λ policyDefinition userPolicy,
        pol_name userPolicy = pol_name policyDefinition ∧
        ∃ policySetting,
          setting_labelled policyDefinition (pol_defaultSetting policyDefinition)
            = Some policySetting ∧
          pol_settings userPolicy = Some [policySetting])
      (List.filter (λ policy, truthy_str (pol_defaultSetting policy)) policies) added.
Proof.
  intros Hrole Hdefaults.
  induction Hdefaults as [|policyDefinition l Hd _ IH]; intros userPolicies.
  { exists []. rewrite app_nil_r. split; [done | constructor]. }
  cbn [foldM List.filter]. unfold bind at 1. rewrite generateRolePolicies_step.
  assert (Hsel : selections_of userRole policyDefinition = []).
  { unfold selections_of. destruct (List.find _ _) as [rp|] eqn:Hf; [| done].
    apply find_some in Hf as [Hin _]. rewrite Forall_forall in Hrole.
    apply Hrole. by apply list_elem_of_In. }
  rewrite Hsel.
  destruct (truthy_str (pol_defaultSetting policyDefinition)) eqn:Ht.
  - destruct (Hd eq_refl) as [defined Hdefined].
    pose proof (collect_step
      (RoleLabel (default "" (pol_defaultSetting policyDefinition))) policyDefinition w) as Hstep.
    assert (Hlabel : selected_label (RoleLabel (default "" (pol_defaultSetting policyDefinition)))
                     = pol_defaultSetting policyDefinition).
    { simpl. by destruct (pol_defaultSetting policyDefinition). }
    rewrite Hlabel, Hdefined in Hstep. rewrite Hstep.
    cbn [selected_params with_role_params].
    destruct (IH (userPolicies ++
      [ {| pol_name := pol_name policyDefinition; pol_description := None;
           pol_defaultSetting := None; pol_settings := Some [defined] |} ]))
      as (added & Hrun & Hall).
    eexists (_ :: added). split.
    + rewrite <- app_assoc in Hrun. exact Hrun.
    + constructor; [| done]. split; [done |]. by exists defined.
  - exact (IH userPolicies).
Qed.

(** X24. A role that selects nothing gets the policy defaults.  In a state
    whose snapshot came out of a load, for a role none of whose policies
    selects a setting, [generateRolePolicies] returns without changing the
    state: for each policy definition that has a default setting, in order,
    one policy of that name whose only setting is the definition's setting
    of that label; policy definitions without a default setting are left
    out. *)
Theorem role_without_selection_gets_policy_defaults (security : SecurityConfiguration)
    (w0 w1 w : World) (snapshot : Snapshot) (userRole : Role) :
  SecurityDefinition.load security w0 = (w1, Ok snapshot) →
  systemSecurityData w = Some snapshot →
  Forall (λ rp, rp_settings rp = []) (role_policies userRole) →
  ∃ userPolicies,
    generateRolePolicies (Some userRole) w = (w, Ok userPolicies) ∧
    ups_description userPolicies = role_description userRole ∧
    Forall2 (λ policyDefinition userPolicy,
        pol_name userPolicy = pol_name policyDefinition ∧
        ∃ policySetting,
          setting_labelled policyDefinition (pol_defaultSetting policyDefinition)
            = Some policySetting ∧
          pol_settings userPolicy = Some [policySetting])
      (List.filter (λ policy, truthy_str (pol_defaultSetting policy))
                   (snap_policies snapshot))
      (ups_list userPolicies).
Proof.
  intros Hload Hssd Hrole.
  assert (Hdefaults : Forall (λ policy, truthy_str (pol_defaultSetting policy) = true →
            is_Some (setting_labelled policy (pol_defaultSetting policy)))
            (snap_policies snapshot)).
  { apply load_facts in Hload
      as (-> & _ & _ & _ & _ & _ & dict & pols & _ & Hpols & _ & _ & Hvp & _).
    unfold stored_configuration. rewrite Hpols. simpl.
    apply Forall_fmap. eapply Forall_impl; [exact Hvp |].
    intros p Hp Ht. apply valid_policy_completed in Hp as (_ & settings & Hs & _ & Hd).
    unfold setting_labelled. rewrite Hs. simpl. by apply Hd. }
  destruct (generateRolePolicies_defaults userRole _ w Hrole Hdefaults [])
    as (added & Hrun & Hall).
  exists {| ups_description := role_description userRole; ups_list := added |}.
  split; [| by split].
  unfold generateRolePolicies.
  erewrite bind_ok; [| unfold systemSecurityData_, bind, get; rewrite Hssd; reflexivity].
  erewrite bind_ok; [| exact Hrun]. reflexivity.
Qed.

End RolePolicies.

Lemma role_selections_resolve_to_policy_settings_witness :
  initial_world = initial_world ∧
  Forall2 (λ setting policySetting,
      ∃ defined,
        setting_labelled account_policy (selected_label setting) = Some defined ∧
        policySetting = with_role_params (selected_params setting) defined)
    example_selections example_selected.
Proof.
  apply (role_selections_resolve_to_policy_settings (H := example_runtime)
           example_selections account_policy initial_world initial_world example_selected).
  vm_compute. reflexivity.
Defined.

Lemma unknown_role_selection_is_rejected_witness :
  SecurityService.collectRolePolicySettingDefinitions (H := example_runtime)
    ([RoleLabel "read"] ++ RoleLabel "write" :: []) account_policy initial_world
  = (initial_world,
     Throw (Error (unknown_selection (H := example_runtime) (RoleLabel "write")
                     account_policy))).
Proof.
  apply (unknown_role_selection_is_rejected (H := example_runtime)
           [RoleLabel "read"] [] (RoleLabel "write") account_policy initial_world).
  - constructor; [| constructor]. eexists. vm_compute. reflexivity.
  - vm_compute. reflexivity.
Defined.

Lemma user_policies_follow_policy_definitions_witness :
  world_after_load = world_after_load ∧
  SecurityService.ups_description example_user_policies = role_description example_role ∧
  ∃ kept, sublist kept (snap_policies example_snapshot) ∧
          Forall2 user_policy_of kept (SecurityService.ups_list example_user_policies).
Proof.
  apply (user_policies_follow_policy_definitions (H := example_runtime) example_role
           example_snapshot world_after_load world_after_load example_user_policies).
  - vm_compute. reflexivity.
  - vm_compute. reflexivity.
Defined.

Lemma role_without_selection_gets_policy_defaults_witness :
  ∃ userPolicies,
    SecurityService.generateRolePolicies (H := example_runtime) (Some bare_role)
      world_with_defaults = (world_with_defaults, Ok userPolicies) ∧
    SecurityService.ups_description userPolicies = role_description bare_role ∧
    Forall2 (λ policyDefinition userPolicy,
        pol_name userPolicy = pol_name policyDefinition ∧
        ∃ policySetting,
          setting_labelled policyDefinition (pol_defaultSetting policyDefinition)
            = Some policySetting ∧
          pol_settings userPolicy = Some [policySetting])
      (List.filter (λ policy, truthy_str (pol_defaultSetting policy))
                   (snap_policies default_snapshot))
      (SecurityService.ups_list userPolicies).
Proof.
  apply (role_without_selection_gets_policy_defaults (H := example_runtime)
           default_configuration initial_world (fst default_load) world_with_defaults
           default_snapshot bare_role).
  - vm_compute. reflexivity.
  - vm_compute. reflexivity.
  - constructor.
Defined.

(** ** security.service.js: environment filter and policy data *)

Lemma foldM_appends {A B} (f : list B → A → M (list B)) (R : A → B → Prop) (l : list A) :
  (∀ acc x w w' acc', f acc x w = (w', Ok acc') →
     acc' = acc ∨ ∃ y, acc' = acc ++ [y] ∧ R x y) →
  ∀ acc w w' r, foldM f acc l w = (w', Ok r) →
  ∃ kept added, r = acc ++ added ∧ sublist kept l ∧ Forall2 R kept added.
Proof.
  intros Hstep. induction l as [|x l IH]; intros acc w w' r Hrun; simpl in Hrun.
  { unfold ret in Hrun. inversion Hrun; subst. exists [], [].
    rewrite app_nil_r. split; [done |]. split; constructor. }
  apply bind_inv_ok in Hrun as (w1 & acc1 & Hx & Hrun).
  destruct (IH _ _ _ _ Hrun) as (kept & added & -> & Hsub & Hall).
  destruct (Hstep _ _ _ _ _ Hx) as [-> | (y & -> & Hy)].
  - exists kept, added. split; [done |]. split; [by apply sublist_cons | done].
  - exists (x :: kept), (y :: added). split; [by rewrite <- app_assoc |].
    split; [by apply sublist_skip | by constructor].
Qed.

Section PolicyData.
Context `{JsRuntime}.
Import SecurityService.

(** X25. The environment filter keeps no empty part.  When
    [filterPolicyContentByEnvironment] returns, its result holds, for some
    of the given policies and in their order, one policy with the same name,
    description and default setting, whose settings are a non-empty list
    made, in order, from settings of that policy, each with a non-empty list
    of grants: a setting left without grant and a policy left without
    setting are dropped. *)
Theorem environment_filter_keeps_no_empty_part (userPolicies : list Policy)
    (environment : string) (w w' : World) (filtered : list Policy) :
  filterPolicyContentByEnvironment userPolicies environment w = (w', Ok filtered) →
  ∃ kept, sublist kept userPolicies ∧ Forall2 kept_policy kept filtered.
Proof.
  unfold filterPolicyContentByEnvironment. intros Hrun.
  apply (foldM_appends _ kept_policy) in Hrun as (kept & added & -> & Hsub & Hall).
  { by exists kept. }
  clear. intros acc policy w w' acc' Hstep.
  destruct (pol_settings policy) as [settings|] eqn:Hs; [| discriminate].
  apply bind_inv_ok in Hstep as (w1 & filteredPolicySettings & Hinner & Hret).
  apply (foldM_appends _ kept_setting) in Hinner as (kept & added & -> & Hsub & Hall).
  - simpl in Hret. destruct added as [|s l]; simpl in Hret; unfold ret in Hret;
      inversion Hret; subst; [by left | right].
    eexists. split; [reflexivity |]. repeat split.
    exists s, l, kept. rewrite Hs. by repeat split.
  - clear. intros acc policySetting w w' acc' Hstep.
    apply bind_inv_ok in Hstep as (w1 & filteredProtectedResources & _ & Hret).
    destruct filteredProtectedResources as [|g gs]; simpl in Hret; unfold ret in Hret;
      inversion Hret; subst; [by left | right].
    eexists. split; [reflexivity |]. repeat split. by exists g, gs.
Qed.

(** X26. Role policies that cannot be generated reject the policy data with
    the user's name.  For a user under a role code who is not a tenant
    administrator, when the role store answers with a role and
    [generateRolePolicies] throws for it, [findUserPolicyData] logs
    '**** INVALID SECURITY POLICY ****' and returns a promise rejected with
    that error, its message extended by '- Invalid security policy for user
    <display>'. *)
Theorem invalid_role_policies_reject_policy_data (user : User)
    (securityConfiguration : SecurityConfiguration) (userRole : Role) (v : jsval)
    (w w1 : World) (e : Exn) :
  truthy_str (user_permissionRoleCode user) = true →
  user_isTenantAdmin user = Some v → truthy v = false →
  findRole w = Some securityConfiguration →
  cfg_findRoleByUser securityConfiguration user = Resolved (Some userRole) →
  generateRolePolicies (Some userRole) (extends w [EvFindRoleByUser user]) = (w1, Throw e) →
  findUserPolicyData user w
  = (extends w1 [EvLog LogError
                   (show_str (user_display user) +:+ ": **** INVALID SECURITY POLICY ****") []],
     Ok (Rejected (append_message e (invalid_policy_of user)))).
Proof.
  intros Hcode Hv Hfalsy Hrole Hfind Hgenerate.
  unfold findUserPolicyData, security_deactivated. rewrite Hcode, Hv, Hfalsy. simpl.
  unfold bind at 1. unfold ret at 1.
  unfold try_catch at 1. unfold catch_ at 1. unfold bind at 1.
  unfold then_ at 1. unfold bind at 1.
  unfold call_findRole. unfold bind at 1. unfold get at 1. rewrite Hrole.
  unfold then_ at 1. unfold bind at 1. unfold bind at 1. unfold emit, modify.
  unfold ret at 1. rewrite Hfind. unfold try_catch at 1. unfold ret at 1.
  unfold try_catch at 1. unfold bind at 1.
  fold (extends w [EvFindRoleByUser user]). rewrite Hgenerate.
  unfold ret at 1. mrun. reflexivity.
Qed.

End PolicyData.

Lemma environment_filter_keeps_no_empty_part_witness :
  ∃ kept, sublist kept (SecurityService.ups_list example_user_policies) ∧
          Forall2 kept_policy kept example_server_policies.
Proof.
  apply (environment_filter_keeps_no_empty_part (H := example_runtime)
           (SecurityService.ups_list example_user_policies) "server"
           world_after_load world_after_load example_server_policies).
  vm_compute. reflexivity.
Defined.

Lemma invalid_role_policies_reject_policy_data_witness :
  SecurityService.findUserPolicyData (H := example_runtime) example_user world_with_stray_role
  = (extends (extends world_with_stray_role [EvFindRoleByUser example_user])
       [EvLog LogError "Ann: **** INVALID SECURITY POLICY ****" []],
     Ok (Rejected (append_message
                     (Error (unknown_selection (H := example_runtime) (RoleLabel "write")
                               account_policy))
                     (invalid_policy_of example_user)))).
Proof.
  apply (invalid_role_policies_reject_policy_data (H := example_runtime) example_user
           stray_configuration stray_role (JBool false) world_with_stray_role
           (extends world_with_stray_role [EvFindRoleByUser example_user])
           (Error (unknown_selection (H := example_runtime) (RoleLabel "write")
                     account_policy))).
  - reflexivity.
  - reflexivity.
  - reflexivity.
  - vm_compute. reflexivity.
  - reflexivity.
  - vm_compute. reflexivity.
Defined.
